(** * ProfNote: the recording lifecycle of class-voice-note

    A shallow embedding of the lifecycle code of the application:
    - [src/unnamed/part_000]: the [useAudioRecorder] hook (capture
      session), from the side of the user and with the events of the
      platform;
    - [src/App.tsx]: the recording registry, its rehydration from
      [localStorage], the capture-complete coordinator, [extractTitle],
      [deleteRecording], [saveEdit], the folders of the list, the renders
      with the effect that writes [localStorage], and the props handed to
      [NoteDetail];
    - [src/components/NoteDetail.tsx]: the retry button, the audio source,
      the exported note and the file names;
    - [src/utils/audioUtils.ts]: [formatTime] and [blobToBase64].

    The program is TypeScript over React.  Values that the code treats as
    [any] (the parsed snapshot) or spreads and rebuilds ([{...rec, ...}])
    are modelled in a small universe of JavaScript values; strings are
    sequences of UTF-16 code units, so that [.length] is [List.length]. *)

From Stdlib Require Import List ZArith NArith Bool Ascii String DecimalString Lia.
From Stdlib Require Import DecimalNat Permutation Sorted.
Import ListNotations.

Set Warnings "-register-all".
Set Warnings "-automation".

(* ================================================================== *)
(** ** JavaScript values *)

Module Js.

(** A JavaScript string: its UTF-16 code units. *)
Definition jsstring := list N.

(** An ASCII literal of the source as a JavaScript string. *)
Definition str (s : string) : jsstring :=
  List.map N_of_ascii (list_ascii_of_string s).

Fixpoint jsstring_eqb (a b : jsstring) : bool :=
  match a, b with
  | [], [] => true
  | x :: a', y :: b' => N.eqb x y && jsstring_eqb a' b'
  | _, _ => false
  end.

(** [n.toString()] for a non-negative integer. *)
Definition nat_toString (n : nat) : jsstring :=
  str (NilZero.string_of_uint (Nat.to_uint n)).

(** A [Blob]: its bytes and its MIME type. *)
Record Blob := mkBlob { blob_bytes : list N; blob_type : jsstring }.

(** Runtime values.  [VNum n] is a whole number that a double holds
    exactly ([n] is at most [Number.MAX_SAFE_INTEGER] in size): the
    counters, clock readings and lengths of the program.  [VDate arg] is
    the [Date] object built by [new Date(arg)]; [new Date()] is
    [new Date(now)] for the clock reading [now]. *)
Inductive JsVal :=
| VUndef
| VNull
| VBool (b : bool)
| VNum (n : Z)
| VStr (s : jsstring)
| VArr (items : list JsVal)
| VObj (fields : list (jsstring * JsVal))
| VDate (arg : JsVal)
| VBlob (b : Blob).

(** A plain object (a record of the registry or of a snapshot). *)
Definition is_object (v : JsVal) : bool :=
  match v with
  | VObj _ => true
  | _ => false
  end.

(** ToBoolean. Objects (arrays, dates, blobs included) are truthy. *)
Definition truthy (v : JsVal) : bool :=
  match v with
  | VUndef | VNull => false
  | VBool b => b
  | VNum n => negb (Z.eqb n 0)
  | VStr s => match s with [] => false | _ => true end
  | VArr _ | VObj _ | VDate _ | VBlob _ => true
  end.

(** [a || b] *)
Definition js_or (a b : JsVal) : JsVal := if truthy a then a else b.

(** [v === s] for a string [s]. *)
Definition strict_eq_str (v : JsVal) (s : jsstring) : bool :=
  match v with
  | VStr t => jsstring_eqb t s
  | _ => false
  end.

(** Property lists of objects, in insertion order. *)
Fixpoint assoc (k : jsstring) (fs : list (jsstring * JsVal)) : option JsVal :=
  match fs with
  | [] => None
  | (k', v) :: fs' => if jsstring_eqb k' k then Some v else assoc k fs'
  end.

(** Defining a property keeps the position of an existing key and
    appends a new one. *)
Fixpoint assign (k : jsstring) (v : JsVal) (fs : list (jsstring * JsVal))
  : list (jsstring * JsVal) :=
  match fs with
  | [] => [(k, v)]
  | (k', v') :: fs' =>
      if jsstring_eqb k' k then (k, v) :: fs' else (k', v') :: assign k v fs'
  end.

(** [o.k] on a value that is not [null] or [undefined]: own properties
    of plain objects; no other property read by the program exists on an
    array, a string, a number, a boolean, a [Date] or a [Blob]. *)
Definition get (o : JsVal) (k : jsstring) : JsVal :=
  match o with
  | VObj fs => match assoc k fs with Some v => v | None => VUndef end
  | _ => VUndef
  end.

(** [k in o] for own properties. *)
Definition has (o : JsVal) (k : jsstring) : bool :=
  match o with
  | VObj fs => match assoc k fs with Some _ => true | None => false end
  | _ => false
  end.

Fixpoint indexed_from (i : nat) (xs : list JsVal) : list (jsstring * JsVal) :=
  match xs with
  | [] => []
  | x :: xs' => (nat_toString i, x) :: indexed_from (S i) xs'
  end.

(** The own enumerable properties copied by a spread [{...v}]. *)
Definition own_enumerable (v : JsVal) : list (jsstring * JsVal) :=
  match v with
  | VObj fs => fs
  | VArr xs => indexed_from 0 xs
  | VStr s => indexed_from 0 (List.map (fun c => VStr [c]) s)
  | _ => []
  end.

(** [{...v, k1: v1, ..., kn: vn}] *)
Definition spread_with (v : JsVal) (overrides : list (jsstring * JsVal)) : JsVal :=
  VObj (fold_left (fun fs kv => assign (fst kv) (snd kv) fs)
                  overrides (own_enumerable v)).

(** *** JSON text, as the tree it denotes *)

(** [JDateText arg] is the string [new Date(arg).toJSON()] (ISO-8601
    text, or [null] for an invalid date); the calendar arithmetic of the
    platform is not unfolded. *)
Inductive Json :=
| JNull
| JBool (b : bool)
| JNum (n : Z)
| JStr (s : jsstring)
| JDateText (arg : JsVal)
| JArr (items : list Json)
| JObj (members : list (jsstring * Json)).

(** [JSON.stringify]: [None] is the [undefined] result, which drops an
    object member and becomes [null] inside an array.  A [Blob] has no
    own enumerable property and serializes as the empty object. *)
Fixpoint JSON_stringify (v : JsVal) : option Json :=
  match v with
  | VUndef => None
  | VNull => Some JNull
  | VBool b => Some (JBool b)
  | VNum n => Some (JNum n)
  | VStr s => Some (JStr s)
  | VDate arg => Some (JDateText arg)
  | VBlob _ => Some (JObj [])
  | VArr xs =>
      Some (JArr ((fix elems (l : list JsVal) : list Json :=
                     match l with
                     | [] => []
                     | x :: l' =>
                         match JSON_stringify x with
                         | Some j => j
                         | None => JNull
                         end :: elems l'
                     end) xs))
  | VObj fs =>
      Some (JObj ((fix members (l : list (jsstring * JsVal))
                     : list (jsstring * Json) :=
                     match l with
                     | [] => []
                     | (k, x) :: l' =>
                         match JSON_stringify x with
                         | Some j => (k, j) :: members l'
                         | None => members l'
                         end
                     end) fs))
  end.

Fixpoint json_assoc (k : jsstring) (ms : list (jsstring * Json)) : option Json :=
  match ms with
  | [] => None
  | (k', j) :: ms' => if jsstring_eqb k' k then Some j else json_assoc k ms'
  end.

(** The member [k] of a serialized object. *)
Definition json_member (j : Json) (k : jsstring) : option Json :=
  match j with
  | JObj ms => json_assoc k ms
  | _ => None
  end.

(** The text held by [localStorage], seen through [JSON.parse]: either
    the parser rejects it with a [SyntaxError], or it denotes a value. *)
Inductive StoredText :=
| Malformed (raw : jsstring)
| Rendered (value : JsVal).

(** [JSON.parse]: [None] when it throws. *)
Definition JSON_parse (t : StoredText) : option JsVal :=
  match t with
  | Malformed _ => None
  | Rendered v => Some v
  end.

(** Truthiness of the stored string: only the empty string is falsy, and
    the empty string is not JSON. *)
Definition text_truthy (t : StoredText) : bool :=
  match t with
  | Malformed [] => false
  | _ => true
  end.

(** Empty every [Blob] held by a value as an array element or a property
    value.  A [Date] holds a time value, not its constructor argument, so
    there is nothing to empty inside it. *)
Fixpoint erase_blobs (v : JsVal) : JsVal :=
  match v with
  | VBlob _ => VBlob (mkBlob [] [])
  | VArr xs => VArr (List.map erase_blobs xs)
  | VObj fs =>
      VObj ((fix go (l : list (jsstring * JsVal)) :=
               match l with
               | [] => []
               | (k, x) :: l' => (k, erase_blobs x) :: go l'
               end) fs)
  | _ => v
  end.

(** The conversion of a value to a primitive throws a [TypeError]: a
    plain object prints through the inherited [toString], an own property
    of that name shadows it, and no value here is callable; an array
    prints its elements ([null] and [undefined] as the empty string), so
    it throws when one of them does.  [new Date(v)], [String(v)] and the
    use of [v] as a property key all go through this conversion. *)
Fixpoint unprintable (v : JsVal) : bool :=
  match v with
  | VObj fs =>
      match assoc (str "toString") fs with
      | Some _ => true
      | None => false
      end
  | VArr xs =>
      (fix any (l : list JsVal) : bool :=
         match l with
         | [] => false
         | x :: l' => unprintable x || any l'
         end) xs
  | _ => false
  end.

(** [s.trim()]: WhiteSpace and LineTerminator code units. *)
Definition is_space (c : N) : bool :=
  (N.leb 9 c && N.leb c 13) || N.eqb c 32 || N.eqb c 160 || N.eqb c 5760
  || (N.leb 8192 c && N.leb c 8202) || N.eqb c 8232 || N.eqb c 8233
  || N.eqb c 8239 || N.eqb c 8287 || N.eqb c 12288 || N.eqb c 65279.

Fixpoint trim_start (s : jsstring) : jsstring :=
  match s with
  | c :: s' => if is_space c then trim_start s' else s
  | [] => []
  end.

Definition trim (s : jsstring) : jsstring :=
  rev (trim_start (rev (trim_start s))).

(** [s.split(re)] for a regular expression [re] that matches exactly the
    single code units accepted by [sep]. *)
Fixpoint split (sep : N -> bool) (s : jsstring) : list jsstring :=
  match s with
  | [] => [[]]
  | c :: s' =>
      if sep c then [] :: split sep s'
      else match split sep s' with
           | piece :: rest => (c :: piece) :: rest
           | [] => [[c]]
           end
  end.

End Js.

(* ================================================================== *)
(** ** The capture session: [useAudioRecorder]

    One session as the user drives it: the microphone is granted or
    refused, and the [stop] event of the recorder follows [stop()] at
    once.  [AudioRecorder] below unfolds what the platform can do in
    between. *)

Module Recorder.
Import Js.

(** [MediaRecorder.state]; the hook never pauses. *)
Inductive RecordingState := inactive | recording.

(** The [MediaRecorder] built by one call of [startRecording], with the
    [onstop] handler installed by that call.  The handler is a closure:
    [onstop_duration] is the value of the [duration] it closes over. *)
Record MediaRecorder := mkMediaRecorder {
  state : RecordingState;
  onstop_duration : Z
}.

(** React state ([useState]) and refs ([useRef]) of the hook. *)
Record Hook := mkHook {
  isRecording : bool;
  duration : Z;
  permissionError : option jsstring;
  mediaRecorderRef : option MediaRecorder;
  audioContextRef : bool;      (* an open AudioContext is held *)
  analyserRef : bool;
  sourceRef : bool;
  streamRef : bool;            (* a MediaStream with live tracks is held *)
  chunksRef : list Blob;
  timerRef : bool              (* an interval is scheduled *)
}.

Definition initial : Hook :=
  mkHook false 0 None None false false false false [] false.

(** The message of line 69:
    마이크 권한이 필요합니다. 브라우저 설정에서 권한을 허용해주세요. *)
Definition permissionMessage : jsstring :=
  [47560; 51060; 53356; 32; 44428; 54620; 51060; 32; 54596; 50836; 54633;
   45768; 45796; 46; 32; 48652; 46972; 50864; 51200; 32; 49444; 51221;
   50640; 49436; 32; 44428; 54620; 51012; 32; 54728; 50857; 54644; 51452;
   49464; 50836; 46]%N.

Definition audio_webm : jsstring := str "audio/webm".

(** [new Blob(parts, { type })] *)
Definition Blob_of (parts : list Blob) (type : jsstring) : Blob :=
  mkBlob (List.concat (List.map blob_bytes parts)) type.

(** An emission of [onRecordingComplete(blob, finalDuration)]. *)
Definition Completion := (Blob * Z)%type.

(** What one execution of the hook body binds for the functions it
    creates: [const [duration, setDuration] = useState(0)] (line 9). *)
Record Render := mkRender { render_duration : Z }.

(** The render that shows the state [h]. *)
Definition render (h : Hook) : Render :=
  {| render_duration := duration h |}.

(** The [startRecording] created by the render [r], run on the state [h];
    [granted] is the outcome of [getUserMedia].  The [onstop] handler of
    lines 47-53 is created here, so its [duration] is the one of [r]. *)
Definition startRecording (r : Render) (granted : bool) (h : Hook) : Hook :=
  if granted then
    {| isRecording := true;
       duration := 0;
       permissionError := None;
       mediaRecorderRef :=
         Some {| state := recording; onstop_duration := render_duration r |};
       audioContextRef := true;
       analyserRef := true;
       sourceRef := true;
       streamRef := true;
       chunksRef := [];
       timerRef := true |}
  else
    {| isRecording := isRecording h;
       duration := duration h;
       permissionError := Some permissionMessage;
       mediaRecorderRef := mediaRecorderRef h;
       audioContextRef := audioContextRef h;
       analyserRef := analyserRef h;
       sourceRef := sourceRef h;
       streamRef := streamRef h;
       chunksRef := chunksRef h;
       timerRef := timerRef h |}.

(** The interval callback: [setDuration(prev => prev + 1)]. *)
Definition tick (h : Hook) : Hook :=
  if timerRef h then
    {| isRecording := isRecording h;
       duration := duration h + 1;
       permissionError := permissionError h;
       mediaRecorderRef := mediaRecorderRef h;
       audioContextRef := audioContextRef h;
       analyserRef := analyserRef h;
       sourceRef := sourceRef h;
       streamRef := streamRef h;
       chunksRef := chunksRef h;
       timerRef := timerRef h |}
  else h.

(** [mediaRecorder.ondataavailable] *)
Definition ondataavailable (data : Blob) (h : Hook) : Hook :=
  match blob_bytes data with
  | [] => h
  | _ =>
    {| isRecording := isRecording h;
       duration := duration h;
       permissionError := permissionError h;
       mediaRecorderRef := mediaRecorderRef h;
       audioContextRef := audioContextRef h;
       analyserRef := analyserRef h;
       sourceRef := sourceRef h;
       streamRef := streamRef h;
       chunksRef := chunksRef h ++ [data];
       timerRef := timerRef h |}
  end.

(** [cleanupAudio] *)
Definition cleanupAudio (h : Hook) : Hook :=
  {| isRecording := isRecording h;
     duration := duration h;
     permissionError := permissionError h;
     mediaRecorderRef := mediaRecorderRef h;
     audioContextRef := false;
     analyserRef := false;
     sourceRef := false;
     streamRef := false;
     chunksRef := chunksRef h;
     timerRef := timerRef h |}.

(** [mediaRecorder.onstop] of the recorder [mr]. *)
Definition onstop (mr : MediaRecorder) (h : Hook) : Hook * list Completion :=
  let blob := Blob_of (chunksRef h) audio_webm in
  let finalDuration := onstop_duration mr in
  (cleanupAudio h, [(blob, finalDuration)]).

(** [stopRecording], followed by the [stop] event that
    [mediaRecorder.stop()] makes the platform dispatch. *)
Definition stopRecording (h : Hook) : Hook * list Completion :=
  match mediaRecorderRef h with
  | Some mr =>
      match state mr with
      | inactive => (h, [])
      | recording =>
          let stopped := {| state := inactive;
                            onstop_duration := onstop_duration mr |} in
          onstop stopped
            {| isRecording := false;
               duration := duration h;
               permissionError := permissionError h;
               mediaRecorderRef := Some stopped;
               audioContextRef := audioContextRef h;
               analyserRef := analyserRef h;
               sourceRef := sourceRef h;
               streamRef := streamRef h;
               chunksRef := chunksRef h;
               timerRef := false |}
      end
  | None => (h, [])
  end.

Inductive Event :=
| StartRecording (granted : bool)
| Tick
| DataAvailable (data : Blob)
| StopRecording.

(** An event reaches the functions of the latest render: the button that
    starts a recording calls the [startRecording] of the render on screen. *)
Definition step (e : Event) (h : Hook) : Hook * list Completion :=
  match e with
  | StartRecording granted => (startRecording (render h) granted h, [])
  | Tick => (tick h, [])
  | DataAvailable data => (ondataavailable data h, [])
  | StopRecording => stopRecording h
  end.

(** A run of the session: the final state and every completion emitted,
    in order. *)
Fixpoint run (es : list Event) (h : Hook) : Hook * list Completion :=
  match es with
  | [] => (h, [])
  | e :: es' =>
      let (h1, out1) := step e h in
      let (h2, out2) := run es' h1 in
      (h2, out1 ++ out2)
  end.

End Recorder.

(* ================================================================== *)
(** ** The capture session with the platform: [useAudioRecorder]

    [Recorder] above follows one session from the side of the user: the
    microphone is granted or refused, and the stop event follows [stop()]
    at once.  This module unfolds what lies in between: the call of
    [startRecording] and the answer of [getUserMedia] are two events, the
    code after the answer can throw at each constructor, a recorder
    delivers its data and dispatches its stop event after [stop()]
    returns, and the platform can stop a recorder by itself.
    [console.error] is not recorded, and the hook stays mounted (the
    cleanup of lines 99-105 runs when [App] unmounts). *)

Module AudioRecorder.
Import Js.

(** The life of a [MediaRecorder] that [start()] has started without a
    timeslice: it gathers until [stop()] is called or the platform stops
    it (every track has ended, or an error); then [state] is 'inactive',
    and the platform dispatches one [dataavailable] event with all the
    data, then the [stop] event.  A recorder whose [start()] threw is
    [done] from the beginning. *)
Inductive Phase := gathering | flushing | closing | done.

(** A recorder, with the [duration] that its [onstop] closes over. *)
Record MediaRecorder := mkMediaRecorder {
  phase : Phase;
  onstop_duration : Z
}.

(** React state and refs of the hook (lines 8-18), and the objects of
    the platform that the refs point to: the recorders built so far, the
    streams granted so far ([true]: its tracks are live) and the calls of
    [startRecording] that wait for [getUserMedia], each with the
    [duration] of the render that created the function.  A ref to a
    recorder or a stream is its position in the list. *)
Record Hook := mkHook {
  isRecording : bool;
  duration : Z;
  permissionError : option jsstring;
  mediaRecorderRef : option nat;
  audioContextRef : bool;
  analyserRef : bool;
  sourceRef : bool;
  streamRef : option nat;
  chunksRef : list Blob;
  timerRef : bool;
  recorders : list MediaRecorder;
  streams : list bool;
  pending : list Z
}.

Definition initial : Hook :=
  mkHook false 0 None None false false false None [] false [] [] [].

Fixpoint set_nth {A : Type} (i : nat) (x : A) (l : list A) : list A :=
  match l, i with
  | [], _ => []
  | _ :: l', O => x :: l'
  | y :: l', S i' => y :: set_nth i' x l'
  end.

Fixpoint remove_nth {A : Type} (i : nat) (l : list A) : list A :=
  match l, i with
  | [], _ => []
  | _ :: l', O => l'
  | y :: l', S i' => y :: remove_nth i' l'
  end.

(** [startRecording()] is called on the render that shows [h]: the call
    of [getUserMedia] is made, and the rest waits for its answer. *)
Definition callStart (h : Hook) : Hook :=
  {| isRecording := isRecording h;
     duration := duration h;
     permissionError := permissionError h;
     mediaRecorderRef := mediaRecorderRef h;
     audioContextRef := audioContextRef h;
     analyserRef := analyserRef h;
     sourceRef := sourceRef h;
     streamRef := streamRef h;
     chunksRef := chunksRef h;
     timerRef := timerRef h;
     recorders := recorders h;
     streams := streams h;
     pending := pending h ++ [duration h] |}.

(** How far the code after the [await] gets (lines 22-65). *)
Inductive Answer :=
| denied            (* getUserMedia rejects: line 22 *)
| noAudioContext    (* a constructor of lines 26-30 throws *)
| noMediaRecorder   (* new MediaRecorder throws: line 37 *)
| startThrows       (* mediaRecorder.start() throws: line 55 *)
| started.

(** The [catch] of lines 67-70. *)
Definition refuse (h : Hook) : Hook :=
  {| isRecording := isRecording h;
     duration := duration h;
     permissionError := Some Recorder.permissionMessage;
     mediaRecorderRef := mediaRecorderRef h;
     audioContextRef := audioContextRef h;
     analyserRef := analyserRef h;
     sourceRef := sourceRef h;
     streamRef := streamRef h;
     chunksRef := chunksRef h;
     timerRef := timerRef h;
     recorders := recorders h;
     streams := streams h;
     pending := pending h |}.

(** Lines 22-23: the stream is granted and kept in [streamRef]. *)
Definition holdStream (h : Hook) : Hook :=
  {| isRecording := isRecording h;
     duration := duration h;
     permissionError := permissionError h;
     mediaRecorderRef := mediaRecorderRef h;
     audioContextRef := audioContextRef h;
     analyserRef := analyserRef h;
     sourceRef := sourceRef h;
     streamRef := Some (List.length (streams h));
     chunksRef := chunksRef h;
     timerRef := timerRef h;
     recorders := recorders h;
     streams := streams h ++ [true];
     pending := pending h |}.

(** Lines 26-34. *)
Definition holdAudio (h : Hook) : Hook :=
  {| isRecording := isRecording h;
     duration := duration h;
     permissionError := permissionError h;
     mediaRecorderRef := mediaRecorderRef h;
     audioContextRef := true;
     analyserRef := true;
     sourceRef := true;
     streamRef := streamRef h;
     chunksRef := chunksRef h;
     timerRef := timerRef h;
     recorders := recorders h;
     streams := streams h;
     pending := pending h |}.

(** Lines 37-53: the recorder is built in the phase [p], and its
    handlers close over [closure], the [duration] of the call. *)
Definition holdRecorder (p : Phase) (closure : Z) (h : Hook) : Hook :=
  {| isRecording := isRecording h;
     duration := duration h;
     permissionError := permissionError h;
     mediaRecorderRef := Some (List.length (recorders h));
     audioContextRef := audioContextRef h;
     analyserRef := analyserRef h;
     sourceRef := sourceRef h;
     streamRef := streamRef h;
     chunksRef := [];
     timerRef := timerRef h;
     recorders := recorders h ++ [mkMediaRecorder p closure];
     streams := streams h;
     pending := pending h |}.

(** Lines 56-65. *)
Definition beginSession (h : Hook) : Hook :=
  {| isRecording := true;
     duration := 0;
     permissionError := None;
     mediaRecorderRef := mediaRecorderRef h;
     audioContextRef := audioContextRef h;
     analyserRef := analyserRef h;
     sourceRef := sourceRef h;
     streamRef := streamRef h;
     chunksRef := chunksRef h;
     timerRef := true;
     recorders := recorders h;
     streams := streams h;
     pending := pending h |}.

(** The code after the [await], for the call that closed over
    [closure]. *)
Definition afterAwait (closure : Z) (a : Answer) (h : Hook) : Hook :=
  match a with
  | denied => refuse h
  | noAudioContext => refuse (holdStream h)
  | noMediaRecorder => refuse (holdAudio (holdStream h))
  | startThrows =>
      refuse (holdRecorder done closure (holdAudio (holdStream h)))
  | started =>
      beginSession (holdRecorder gathering closure (holdAudio (holdStream h)))
  end.

(** The [k]-th waiting call gets its answer. *)
Definition answer (k : nat) (a : Answer) (h : Hook) : Hook :=
  match nth_error (pending h) k with
  | Some closure =>
      afterAwait closure a
        {| isRecording := isRecording h;
           duration := duration h;
           permissionError := permissionError h;
           mediaRecorderRef := mediaRecorderRef h;
           audioContextRef := audioContextRef h;
           analyserRef := analyserRef h;
           sourceRef := sourceRef h;
           streamRef := streamRef h;
           chunksRef := chunksRef h;
           timerRef := timerRef h;
           recorders := recorders h;
           streams := streams h;
           pending := remove_nth k (pending h) |}
  | None => h
  end.

(** The interval callback: [setDuration(prev => prev + 1)]. *)
Definition tick (h : Hook) : Hook :=
  if timerRef h then
    {| isRecording := isRecording h;
       duration := duration h + 1;
       permissionError := permissionError h;
       mediaRecorderRef := mediaRecorderRef h;
       audioContextRef := audioContextRef h;
       analyserRef := analyserRef h;
       sourceRef := sourceRef h;
       streamRef := streamRef h;
       chunksRef := chunksRef h;
       timerRef := timerRef h;
       recorders := recorders h;
       streams := streams h;
       pending := pending h |}
  else h.

Definition setPhase (i : nat) (p : Phase) (h : Hook) : Hook :=
  match nth_error (recorders h) i with
  | Some mr =>
      {| isRecording := isRecording h;
         duration := duration h;
         permissionError := permissionError h;
         mediaRecorderRef := mediaRecorderRef h;
         audioContextRef := audioContextRef h;
         analyserRef := analyserRef h;
         sourceRef := sourceRef h;
         streamRef := streamRef h;
         chunksRef := chunksRef h;
         timerRef := timerRef h;
         recorders := set_nth i (mkMediaRecorder p (onstop_duration mr)) (recorders h);
         streams := streams h;
         pending := pending h |}
  | None => h
  end.

Definition phaseOf (i : nat) (h : Hook) : option Phase :=
  option_map phase (nth_error (recorders h) i).

(** [stopRecording] (lines 73-82). *)
Definition stopRecording (h : Hook) : Hook :=
  match mediaRecorderRef h with
  | Some i =>
      match phaseOf i h with
      | Some gathering =>
          setPhase i flushing
            {| isRecording := false;
               duration := duration h;
               permissionError := permissionError h;
               mediaRecorderRef := mediaRecorderRef h;
               audioContextRef := audioContextRef h;
               analyserRef := analyserRef h;
               sourceRef := sourceRef h;
               streamRef := streamRef h;
               chunksRef := chunksRef h;
               timerRef := false;
               recorders := recorders h;
               streams := streams h;
               pending := pending h |}
      | _ => h
      end
  | None => h
  end.

(** The platform stops the recorder [i] by itself. *)
Definition platformStop (i : nat) (h : Hook) : Hook :=
  match phaseOf i h with
  | Some gathering => setPhase i flushing h
  | _ => h
  end.

(** The [dataavailable] event of the recorder [i] (lines 41-45). *)
Definition ondataavailable (i : nat) (data : Blob) (h : Hook) : Hook :=
  match phaseOf i h with
  | Some flushing =>
      setPhase i closing
        match blob_bytes data with
        | [] => h
        | _ =>
          {| isRecording := isRecording h;
             duration := duration h;
             permissionError := permissionError h;
             mediaRecorderRef := mediaRecorderRef h;
             audioContextRef := audioContextRef h;
             analyserRef := analyserRef h;
             sourceRef := sourceRef h;
             streamRef := streamRef h;
             chunksRef := chunksRef h ++ [data];
             timerRef := timerRef h;
             recorders := recorders h;
             streams := streams h;
             pending := pending h |}
        end
  | _ => h
  end.

(** [cleanupAudio] (lines 84-97): the tracks of the stream in
    [streamRef] are stopped, and the four refs are cleared. *)
Definition cleanupAudio (h : Hook) : Hook :=
  {| isRecording := isRecording h;
     duration := duration h;
     permissionError := permissionError h;
     mediaRecorderRef := mediaRecorderRef h;
     audioContextRef := false;
     analyserRef := false;
     sourceRef := false;
     streamRef := None;
     chunksRef := chunksRef h;
     timerRef := timerRef h;
     recorders := recorders h;
     streams := match streamRef h with
                | Some n => set_nth n false (streams h)
                | None => streams h
                end;
     pending := pending h |}.

(** The [stop] event of the recorder [i] (lines 47-53). *)
Definition onstop (i : nat) (h : Hook) : Hook * list Recorder.Completion :=
  match nth_error (recorders h) i with
  | Some mr =>
      match phase mr with
      | closing =>
          let blob := Recorder.Blob_of (chunksRef h) Recorder.audio_webm in
          let finalDuration := onstop_duration mr in
          (cleanupAudio (setPhase i done h), [(blob, finalDuration)])
      | _ => (h, [])
      end
  | None => (h, [])
  end.

(** The tracks of the stream [n] end by themselves (the device is
    unplugged, the permission is withdrawn). *)
Definition trackEnded (n : nat) (h : Hook) : Hook :=
  {| isRecording := isRecording h;
     duration := duration h;
     permissionError := permissionError h;
     mediaRecorderRef := mediaRecorderRef h;
     audioContextRef := audioContextRef h;
     analyserRef := analyserRef h;
     sourceRef := sourceRef h;
     streamRef := streamRef h;
     chunksRef := chunksRef h;
     timerRef := timerRef h;
     recorders := recorders h;
     streams := set_nth n false (streams h);
     pending := pending h |}.

Inductive Event :=
| CallStart
| GetUserMedia (k : nat) (a : Answer)
| Tick
| CallStop
| PlatformStop (i : nat)
| DataAvailable (i : nat) (data : Blob)
| Stop (i : nat)
| TrackEnded (n : nat).

(** An event that the platform cannot dispatch in the phase of its
    recorder changes nothing. *)
Definition step (e : Event) (h : Hook) : Hook * list Recorder.Completion :=
  match e with
  | CallStart => (callStart h, [])
  | GetUserMedia k a => (answer k a h, [])
  | Tick => (tick h, [])
  | CallStop => (stopRecording h, [])
  | PlatformStop i => (platformStop i h, [])
  | DataAvailable i data => (ondataavailable i data h, [])
  | Stop i => onstop i h
  | TrackEnded n => (trackEnded n h, [])
  end.

Fixpoint run (es : list Event) (h : Hook) : Hook * list Recorder.Completion :=
  match es with
  | [] => (h, [])
  | e :: es' =>
      let (h1, out1) := step e h in
      let (h2, out2) := run es' h1 in
      (h2, out1 ++ out2)
  end.

(** The microphone is held: some granted stream has live tracks. *)
Definition microphoneHeld (h : Hook) : bool :=
  existsb (fun live => live) (streams h).

(** The number of seconds that the interval counts during the events. *)
Definition ticksIn (es : list Event) : nat :=
  List.length (List.filter (fun e => match e with Tick => true | _ => false end)
                           es).

(** The tracks of the stream [n] are live, and no ref points to it. *)
Definition orphaned (n : nat) (h : Hook) : Prop :=
  nth_error (streams h) n = Some true /\ streamRef h <> Some n.

(** The flag is on, the interval is scheduled, and the recorder in
    [mediaRecorderRef] is not gathering any more. *)
Definition stuck (h : Hook) : Prop :=
  isRecording h = true /\ timerRef h = true /\
  exists i p, mediaRecorderRef h = Some i /\ phaseOf i h = Some p /\
              p <> gathering.

(** What holds of the refs in every state. *)
Definition coherent (h : Hook) : Prop :=
  timerRef h = isRecording h /\
  analyserRef h = audioContextRef h /\
  sourceRef h = audioContextRef h /\
  (audioContextRef h = true -> exists n, streamRef h = Some n) /\
  (isRecording h = true ->
   exists i mr, mediaRecorderRef h = Some i /\
                nth_error (recorders h) i = Some mr).

(** The events of a session that runs alone: the call, the grant, [n]
    seconds, the stop, and what the recorder [i] then dispatches. *)
Definition session (n : nat) (i : nat) (data : Blob) : list Event :=
  CallStart :: GetUserMedia 0 started
    :: repeat Tick n ++ [CallStop; DataAvailable i data; Stop i].

(** What keeps the hook where it is once its recorder has stopped by
    itself: everything but a new session. *)
Definition startsNoSession (e : Event) : bool :=
  match e with
  | GetUserMedia _ started => false
  | _ => true
  end.

End AudioRecorder.

(* ================================================================== *)
(** ** The registry and the lifecycle coordinator: [App] *)

Module App.
Import Js.

(** *** Property names and literals of the source *)

Definition k_id : jsstring := str "id".
Definition k_title : jsstring := str "title".
Definition k_subject : jsstring := str "subject".
Definition k_date : jsstring := str "date".
Definition k_duration : jsstring := str "duration".
Definition k_audioBlob : jsstring := str "audioBlob".
Definition k_status : jsstring := str "status".
Definition k_data : jsstring := str "data".
Definition k_errorMessage : jsstring := str "errorMessage".
Definition k_summary : jsstring := str "summary".
Definition k_transcript : jsstring := str "transcript".
Definition k_keyTerms : jsstring := str "keyTerms".
Definition k_examQuestions : jsstring := str "examQuestions".

Definition s_recorded : jsstring := str "recorded".
Definition s_processing : jsstring := str "processing".
Definition s_completed : jsstring := str "completed".
Definition s_error : jsstring := str "error".

(** '기타', the fallback folder. *)
Definition s_etc : jsstring := [44592; 53440]%N.

(** '녹음 처리 중 페이지가 새로고침되어 중단되었습니다.' (line 27) *)
Definition s_interrupted : jsstring :=
  [45433; 51020; 32; 52376; 47532; 32; 51473; 32; 54168; 51060; 51648;
   44032; 32; 49352; 47196; 44256; 52840; 46104; 50612; 32; 51473; 45800;
   46104; 50632; 49845; 45768; 45796; 46]%N.

(** 'AI 분석 중 오류가 발생했습니다.' (line 85) *)
Definition s_analysisFailed : jsstring :=
  [65; 73; 32; 48516; 49437; 32; 51473; 32; 50724; 47448; 44032; 32;
   48156; 49373; 54664; 49845; 45768; 45796; 46]%N.

(** '강의 녹음 ', the prefix of a default title (line 54). *)
Definition s_titlePrefix : jsstring :=
  [44053; 51032; 32; 45433; 51020; 32]%N.

(** [NoteData] of types.ts, the result type of [analyzeLectureAudio]. *)
Record NoteData := mkNoteData {
  summary : jsstring;
  transcript : jsstring;
  keyTerms : list jsstring;
  examQuestions : list jsstring
}.

Definition NoteData_value (d : NoteData) : JsVal :=
  VObj [ (k_transcript, VStr (transcript d));
         (k_summary, VStr (summary d));
         (k_keyTerms, VArr (List.map VStr (keyTerms d)));
         (k_examQuestions, VArr (List.map VStr (examQuestions d))) ].

(** Requests handed to the collaborators, and [console.error]. *)
Inductive Effect :=
| SaveAudio (id : jsstring) (blob : Blob)
| AnalyzeLectureAudio (id : jsstring) (blob : Blob)
| DeleteAudio (id : jsstring)
| ConsoleError.

(** *** Rehydration: the initializer of [useState<Recording[]>] *)

(** The callback of [parsedData.map] (lines 22-28); [None] is a
    [TypeError]: of reading a property of [null] or [undefined], or of
    [new Date(item.date)] on a date that cannot be converted to a
    primitive. *)
Definition rehydrate_item (item : JsVal) : option JsVal :=
  match item with
  | VUndef | VNull => None
  | _ =>
      if unprintable (get item k_date) then None
      else
        let processing := strict_eq_str (get item k_status) s_processing in
        Some (spread_with item
          [ (k_subject, js_or (get item k_subject) (VStr s_etc));
            (k_date, VDate (get item k_date));
            (k_status, if processing then VStr s_error else get item k_status);
            (k_errorMessage,
               if processing then VStr s_interrupted
               else get item k_errorMessage) ])
  end.

(** [xs.map(f)] where [f] may throw. *)
Fixpoint map_or_throw (f : JsVal -> option JsVal) (xs : list JsVal)
  : option (list JsVal) :=
  match xs with
  | [] => Some []
  | x :: xs' =>
      match f x with
      | None => None
      | Some y =>
          match map_or_throw f xs' with
          | None => None
          | Some ys => Some (y :: ys)
          end
      end
  end.

(** Lines 15-35.  [hasWindow] is [typeof window !== 'undefined'];
    [savedData] is [localStorage.getItem('profnote-recordings')].
    Everything thrown inside the [try] (by [JSON.parse], by calling
    [.map] on a value that is not an array, by the callback) ends in
    the [catch], which logs and returns the empty list. *)
Definition loadRecordings (hasWindow : bool) (savedData : option StoredText)
  : list JsVal * list Effect :=
  if negb hasWindow then ([], [])
  else
    match savedData with
    | None => ([], [])
    | Some text =>
        if text_truthy text then
          match JSON_parse text with
          | None => ([], [ConsoleError])
          | Some (VArr items) =>
              match map_or_throw rehydrate_item items with
              | Some recs => (recs, [])
              | None => ([], [ConsoleError])
              end
          | Some _ => ([], [ConsoleError])
          end
        else ([], [])
    end.

(** The initial value of the [recordings] state. *)
Definition initialRecordings (hasWindow : bool) (savedData : option StoredText)
  : list JsVal :=
  fst (loadRecordings hasWindow savedData).

(** *** [extractTitle] (lines 168-174) *)

(** The character class of [/[.!?]/]. *)
Definition sentence_end (c : N) : bool :=
  N.eqb c 46 || N.eqb c 33 || N.eqb c 63.

Definition extractTitle (summary : jsstring) : JsVal :=
  let sentences := split sentence_end summary in
  match sentences with
  | first :: _ =>
      if Nat.ltb (List.length first) 30 then VStr first else VNull
  | [] => VNull
  end.

(** The first sentence of a summary in the words of the specification:
    the text before the first '.', '!' or '?' (all of it when there is
    none).  [extractTitle] is compared with it below. *)
Fixpoint firstSentence (summary : jsstring) : jsstring :=
  match summary with
  | [] => []
  | c :: rest => if sentence_end c then [] else c :: firstSentence rest
  end.

(** *** Application state *)

Inductive View := home | recordingView.

(** The React state of [App] that the lifecycle reads or writes (lines
    15-43).  The set of expanded folders is added in [Expansion], and the
    renders, with the effect that writes [localStorage], in [Rendering]. *)
Record AppState := mkApp {
  recordings : list JsVal;
  selectedId : option jsstring;
  view : View;
  editingId : option jsstring;
  editTitle : jsstring;
  editSubject : jsstring
}.

(** [setRecordings(f)]: the updater [f] gives the next registry. *)
Definition setRecordings (f : list JsVal -> list JsVal) (st : AppState)
  : AppState :=
  let next := f (recordings st) in
  {| recordings := next;
     selectedId := selectedId st;
     view := view st;
     editingId := editingId st;
     editTitle := editTitle st;
     editSubject := editSubject st |}.

Definition setSelectedId (v : option jsstring) (st : AppState) : AppState :=
  {| recordings := recordings st;
     selectedId := v;
     view := view st;
     editingId := editingId st;
     editTitle := editTitle st;
     editSubject := editSubject st |}.

Definition setView (v : View) (st : AppState) : AppState :=
  {| recordings := recordings st;
     selectedId := selectedId st;
     view := v;
     editingId := editingId st;
     editTitle := editTitle st;
     editSubject := editSubject st |}.

Definition setEditing (i : option jsstring) (t s : jsstring) (st : AppState)
  : AppState :=
  {| recordings := recordings st;
     selectedId := selectedId st;
     view := view st;
     editingId := i;
     editTitle := t;
     editSubject := s |}.

(** The state of the first render: the initial values of lines 15-43. *)
Definition mount (hasWindow : bool) (savedData : option StoredText) : AppState :=
  {| recordings := initialRecordings hasWindow savedData;
     selectedId := None;
     view := home;
     editingId := None;
     editTitle := [];
     editSubject := [] |}.

(** *** [handleRecordingCompleteCallback] (lines 50-89) *)

(** Lines 52-60.  [closureLen] is [recordings.length] as seen by the
    closure, [newId] the result of [generateId()], [now] the clock. *)
Definition newRecording (closureLen : nat) (newId : jsstring) (now : Z)
           (blob : Blob) (duration : Z) : JsVal :=
  VObj [ (k_id, VStr newId);
         (k_title, VStr (s_titlePrefix ++ nat_toString (closureLen + 1)));
         (k_subject, VStr s_etc);
         (k_date, VDate (VNum now));
         (k_duration, VNum duration);
         (k_audioBlob, VBlob blob);
         (k_status, VStr s_processing) ].

(** Lines 51-75, up to the two awaits. *)
Definition handleRecordingCompleteCallback
           (closureLen : nat) (newId : jsstring) (now : Z)
           (blob : Blob) (duration : Z) (st : AppState)
  : AppState * list Effect :=
  let rec := newRecording closureLen newId now blob duration in
  (setView home (setRecordings (fun prev => rec :: prev) st),
   [SaveAudio newId blob; AnalyzeLectureAudio newId blob]).

(** The updater of lines 76-80. *)
Definition completeRecording (newId : jsstring) (result : NoteData)
           (prev : list JsVal) : list JsVal :=
  List.map (fun rec =>
         if strict_eq_str (get rec k_id) newId
         then spread_with rec
                [ (k_status, VStr s_completed);
                  (k_data, NoteData_value result);
                  (k_title, js_or (extractTitle (summary result))
                                  (get rec k_title)) ]
         else rec) prev.

(** The updater of lines 83-87. *)
Definition failRecording (newId : jsstring) (prev : list JsVal) : list JsVal :=
  List.map (fun rec =>
         if strict_eq_str (get rec k_id) newId
         then spread_with rec
                [ (k_status, VStr s_error);
                  (k_errorMessage, VStr s_analysisFailed) ]
         else rec) prev.

(** [analyzeLectureAudio] resolved with [result] (lines 75-80). *)
Definition analysisFulfilled (newId : jsstring) (result : NoteData)
           (st : AppState) : AppState * list Effect :=
  (setRecordings (completeRecording newId result) st, []).

(** [analyzeLectureAudio] rejected (lines 81-88). *)
Definition analysisRejected (newId : jsstring) (st : AppState)
  : AppState * list Effect :=
  (setRecordings (failRecording newId) st, [ConsoleError]).

(** *** [deleteRecording] (lines 118-134) *)

Definition option_eqb (a : option jsstring) (b : jsstring) : bool :=
  match a with
  | Some x => jsstring_eqb x b
  | None => false
  end.

Definition deleteRecording (id : jsstring) (confirmed : bool) (st : AppState)
  : AppState * list Effect :=
  if confirmed then
    let st1 := setRecordings
                 (List.filter (fun r => negb (strict_eq_str (get r k_id) id))) st in
    let st2 := if option_eqb (selectedId st) id
               then setSelectedId None st1 else st1 in
    (st2, [DeleteAudio id])
  else (st, []).

(** *** [saveEdit] (lines 145-157) *)

Definition renameRecording (editingId editTitle editSubject : jsstring)
           (prev : list JsVal) : list JsVal :=
  List.map (fun rec =>
         if strict_eq_str (get rec k_id) editingId
         then spread_with rec
                [ (k_title, VStr editTitle);
                  (k_subject, js_or (VStr (trim editSubject)) (VStr s_etc)) ]
         else rec) prev.

Definition saveEdit (st : AppState) : AppState * list Effect :=
  match editingId st with
  | None | Some [] => (st, [])
  | Some i =>
      let st1 := setRecordings
                   (renameRecording i (editTitle st) (editSubject st)) st in
      (setEditing None (editTitle st) (editSubject st) st1, [])
  end.

(** *** The main pane and [NoteDetail] (lines 176, 315-344) *)

Definition Handler := AppState -> AppState * list Effect.

(** [NoteDetailProps] (NoteDetail.tsx, lines 7-11) as [App] fills them:
    a prop that the JSX does not pass is [undefined]. *)
Record NoteDetailProps := mkProps {
  recording : JsVal;
  onBack : Handler;
  onRetry : option Handler
}.

Inductive MainPane :=
| RecorderPane
| NoteDetailPane (props : NoteDetailProps)
| EmptyPane.

(** [recordings.find(r => r.id === selectedId)] *)
Definition selectedRecording (st : AppState) : option JsVal :=
  match selectedId st with
  | Some i => List.find (fun r => strict_eq_str (get r k_id) i) (recordings st)
  | None => None
  end.

(** Lines 315-344: [<NoteDetail recording={selectedRecording}
    onBack={() => setSelectedId(null)} />]. *)
Definition renderMain (st : AppState) : MainPane :=
  match view st with
  | recordingView => RecorderPane
  | home =>
      match selectedRecording st with
      | Some rec =>
          NoteDetailPane
            {| recording := rec;
               onBack := fun s => (setSelectedId None s, []);
               onRetry := None |}
      | None => EmptyPane
      end
  end.

(** NoteDetail.tsx, lines 93 and 113: the retry button is rendered when
    the record is not processing and either errored or lacks its data. *)
Definition showsRetryButton (rec : JsVal) : bool :=
  negb (strict_eq_str (get rec k_status) s_processing)
  && (strict_eq_str (get rec k_status) s_error
      || negb (truthy (get rec k_data))).

(** A click on the button of NoteDetail.tsx, line 127
    ([onClick={onRetry}]): React calls the handler when there is one. *)
Definition clickRetry (st : AppState) : AppState * list Effect :=
  match renderMain st with
  | NoteDetailPane props =>
      if showsRetryButton (recording props) then
        match onRetry props with
        | Some handler => handler st
        | None => (st, [])
        end
      else (st, [])
  | _ => (st, [])
  end.

(** A click on a row of the list (lines 243-249). *)
Definition clickRow (rec : JsVal) (st : AppState) : AppState * list Effect :=
  if strict_eq_str (get rec k_status) s_processing then (st, [])
  else if strict_eq_str (get rec k_status) s_completed then
    match get rec k_id with
    | VStr i => (setView home (setSelectedId (Some i) st), [])
    | _ => (st, [])
    end
  else (st, []).

(** The arguments of one capture-complete event. *)
Record Capture := mkCapture {
  c_closureLen : nat;
  c_newId : jsstring;
  c_now : Z;
  c_blob : Blob;
  c_duration : Z
}.

(** Everything that can happen to [App]: the capture session completes,
    an analysis settles, or the user acts. *)
Inductive Action :=
| CaptureComplete (closureLen : nat) (newId : jsstring) (now : Z)
                  (blob : Blob) (duration : Z)
| AnalysisFulfilled (newId : jsstring) (result : NoteData)
| AnalysisRejected (newId : jsstring)
| DeleteRecording (id : jsstring) (confirmed : bool)
| StartEditing (id title subject : jsstring)
| TypeTitle (text : jsstring)
| TypeSubject (text : jsstring)
| CancelEdit
| SaveEdit
| ClickRow (rec : JsVal)
| OpenRecorder
| LeaveRecorder
| Back
| ClickRetry.

Definition dispatch (a : Action) (st : AppState) : AppState * list Effect :=
  match a with
  | CaptureComplete closureLen newId now blob duration =>
      handleRecordingCompleteCallback closureLen newId now blob duration st
  | AnalysisFulfilled newId result => analysisFulfilled newId result st
  | AnalysisRejected newId => analysisRejected newId st
  | DeleteRecording id confirmed => deleteRecording id confirmed st
  | StartEditing id title subject => (setEditing (Some id) title subject st, [])
  | TypeTitle text => (setEditing (editingId st) text (editSubject st) st, [])
  | TypeSubject text => (setEditing (editingId st) (editTitle st) text st, [])
  | CancelEdit => (setEditing None (editTitle st) (editSubject st) st, [])
  | SaveEdit => saveEdit st
  | ClickRow rec => clickRow rec st
  | OpenRecorder => (setView recordingView (setSelectedId None st), [])
  | LeaveRecorder => (setView home st, [])
  | Back => (setSelectedId None st, [])
  | ClickRetry => clickRetry st
  end.

(** The actions that call [setRecordings]. *)
Definition mutates (a : Action) (st : AppState) : bool :=
  match a with
  | CaptureComplete _ _ _ _ _ | AnalysisFulfilled _ _ | AnalysisRejected _ => true
  | DeleteRecording _ confirmed => confirmed
  | SaveEdit =>
      match editingId st with
      | None | Some [] => false
      | Some _ => true
      end
  | _ => false
  end.

Definition captureComplete (c : Capture) : Action :=
  CaptureComplete (c_closureLen c) (c_newId c) (c_now c) (c_blob c) (c_duration c).

(** The record that a capture-complete event inserts. *)
Definition capturedRecording (c : Capture) : JsVal :=
  newRecording (c_closureLen c) (c_newId c) (c_now c) (c_blob c) (c_duration c).

(** Line 98: the hook is given [handleRecordingCompleteCallback] as its
    [onRecordingComplete]. *)
Definition onRecordingComplete (closureLen : nat) (newId : jsstring) (now : Z)
           (completion : Blob * Z) (st : AppState) : AppState * list Effect :=
  handleRecordingCompleteCallback closureLen newId now
    (fst completion) (snd completion) st.

(** No record with the id [newId] carries analysis notes. *)
Definition withoutNotes (newId : jsstring) (recs : list JsVal) : Prop :=
  forall r, In r recs ->
            strict_eq_str (get r k_id) newId = true -> has r k_data = false.

(** No record has the id [newId]. *)
Definition freshId (newId : jsstring) (recs : list JsVal) : Prop :=
  forall r, In r recs -> strict_eq_str (get r k_id) newId = false.

Fixpoint runActions (acts : list Action) (st : AppState)
  : AppState * list Effect :=
  match acts with
  | [] => (st, [])
  | a :: acts' =>
      let (st1, out1) := dispatch a st in
      let (st2, out2) := runActions acts' st1 in
      (st2, out1 ++ out2)
  end.

End App.

(* ================================================================== *)
(** ** Sample inputs

    Concrete records, captures and states for the closed statements of
    the development. *)

Module Samples.
Import Js App.

(** A capture of 125 seconds and the registry entry it inserts. *)
Definition sampleCapture : Capture :=
  mkCapture 0 (str "k3x9q2m1z") 1700000000000
            (mkBlob [26; 69; 223; 163]%N Recorder.audio_webm) 125.

Definition sampleRecording : JsVal := capturedRecording sampleCapture.

Definition laterCapture : Capture :=
  mkCapture 1 (str "p0o9i8u7y") 1700000600000
            (mkBlob [26; 69; 223; 163; 1]%N Recorder.audio_webm) 60.

(** What may happen between the completion of [sampleCapture] and the
    outcome of its analysis: a later capture completes and is analysed,
    and the user renames the first one. *)
Definition interleaving (result : NoteData) : list Action :=
  [ captureComplete laterCapture;
    AnalysisFulfilled (c_newId laterCapture) result;
    StartEditing (c_newId sampleCapture) (str "Linear algebra") (str " Math ");
    SaveEdit ].

(** '...and so on.': its first sentence is empty. *)
Definition ellipsisResult : NoteData :=
  mkNoteData (str "...and so on.") (str "hello") [] [].

(** The summary of the scenario of the specification:
    '이 강의는 선형대수의 기초를 다룹니다. ...' *)
Definition lectureResult : NoteData :=
  mkNoteData
    [51060; 32; 44053; 51032; 45716; 32; 49440; 54805; 45824; 49688; 51032;
     32; 44592; 52488; 47484; 32; 45796; 47353; 45768; 45796; 46; 32; 46;
     46; 46]%N
    (str "hello") [] [].

(** A record written before the subject field existed: it has no
    'subject' and its analysis had completed. *)
Definition oldRecord : JsVal :=
  VObj [ (k_id, VStr (str "k3x9q2m1z"));
         (k_title, VStr (str "Lecture 1"));
         (k_date, VStr (str "2024-03-04T09:00:00.000Z"));
         (k_duration, VNum 125);
         (k_status, VStr s_completed);
         (k_data, NoteData_value (mkNoteData (str "Vectors.") (str "hello") [] [])) ].

(** A record that was being analysed when the page was closed. *)
Definition interruptedRecord : JsVal :=
  VObj [ (k_id, VStr (str "p0o9i8u7y"));
         (k_title, VStr (str "Lecture 2"));
         (k_subject, VStr (str "Algebra"));
         (k_date, VStr (str "2024-03-05T09:00:00.000Z"));
         (k_duration, VNum 60);
         (k_audioBlob, VObj []);
         (k_status, VStr s_processing) ].

(** The record of [sampleCapture] once its analysis has failed, and the
    state of the application at that point. *)
Definition failedRecording : JsVal :=
  spread_with sampleRecording
    [ (k_status, VStr s_error); (k_errorMessage, VStr s_analysisFailed) ].

Definition afterFailure : AppState :=
  fst (runActions [ captureComplete sampleCapture;
                    AnalysisRejected (c_newId sampleCapture) ]
                  (mount true None)).

End Samples.

(* ================================================================== *)
(** ** [utils/audioUtils.ts] *)

Module Utils.
Import Js.

(** [z.toString()] for an integer. *)
Definition int_toString (z : Z) : jsstring :=
  match z with
  | Z0 => str "0"
  | Zpos p => nat_toString (Pos.to_nat p)
  | Zneg p => 45%N :: nat_toString (Pos.to_nat p)
  end.

(** [s.padStart(2, '0')] *)
Definition padStart2 (s : jsstring) : jsstring :=
  repeat 48%N (2 - List.length s) ++ s.

(** [Number.MAX_SAFE_INTEGER]: a double holds every whole number up to
    it in size exactly. *)
Definition MAX_SAFE_INTEGER : Z := 2 ^ 53 - 1.

Definition safeInteger (z : Z) : bool :=
  Z.leb (- MAX_SAFE_INTEGER) z && Z.leb z MAX_SAFE_INTEGER.

(** [formatTime] (lines 18-22) on a whole number of seconds.  The source
    computes on doubles.  On a safe integer, [Math.floor(seconds / 60)]
    is the quotient rounded down (the quotient is below 2^48, where
    doubles are 2^-5 apart, and it stays 1/60 away from the next whole
    number, so the nearest double is on the same side of it),
    [seconds % 60] is the remainder with the sign of [seconds], and
    [toString] prints decimal digits; each is padded to two places,
    around a colon.  [None]: the number is not a safe integer, where
    the embedding does not follow the arithmetic of doubles. *)
Definition formatTime (seconds : Z) : option jsstring :=
  if safeInteger seconds then
    let mins := Z.div seconds 60 in
    let secs := Z.rem seconds 60 in
    Some (padStart2 (int_toString mins) ++ [58%N]
            ++ padStart2 (int_toString secs))
  else None.

(** How a promise settles. *)
Inductive Settled :=
| Resolved (value : JsVal)
| Rejected.

(** [xs[i]] *)
Definition index (xs : list jsstring) (i : nat) : JsVal :=
  match nth_error xs i with
  | Some piece => VStr piece
  | None => VUndef
  end.

(** The [onloadend] handler of [blobToBase64] (lines 4-12);
    [result] is [reader.result]. *)
Definition blobToBase64_onloadend (result : JsVal) : Settled :=
  match result with
  | VStr dataUrl => Resolved (index (split (N.eqb 44) dataUrl) 1)
  | _ => Rejected
  end.

(** The characters of base64 text: letters, digits, '+', '/' and '='. *)
Definition base64_char (c : N) : bool :=
  (N.leb 65 c && N.leb c 90) || (N.leb 97 c && N.leb c 122)
  || (N.leb 48 c && N.leb c 57) || N.eqb c 43 || N.eqb c 47 || N.eqb c 61.

(** The value of a run of decimal digits, for reading back what
    [formatTime] prints; [None] when a code unit is not a digit. *)
Fixpoint digits_value_from (acc : nat) (s : jsstring) : option nat :=
  match s with
  | [] => Some acc
  | c :: s' =>
      if N.leb 48 c && N.leb c 57
      then digits_value_from (10 * acc + N.to_nat (c - 48)) s'
      else None
  end.

Definition digits_value (s : jsstring) : option nat :=
  match s with
  | [] => None
  | _ => digits_value_from 0 s
  end.

End Utils.

(* ================================================================== *)
(** ** [components/NoteDetail.tsx] *)

Module NoteDetailView.
Import Js App.

(** [s.replace(/\s+/g, '_')]: every maximal run of white space becomes
    one underscore.  [inRun] tells that the previous code unit was white
    space. *)
Fixpoint underscore_runs (inRun : bool) (s : jsstring) : jsstring :=
  match s with
  | [] => []
  | c :: s' =>
      if is_space c
      then if inRun then underscore_runs true s'
           else 95%N :: underscore_runs true s'
      else c :: underscore_runs false s'
  end.

Definition replace_spaces (s : jsstring) : jsstring := underscore_runs false s.

(** The first, the last code unit of a string is white space. *)
Definition startsWithSpace (s : jsstring) : bool :=
  match s with
  | c :: _ => is_space c
  | [] => false
  end.

Definition endsWithSpace (s : jsstring) : bool := startsWithSpace (rev s).

(** The file names of lines 73 and 85, for a title that is a string. *)
Definition noteFileName (title : jsstring) : jsstring :=
  replace_spaces title ++ str "_notes.md".

Definition audioFileName (title : jsstring) : jsstring :=
  replace_spaces title ++ str ".webm".

(** Where [loadAudio] (lines 18-38) takes the audio from. *)
Inductive AudioSource :=
| InMemory (audioBlob : JsVal)
| FromStore (id : JsVal).

Definition loadAudio (recording : JsVal) : AudioSource :=
  if truthy (get recording k_audioBlob)
  then InMemory (get recording k_audioBlob)
  else FromStore (get recording k_id).

(** What [renderContent] (lines 92-204) shows. *)
Inductive Content :=
| Analysing
| RetryPanel
| Notes (data : JsVal).

Definition renderContent (recording : JsVal) : Content :=
  if strict_eq_str (get recording k_status) s_processing then Analysing
  else if strict_eq_str (get recording k_status) s_error
          || negb (truthy (get recording k_data))
       then RetryPanel
       else Notes (get recording k_data).

(** The two texts of a key term card (lines 160-165):
    [term.split(':')[0]] and [term.split(':')[1] || term]. *)
Definition termLabel (term : jsstring) : JsVal :=
  Utils.index (split (N.eqb 58) term) 0.

Definition termBody (term : jsstring) : JsVal :=
  js_or (Utils.index (split (N.eqb 58) term) 1) (VStr term).

(** [xs.join(sep)] *)
Fixpoint join (sep : jsstring) (xs : list jsstring) : jsstring :=
  match xs with
  | [] => []
  | [x] => x
  | x :: rest => x ++ sep ++ join sep rest
  end.

(** The key term and exam question blocks of the exported note
    (lines 60 and 63): [keyTerms.map(term => `- ${term}`).join('\n')] and
    [examQuestions.map((q, i) => `${i + 1}. ${q}`).join('\n')]. *)
Definition keyTermLines (keyTerms : list jsstring) : list jsstring :=
  List.map (fun term => str "- " ++ term) keyTerms.

Fixpoint questionLines_from (i : nat) (qs : list jsstring) : list jsstring :=
  match qs with
  | [] => []
  | q :: qs' =>
      (nat_toString (i + 1) ++ str ". " ++ q) :: questionLines_from (S i) qs'
  end.

Definition keyTermBlock (keyTerms : list jsstring) : jsstring :=
  join [10%N] (keyTermLines keyTerms).

Definition questionBlock (examQuestions : list jsstring) : jsstring :=
  join [10%N] (questionLines_from 0 examQuestions).

End NoteDetailView.

(* ================================================================== *)
(** ** Statements about the session and the registry

    The predicates and event lists that the properties below are stated
    with. *)

Module Shapes.
Import Js App.

(** A record of the registry as every path of [App] builds it: a plain
    object filed under a subject that is not falsy. *)
Definition filed (rec : JsVal) : Prop :=
  is_object rec = true /\ truthy (get rec k_subject) = true.

(** The status is one of the three that the lifecycle uses. *)
Definition lifecycleStatus (rec : JsVal) : Prop :=
  get rec k_status = VStr s_processing \/
  get rec k_status = VStr s_completed \/
  get rec k_status = VStr s_error.

(** A completed record has its notes and an errored one its message. *)
Definition outcomeAttached (rec : JsVal) : Prop :=
  (get rec k_status = VStr s_completed -> truthy (get rec k_data) = true) /\
  (get rec k_status = VStr s_error ->
   truthy (get rec k_errorMessage) = true).

(** A string that neither starts nor ends with white space. *)
Definition trimmedEnds (s : jsstring) : Prop :=
  match s with
  | c :: _ => is_space c = false
  | [] => True
  end /\
  match rev s with
  | c :: _ => is_space c = false
  | [] => True
  end.

(** The number of records with the id [id]. *)
Definition countId (id : jsstring) (recs : list JsVal) : nat :=
  List.length (List.filter (fun r => strict_eq_str (get r k_id) id) recs).

(** A parsed snapshot that the initializer cannot map: anything but an
    array, or an array with a [null] among its items, or with an item
    whose date cannot be converted. *)
Definition unusable (v : JsVal) : Prop :=
  match v with
  | VArr items =>
      In VNull items \/
      exists item, In item items /\ unprintable (get item k_date) = true
  | _ => True
  end.

(** The ids of the registry, in order. *)
Definition ids (recs : list JsVal) : list JsVal :=
  List.map (fun rec => get rec k_id) recs.

(** The state after [Samples.sampleCapture] has completed and its
    analysis has returned the lecture summary, and the record it left. *)
Definition afterSuccess : AppState :=
  fst (runActions [ captureComplete Samples.sampleCapture;
                    AnalysisFulfilled (c_newId Samples.sampleCapture)
                                      Samples.lectureResult ]
                  (mount true None)).

Definition completedRecording : JsVal :=
  spread_with Samples.sampleRecording
    [ (k_status, VStr s_completed);
      (k_data, NoteData_value Samples.lectureResult);
      (k_title, extractTitle (summary Samples.lectureResult)) ].

End Shapes.

(* ================================================================== *)
(** ** Folders: [groupedRecordings] and [sortedSubjects] (App.tsx) *)

Module Folders.
Import Js App.

(** The names that every plain object inherits from [Object.prototype]:
    reading one of them from [{}] yields a function (the prototype itself
    for [__proto__]), which is truthy and has no [push]. *)
Definition inheritedNames : list jsstring :=
  [ str "constructor"; str "hasOwnProperty"; str "isPrototypeOf";
    str "propertyIsEnumerable"; str "toLocaleString"; str "toString";
    str "valueOf"; str "__proto__"; str "__defineGetter__";
    str "__defineSetter__"; str "__lookupGetter__"; str "__lookupSetter__" ].

Definition inherited (k : jsstring) : bool :=
  existsb (jsstring_eqb k) inheritedNames.

(** The groups, as the own properties of the object [groups]. *)
Definition Groups := list (jsstring * list JsVal).

Fixpoint lookup (k : jsstring) (g : Groups) : option (list JsVal) :=
  match g with
  | [] => None
  | (k', recs) :: g' => if jsstring_eqb k' k then Some recs else lookup k g'
  end.

(** [if (!groups[subj]) groups[subj] = []; groups[subj].push(rec)] for a
    key that is not inherited. *)
Fixpoint push (k : jsstring) (rec : JsVal) (g : Groups) : Groups :=
  match g with
  | [] => [(k, [rec])]
  | (k', recs) :: g' =>
      if jsstring_eqb k' k then (k', recs ++ [rec]) :: g'
      else (k', recs) :: push k rec g'
  end.

(** The array under a key ([[]] when there is none), and the number of
    records in all groups. *)
Definition members (k : jsstring) (g : Groups) : list JsVal :=
  match lookup k g with
  | Some recs => recs
  | None => []
  end.

Definition size (g : Groups) : nat :=
  list_sum (List.map (fun entry => List.length (snd entry)) g).

(** The order of [<] on strings: code unit by code unit. *)
Fixpoint jsstring_leb (a b : jsstring) : bool :=
  match a, b with
  | [], _ => true
  | _ :: _, [] => false
  | x :: a', y :: b' =>
      if N.ltb x y then true
      else if N.eqb x y then jsstring_leb a' b' else false
  end.

(** [keys.sort()]: the sorted arrangement of the keys.  The keys of an
    object are pairwise distinct, so every sorting procedure gives this
    one; it is computed here by insertion. *)
Fixpoint insert_sorted (k : jsstring) (sorted : list jsstring) : list jsstring :=
  match sorted with
  | [] => [k]
  | k' :: rest =>
      if jsstring_leb k k' then k :: sorted else k' :: insert_sorted k rest
  end.

Definition sort (keys : list jsstring) : list jsstring :=
  fold_right insert_sorted [] keys.

Section Grouping.

(** The text of a [Date] ([Date.prototype.toString], which depends on
    the time zone of the platform). *)
Variable Date_toString : JsVal -> jsstring.

(** ToString, which turns a subject into a property key; [None] is a
    [TypeError].  An element of an array that is [null] or [undefined]
    prints as the empty string.  A plain object prints through the
    inherited [toString]; an own property of that name shadows it, and
    as no value here is callable, the conversion then throws. *)
Fixpoint ToString (v : JsVal) : option jsstring :=
  match v with
  | VUndef => Some (str "undefined")
  | VNull => Some (str "null")
  | VBool true => Some (str "true")
  | VBool false => Some (str "false")
  | VNum n => Some (Utils.int_toString n)
  | VStr s => Some s
  | VArr xs =>
      (fix elements (l : list JsVal) : option jsstring :=
         match l with
         | [] => Some []
         | x :: l' =>
             match match x with
                   | VUndef | VNull => Some []
                   | _ => ToString x
                   end, elements l' with
             | Some text, Some rest =>
                 Some (text ++ match l' with
                               | [] => []
                               | _ => 44%N :: rest
                               end)
             | _, _ => None
             end
         end) xs
  | VObj fs =>
      match assoc (str "toString") fs with
      | Some _ => None
      | None => Some (str "[object Object]")
      end
  | VDate arg => Some (Date_toString arg)
  | VBlob _ => Some (str "[object Blob]")
  end.

(** [rec.subject || '기타'] as a property key (line 181). *)
Definition folderOf (rec : JsVal) : option jsstring :=
  ToString (js_or (get rec k_subject) (VStr s_etc)).

(** [rec] is filed under [k]. *)
Definition filedUnder (k : jsstring) (rec : JsVal) : bool :=
  match folderOf rec with
  | Some k' => jsstring_eqb k' k
  | None => false
  end.

(** [groupedRecordings] (lines 178-186); [None] is a [TypeError]: of
    the conversion of the subject to a key, or of calling [push] on an
    inherited property. *)
Fixpoint groupInto (g : Groups) (recs : list JsVal) : option Groups :=
  match recs with
  | [] => Some g
  | rec :: recs' =>
      match folderOf rec with
      | None => None
      | Some subj =>
          if inherited subj then None
          else groupInto (push subj rec g) recs'
      end
  end.

Definition groupedRecordings (recordings : list JsVal) : option Groups :=
  groupInto [] recordings.

(** [sortedSubjects] (line 188): [Object.keys(groupedRecordings).sort()]. *)
Definition sortedSubjects (g : Groups) : list jsstring :=
  sort (List.map fst g).

End Grouping.

(** A registry of two records in two folders: two captures, the first
    renamed into the folder 'Math'; and its groups on a platform whose
    dates print as the empty text. *)
Definition twoFolders : list JsVal :=
  recordings
    (fst (runActions
            (captureComplete Samples.sampleCapture
               :: Samples.interleaving Samples.lectureResult)
            (mount true None))).

Definition twoFoldersGroups : Groups :=
  Eval vm_compute in
    match groupedRecordings (fun _ => []) twoFolders with
    | Some groups => groups
    | None => []
    end.

(** The state in which the user, editing the record of a completed
    capture, has typed ' constructor ' as its folder. *)
Definition editingToConstructor : AppState :=
  fst (runActions
         [ captureComplete Samples.sampleCapture;
           StartEditing (c_newId Samples.sampleCapture)
                        (str "Lecture") (str " constructor ") ]
         (mount true None)).

End Folders.

(** ** [src/App.tsx]: which folders are open ([expandedFolders])

    [expandedFolders] is a [Set].  It is only ever asked for strings (a
    header of [sortedSubjects], or [editSubject]), so it is modelled by
    its string members, in insertion order. *)

Module Expansion.
Import Js App Folders.

Definition Expanded := list jsstring.

Definition Set_has (subject : jsstring) (e : Expanded) : bool :=
  existsb (jsstring_eqb subject) e.

Definition Set_add (subject : jsstring) (e : Expanded) : Expanded :=
  if Set_has subject e then e else e ++ [subject].

Definition Set_delete (subject : jsstring) (e : Expanded) : Expanded :=
  List.filter (fun k => negb (jsstring_eqb k subject)) e.

(** [useState(new Set(['기타']))] (line 46). *)
Definition initialExpanded : Expanded := [s_etc].

(** The effect of the first render (lines 108-112):
    [setExpandedFolders(new Set(recordings.map(r => r.subject)))]. *)
Definition subjectsOf (recs : list JsVal) : Expanded :=
  fold_left (fun e r => match get r k_subject with
                        | VStr subject => Set_add subject e
                        | _ => e
                        end) recs [].

(** The end of [saveEdit] (lines 146, 154-156). *)
Definition saveEdit_expanded (st : AppState) (e : Expanded) : Expanded :=
  match editingId st with
  | None | Some [] => e
  | Some _ =>
      if truthy (VStr (editSubject st)) && negb (Set_has (editSubject st) e)
      then Set_add (editSubject st) e
      else e
  end.

(** [toggleFolder] (lines 159-166). *)
Definition toggleFolder (subject : jsstring) (e : Expanded) : Expanded :=
  if Set_has subject e then Set_delete subject e else Set_add subject e.

(** The state of [App] with the open folders. *)
Record Screen := mkScreen {
  app : AppState;
  expandedFolders : Expanded
}.

(** The screen once the effects of the first render have run: the
    initial value of line 46 has been replaced. *)
Definition mountScreen (hasWindow : bool) (savedData : option StoredText)
  : Screen :=
  let st := mount hasWindow savedData in
  {| app := st; expandedFolders := subjectsOf (recordings st) |}.

Inductive ScreenAction :=
| AppAction (a : Action)
| ToggleFolder (subject : jsstring).

Definition screenStep (a : ScreenAction) (s : Screen) : Screen :=
  match a with
  | AppAction SaveEdit =>
      {| app := fst (dispatch SaveEdit (app s));
         expandedFolders := saveEdit_expanded (app s) (expandedFolders s) |}
  | AppAction a' =>
      {| app := fst (dispatch a' (app s));
         expandedFolders := expandedFolders s |}
  | ToggleFolder subject =>
      {| app := app s;
         expandedFolders := toggleFolder subject (expandedFolders s) |}
  end.

(** The folder under which [saveEdit] files the record:
    [editSubject.trim() || '기타'] (line 149). *)
Definition destination (st : AppState) : jsstring :=
  match trim (editSubject st) with
  | [] => s_etc
  | subject => subject
  end.

(** The screen on which the user, editing the record of a completed
    capture, has typed ' Math ' as its folder. *)
Definition editingToMath : Screen :=
  fold_left (fun s a => screenStep a s)
            [ AppAction (captureComplete Samples.sampleCapture);
              AppAction (StartEditing (c_newId Samples.sampleCapture)
                                      (str "Lecture") (str " Math ")) ]
            (mountScreen true None).

End Expansion.

(** ** [src/App.tsx]: renders, and the effect that writes [localStorage]

    A state update is followed by a render, and the effects of a render
    run only when it commits.  [App] has no error boundary: when a render
    throws, React unmounts the page, no effect runs, and later state
    updates are dropped. *)

Module Rendering.
Import Js App Folders Expansion.

(** What a render depends on that is not unfolded here: the text of a
    [Date], and whether the JSX of one row of the list (lines 239-306)
    and of [NoteDetail] can be built for a record.  [formatDate] throws a
    [RangeError] on an invalid [Date], and an object is not a valid React
    child, so a stored record can make them throw.  The other JSX of
    [App] and of [Recorder] shows texts and numbers of the state only. *)
Record Jsx := mkJsx {
  Date_toString : JsVal -> jsstring;
  rowRenders : JsVal -> bool;
  detailRenders : JsVal -> bool
}.

(** The item 'profnote-recordings' of [localStorage]: as the page found
    it, or as the last [setItem] left it. *)
Inductive Storage :=
| AsFound (savedData : option StoredText)
| Written (snapshot : option Json).

(** The page: the state on screen, whether [App] is still mounted, and
    the stored item.  Once [mounted] is [false], [screen] is the state
    whose render threw. *)
Record Page := mkPage {
  screen : Screen;
  mounted : bool;
  storage : Storage
}.

Section Renders.
Variable J : Jsx.

(** The main pane (lines 315-344). *)
Definition paneRenders (st : AppState) : bool :=
  match renderMain st with
  | RecorderPane | EmptyPane => true
  | NoteDetailPane props => detailRenders J (recording props)
  end.

(** One execution of the body of [App]: [groupedRecordings] (lines
    178-186), then the list (lines 224-310), where the rows of a folder
    are built when the folder is open, then the main pane.  [false]: the
    render throws. *)
Definition renders (s : Screen) : bool :=
  match groupedRecordings (Date_toString J) (recordings (app s)) with
  | None => false
  | Some groups =>
      forallb (fun subject =>
                 if Set_has subject (expandedFolders s)
                 then forallb (rowRenders J) (members subject groups)
                 else true)
              (sortedSubjects groups)
      && paneRenders (app s)
  end.

(** The effect of lines 114-116, which depends on [recordings]:
    [localStorage.setItem('profnote-recordings', JSON.stringify(recordings))]. *)
Definition persist (st : AppState) : Storage :=
  Written (JSON_stringify (VArr (recordings st))).

(** The action calls [setRecordings]. *)
Definition callsSetRecordings (a : ScreenAction) (s : Screen) : bool :=
  match a with
  | AppAction a' => mutates a' (app s)
  | ToggleFolder _ => false
  end.

(** The first render shows the initial values (the open folders of line
    46); when it commits, both effects of the first render run (lines
    108-116), and the page renders again with the folders that the first
    effect has opened. *)
Definition firstScreen (savedData : option StoredText) : Screen :=
  {| app := mount true savedData; expandedFolders := initialExpanded |}.

Definition openPage (savedData : option StoredText) : Page :=
  if renders (firstScreen savedData) then
    {| screen := mountScreen true savedData;
       mounted := renders (mountScreen true savedData);
       storage := persist (mount true savedData) |}
  else
    {| screen := firstScreen savedData;
       mounted := false;
       storage := AsFound savedData |}.

(** An action on the page: the state updates of the handler, the render,
    and when it commits the effect of lines 114-116 if [recordings] has
    been set. *)
Definition pageStep (a : ScreenAction) (p : Page) : Page :=
  if mounted p then
    let next := screenStep a (screen p) in
    if renders next then
      {| screen := next;
         mounted := true;
         storage := if callsSetRecordings a (screen p)
                    then persist (app next) else storage p |}
    else
      {| screen := next; mounted := false; storage := storage p |}
  else p.

Definition runPage (acts : list ScreenAction) (p : Page) : Page :=
  fold_left (fun q a => pageStep a q) acts p.

End Renders.

(** The stored item is the serialization of the registry on screen, as
    long as the page is mounted. *)
Definition snapshotCurrent (p : Page) : Prop :=
  mounted p = true -> storage p = persist (app (screen p)).

(** A platform on which every row and every pane can be built. *)
Definition plainJsx : Jsx :=
  {| Date_toString := fun _ => [];
     rowRenders := fun _ => true;
     detailRenders := fun _ => true |}.

End Rendering.


(* ================================================================== *)
(** ** Facts about JavaScript values *)

Module JsFacts.
Import Js.

Lemma jsstring_eqb_refl (a : jsstring) : jsstring_eqb a a = true.
Proof.
  induction a as [|x a IH]; simpl; [reflexivity|].
  now rewrite N.eqb_refl, IH.
Qed.

Lemma jsstring_eqb_eq (a b : jsstring) : jsstring_eqb a b = true <-> a = b.
Proof.
  split.
  - revert b; induction a as [|x a IH]; intros [|y b]; simpl; try discriminate.
    + reflexivity.
    + intros H. apply andb_true_iff in H as [Hx Hab].
      apply N.eqb_eq in Hx. apply IH in Hab. congruence.
  - intros ->. apply jsstring_eqb_refl.
Qed.

Lemma jsstring_eqb_neq (a b : jsstring) : jsstring_eqb a b = false <-> a <> b.
Proof.
  rewrite <- jsstring_eqb_eq. destruct (jsstring_eqb a b); split; congruence.
Qed.

Lemma strict_eq_str_true (v : JsVal) (s : jsstring) :
  strict_eq_str v s = true <-> v = VStr s.
Proof.
  destruct v; simpl; try (split; [discriminate | congruence]).
  rewrite jsstring_eqb_eq. split; congruence.
Qed.

(** *** Property lists *)

Lemma assoc_assign_same k v fs : assoc k (assign k v fs) = Some v.
Proof.
  induction fs as [|[k' v'] fs IH]; simpl.
  - now rewrite jsstring_eqb_refl.
  - destruct (jsstring_eqb k' k) eqn:E; simpl.
    + now rewrite jsstring_eqb_refl.
    + now rewrite E.
Qed.

Lemma assoc_assign_other k k' v fs :
  k <> k' -> assoc k' (assign k v fs) = assoc k' fs.
Proof.
  intros Hne. induction fs as [|[k0 v0] fs IH]; simpl.
  - apply jsstring_eqb_neq in Hne. now rewrite Hne.
  - destruct (jsstring_eqb k0 k) eqn:E; simpl.
    + apply jsstring_eqb_eq in E. subst k0.
      apply jsstring_eqb_neq in Hne. now rewrite Hne.
    + destruct (jsstring_eqb k0 k'); [reflexivity | exact IH].
Qed.

(** What a read finds after a run of property definitions: the last
    override of the key, else what was there. *)
Lemma assoc_overrides k ovs : forall fs,
  assoc k (fold_left (fun fs kv => assign (fst kv) (snd kv) fs) ovs fs) =
  match assoc k (rev ovs) with
  | Some v => Some v
  | None => assoc k fs
  end.
Proof.
  induction ovs as [|[k0 v0] ovs IH]; intros fs; simpl.
  - reflexivity.
  - rewrite IH. clear IH.
    assert (Hrev : assoc k (rev ovs ++ [(k0, v0)]) =
                   match assoc k (rev ovs) with
                   | Some v => Some v
                   | None => if jsstring_eqb k0 k then Some v0 else None
                   end).
    { induction (rev ovs) as [|[k1 v1] l IHl]; simpl.
      - reflexivity.
      - destruct (jsstring_eqb k1 k); [reflexivity | exact IHl]. }
    rewrite Hrev.
    destruct (assoc k (rev ovs)); [reflexivity|].
    destruct (jsstring_eqb k0 k) eqn:E.
    + apply jsstring_eqb_eq in E. subst. apply assoc_assign_same.
    + apply jsstring_eqb_neq in E. now apply assoc_assign_other.
Qed.

Lemma get_spread_with v ovs k :
  get (spread_with v ovs) k =
  match assoc k (rev ovs) with
  | Some x => x
  | None => match assoc k (own_enumerable v) with
            | Some x => x
            | None => VUndef
            end
  end.
Proof.
  unfold spread_with, get. rewrite assoc_overrides.
  destruct (assoc k (rev ovs)); reflexivity.
Qed.

Lemma has_spread_with v ovs k :
  has (spread_with v ovs) k =
  match assoc k (rev ovs) with
  | Some _ => true
  | None => match assoc k (own_enumerable v) with
            | Some _ => true
            | None => false
            end
  end.
Proof.
  unfold spread_with, has. rewrite assoc_overrides.
  destruct (assoc k (rev ovs)); reflexivity.
Qed.

(** A spread always builds a plain object. *)
Lemma spread_with_is_object v ovs : exists fs, spread_with v ovs = VObj fs.
Proof. unfold spread_with. eauto. Qed.

(** *** Induction over values, through arrays and objects *)

Section JsVal_induction.
Variable P : JsVal -> Prop.
Hypothesis Hundef : P VUndef.
Hypothesis Hnull : P VNull.
Hypothesis Hbool : forall b, P (VBool b).
Hypothesis Hnum : forall n, P (VNum n).
Hypothesis Hstr : forall s, P (VStr s).
Hypothesis Harr : forall xs, Forall P xs -> P (VArr xs).
Hypothesis Hobj : forall fs, Forall (fun kv => P (snd kv)) fs -> P (VObj fs).
Hypothesis Hdate : forall arg, P arg -> P (VDate arg).
Hypothesis Hblob : forall b, P (VBlob b).

Fixpoint JsVal_nested_ind (v : JsVal) : P v :=
  match v with
  | VUndef => Hundef
  | VNull => Hnull
  | VBool b => Hbool b
  | VNum n => Hnum n
  | VStr s => Hstr s
  | VArr xs =>
      Harr xs ((fix all (l : list JsVal) : Forall P l :=
               match l with
               | [] => Forall_nil P
               | x :: l' => Forall_cons x (JsVal_nested_ind x) (all l')
               end) xs)
  | VObj fs =>
      Hobj fs ((fix all (l : list (jsstring * JsVal))
               : Forall (fun kv => P (snd kv)) l :=
               match l with
               | [] => Forall_nil _
               | kv :: l' =>
                   Forall_cons kv (JsVal_nested_ind (snd kv)) (all l')
               end) fs)
  | VDate arg => Hdate arg (JsVal_nested_ind arg)
  | VBlob b => Hblob b
  end.
End JsVal_induction.

(** Serialization does not look inside a [Blob]. *)
Lemma JSON_stringify_erase_blobs (v : JsVal) :
  JSON_stringify (erase_blobs v) = JSON_stringify v.
Proof.
  induction v using JsVal_nested_ind; try reflexivity.
  - simpl. do 2 f_equal.
    induction H as [|x xs Hx _ IH]; simpl; [reflexivity|].
    now rewrite Hx, IH.
  - simpl. do 2 f_equal.
    induction H as [|[k x] fs Hx _ IH]; simpl; [reflexivity|].
    simpl in Hx. rewrite Hx, IH. reflexivity.
Qed.

(** A member whose value serializes is found under its key. *)
Lemma json_member_stringify fs k v j :
  assoc k fs = Some v ->
  JSON_stringify v = Some j ->
  exists ms, JSON_stringify (VObj fs) = Some (JObj ms)
             /\ json_assoc k ms = Some j.
Proof.
  intros Ha Hj. simpl. eexists. split; [reflexivity|].
  induction fs as [|[k' x] fs IH]; simpl in *; [discriminate|].
  destruct (jsstring_eqb k' k) eqn:E.
  - injection Ha as ->. rewrite Hj. simpl. now rewrite E.
  - destruct (JSON_stringify x); simpl; [rewrite E|]; now apply IH.
Qed.

End JsFacts.


(* ================================================================== *)
(** ** The capture session: what [stopRecording] reports *)

Module RecorderFacts.
Import Js.

(** While the interval is scheduled, [n] ticks add [n] to the counter and
    touch nothing else. *)
Lemma run_ticks (n : nat) : forall h,
  Recorder.timerRef h = true ->
  Recorder.run (repeat Recorder.Tick n) h =
  ({| Recorder.isRecording := Recorder.isRecording h;
      Recorder.duration := Recorder.duration h + Z.of_nat n;
      Recorder.permissionError := Recorder.permissionError h;
      Recorder.mediaRecorderRef := Recorder.mediaRecorderRef h;
      Recorder.audioContextRef := Recorder.audioContextRef h;
      Recorder.analyserRef := Recorder.analyserRef h;
      Recorder.sourceRef := Recorder.sourceRef h;
      Recorder.streamRef := Recorder.streamRef h;
      Recorder.chunksRef := Recorder.chunksRef h;
      Recorder.timerRef := true |}, []).
Proof.
  induction n as [|n IH]; intros h Ht.
  - simpl. rewrite Z.add_0_r. destruct h; simpl in *; subst; reflexivity.
  - cbn [repeat Recorder.run Recorder.step]. unfold Recorder.tick at 1.
    rewrite Ht. rewrite IH by reflexivity. cbn.
    do 2 f_equal. lia.
Qed.

Lemma run_app (es1 es2 : list Recorder.Event) : forall h,
  Recorder.run (es1 ++ es2) h =
  let (h1, out1) := Recorder.run es1 h in
  let (h2, out2) := Recorder.run es2 h1 in
  (h2, out1 ++ out2).
Proof.
  induction es1 as [|e es1 IH]; intros h; simpl.
  - destruct (Recorder.run es2 h). reflexivity.
  - destruct (Recorder.step e h) as [h1 o1]. rewrite IH.
    destruct (Recorder.run es1 h1) as [h2 o2].
    destruct (Recorder.run es2 h2) as [h3 o3].
    now rewrite app_assoc.
Qed.

(** A whole session, started from the render that shows [h0]: whatever
    number of seconds the timer counts, the completion carries the
    [duration] of [h0], the value the [onstop] closure was created with. *)
Lemma session_reports_duration_of_start_render (h0 : Recorder.Hook) (n : nat) :
  let session :=
    Recorder.StartRecording true :: repeat Recorder.Tick n ++ [Recorder.StopRecording] in
  Recorder.duration (fst (Recorder.run session h0)) = Z.of_nat n /\
  snd (Recorder.run session h0) =
    [(Recorder.Blob_of [] Recorder.audio_webm, Recorder.duration h0)].
Proof.
  cbn zeta. cbn [Recorder.run Recorder.step].
  rewrite run_app, run_ticks by reflexivity.
  cbn. split; [lia | reflexivity].
Qed.

(** Two sessions in a row, of 125 and of 10 seconds: the first completion
    carries 0 and the second carries 125, the count of the first. *)
Example second_session_reports_the_first :
  snd (Recorder.run
         (Recorder.StartRecording true
            :: repeat Recorder.Tick 125 ++ [Recorder.StopRecording]
            ++ Recorder.StartRecording true
            :: repeat Recorder.Tick 10 ++ [Recorder.StopRecording])
         Recorder.initial)
  = [ (Recorder.Blob_of [] Recorder.audio_webm, 0%Z);
      (Recorder.Blob_of [] Recorder.audio_webm, 125%Z) ].
Proof. vm_compute. reflexivity. Qed.

(** A refused microphone leaves the session idle, and stopping an idle
    session emits nothing. *)
Example refused_start_stays_idle :
  Recorder.run [Recorder.StartRecording false; Recorder.Tick;
                Recorder.StopRecording] Recorder.initial
  = ({| Recorder.isRecording := false;
        Recorder.duration := 0;
        Recorder.permissionError := Some Recorder.permissionMessage;
        Recorder.mediaRecorderRef := None;
        Recorder.audioContextRef := false;
        Recorder.analyserRef := false;
        Recorder.sourceRef := false;
        Recorder.streamRef := false;
        Recorder.chunksRef := [];
        Recorder.timerRef := false |}, []).
Proof. reflexivity. Qed.

End RecorderFacts.


(* ================================================================== *)
(** ** The registry: updates by id *)

Module AppFacts.
Import Js JsFacts App.

(** Only plain objects have an [id] that equals a string. *)
Lemma matching_is_object (rec : JsVal) (k s : jsstring) :
  strict_eq_str (get rec k) s = true -> exists fs, rec = VObj fs.
Proof.
  destruct rec; simpl; try discriminate. eauto.
Qed.

Lemma get_spread_object fs ovs k :
  get (spread_with (VObj fs) ovs) k =
  match assoc k (rev ovs) with
  | Some x => x
  | None => get (VObj fs) k
  end.
Proof. rewrite get_spread_with. reflexivity. Qed.

Lemma has_spread_object fs ovs k :
  has (spread_with (VObj fs) ovs) k =
  match assoc k (rev ovs) with
  | Some _ => true
  | None => has (VObj fs) k
  end.
Proof. rewrite has_spread_with. reflexivity. Qed.

(** Keys as hypotheses: [k <> k0] decides the comparison. *)
Lemma eqb_of_neq (k0 k : jsstring) : k <> k0 -> jsstring_eqb k0 k = false.
Proof. intros H. apply jsstring_eqb_neq. congruence. Qed.

Ltac key_cases :=
  repeat match goal with
         | H : ?k <> ?k0 |- context [jsstring_eqb ?k0 ?k] =>
             rewrite (eqb_of_neq k0 k H)
         end.

(** *** [extractTitle] against the first sentence *)

Lemma split_first (s : jsstring) :
  exists rest, split sentence_end s = firstSentence s :: rest.
Proof.
  induction s as [|c s [rest IH]]; simpl.
  - eauto.
  - destruct (sentence_end c); [eauto|]. rewrite IH. eauto.
Qed.

Lemma extractTitle_firstSentence (s : jsstring) :
  extractTitle s =
  if Nat.ltb (List.length (firstSentence s)) 30
  then VStr (firstSentence s) else VNull.
Proof.
  unfold extractTitle. destruct (split_first s) as [rest ->]. reflexivity.
Qed.

Lemma firstSentence_empty (s : jsstring) :
  firstSentence s = [] <->
  s = [] \/ exists c rest, s = c :: rest /\ sentence_end c = true.
Proof.
  destruct s as [|c rest]; simpl.
  - split; [now left | reflexivity].
  - destruct (sentence_end c) eqn:E; split.
    + intros _. right. eauto.
    + reflexivity.
    + discriminate.
    + intros [H | (c' & rest' & H & Hc)]; [discriminate|].
      injection H as -> ->. congruence.
Qed.

(** The title that the success update writes. *)
Lemma autoTitle (s : jsstring) (old : JsVal) :
  js_or (extractTitle s) old =
  match firstSentence s with
  | [] => old
  | _ :: _ =>
      if Nat.ltb (List.length (firstSentence s)) 30
      then VStr (firstSentence s) else old
  end.
Proof.
  rewrite extractTitle_firstSentence. unfold js_or.
  destruct (firstSentence s) as [|c t] eqn:E; [reflexivity|].
  destruct (Nat.ltb (List.length (c :: t)) 30); reflexivity.
Qed.

(** *** The three updaters, record by record *)

Lemma map_Forall2 {A B} (f : A -> B) (R : A -> B -> Prop) (l : list A) :
  (forall x, In x l -> R x (f x)) -> Forall2 R l (List.map f l).
Proof.
  induction l as [|x l IH]; intros H; simpl; constructor.
  - apply H. now left.
  - apply IH. intros y Hy. apply H. now right.
Qed.

Lemma completeRecording_fields newId result fs :
  let rec' := spread_with (VObj fs)
                [ (k_status, VStr s_completed);
                  (k_data, NoteData_value result);
                  (k_title, js_or (extractTitle (summary result))
                                  (get (VObj fs) k_title)) ] in
  strict_eq_str (get (VObj fs) k_id) newId = true ->
  get rec' k_status = VStr s_completed /\
  get rec' k_data = NoteData_value result /\
  get rec' k_title = js_or (extractTitle (summary result)) (get (VObj fs) k_title) /\
  (forall k, k <> k_status -> k <> k_data -> k <> k_title ->
             get rec' k = get (VObj fs) k /\ has rec' k = has (VObj fs) k).
Proof.
  intros rec' _. subst rec'.
  split; [now rewrite get_spread_object|].
  split; [now rewrite get_spread_object|].
  split; [now rewrite get_spread_object|].
  intros k H1 H2 H3. split.
  - rewrite get_spread_object. cbn [rev app assoc fst snd]. key_cases. reflexivity.
  - rewrite has_spread_object. cbn [rev app assoc fst snd]. key_cases. reflexivity.
Qed.

Lemma failRecording_fields fs :
  let rec' := spread_with (VObj fs)
                [ (k_status, VStr s_error);
                  (k_errorMessage, VStr s_analysisFailed) ] in
  get rec' k_status = VStr s_error /\
  get rec' k_errorMessage = VStr s_analysisFailed /\
  (forall k, k <> k_status -> k <> k_errorMessage ->
             get rec' k = get (VObj fs) k /\ has rec' k = has (VObj fs) k).
Proof.
  intros rec'. subst rec'.
  split; [now rewrite get_spread_object|].
  split; [now rewrite get_spread_object|].
  intros k H1 H2. split.
  - rewrite get_spread_object. cbn [rev app assoc fst snd]. key_cases. reflexivity.
  - rewrite has_spread_object. cbn [rev app assoc fst snd]. key_cases. reflexivity.
Qed.

Lemma renameRecording_fields t s fs :
  let rec' := spread_with (VObj fs)
                [ (k_title, VStr t);
                  (k_subject, js_or (VStr (trim s)) (VStr s_etc)) ] in
  forall k, k <> k_title -> k <> k_subject ->
            get rec' k = get (VObj fs) k /\ has rec' k = has (VObj fs) k.
Proof.
  intros rec' k H1 H2. subst rec'. split.
  - rewrite get_spread_object. cbn [rev app assoc fst snd]. key_cases. reflexivity.
  - rewrite has_spread_object. cbn [rev app assoc fst snd]. key_cases. reflexivity.
Qed.

(** The callback on a plain object, field by field: it returns exactly
    when the stored date can be converted. *)
Lemma rehydrate_item_fields (fs : list (jsstring * JsVal)) (rec : JsVal) :
  rehydrate_item (VObj fs) = Some rec ->
  unprintable (get (VObj fs) k_date) = false /\
  is_object rec = true /\
  get rec k_status =
    (if strict_eq_str (get (VObj fs) k_status) s_processing
     then VStr s_error else get (VObj fs) k_status) /\
  get rec k_errorMessage =
    (if strict_eq_str (get (VObj fs) k_status) s_processing
     then VStr s_interrupted else get (VObj fs) k_errorMessage) /\
  get rec k_subject = js_or (get (VObj fs) k_subject) (VStr s_etc) /\
  get rec k_date = VDate (get (VObj fs) k_date) /\
  (forall k, k <> k_subject -> k <> k_date -> k <> k_status ->
             k <> k_errorMessage -> get rec k = get (VObj fs) k).
Proof.
  unfold rehydrate_item.
  destruct (unprintable (get (VObj fs) k_date)); [discriminate|].
  intros H. injection H as <-.
  split; [reflexivity|]. split; [reflexivity|].
  repeat (split; [now rewrite get_spread_object|]).
  intros k H1 H2 H3 H4. rewrite get_spread_object.
  cbn [rev app assoc fst snd]. key_cases. reflexivity.
Qed.

Lemma rehydrate_item_returns (fs : list (jsstring * JsVal)) :
  unprintable (get (VObj fs) k_date) = false ->
  exists rec, rehydrate_item (VObj fs) = Some rec.
Proof.
  intros H. unfold rehydrate_item. rewrite H. eexists. reflexivity.
Qed.

Lemma rehydrate_item_throws (item : JsVal) :
  unprintable (get item k_date) = true -> rehydrate_item item = None.
Proof.
  intros H. unfold rehydrate_item. rewrite H. destruct item; reflexivity.
Qed.

(** One throw of the callback ends the whole [map]. *)
Lemma map_or_throw_throws f (xs : list JsVal) (x : JsVal) :
  In x xs -> f x = None -> map_or_throw f xs = None.
Proof.
  induction xs as [|y xs IH]; intros Hin Hx; [destruct Hin|].
  cbn [map_or_throw]. destruct Hin as [-> | Hin].
  - now rewrite Hx.
  - destruct (f y); [|reflexivity]. now rewrite (IH Hin Hx).
Qed.

End AppFacts.


(* ================================================================== *)
(** ** Capture completion *)

Module CaptureComplete.
Import Js JsFacts App AppFacts.

Lemma runActions_app (a1 a2 : list Action) : forall st,
  runActions (a1 ++ a2) st =
  let (st1, out1) := runActions a1 st in
  let (st2, out2) := runActions a2 st1 in
  (st2, out1 ++ out2).
Proof.
  induction a1 as [|a a1 IH]; intros st; simpl.
  - destruct (runActions a2 st). reflexivity.
  - destruct (dispatch a st) as [s1 o1]. rewrite IH.
    destruct (runActions a1 s1) as [s2 o2].
    destruct (runActions a2 s2) as [s3 o3].
    now rewrite app_assoc.
Qed.

Lemma captures_accumulate (caps : list Capture) : forall st,
  recordings (fst (runActions (List.map captureComplete caps) st)) =
  rev (List.map capturedRecording caps) ++ recordings st.
Proof.
  induction caps as [|c caps IH]; intros st.
  - reflexivity.
  - cbn [List.map runActions].
    destruct (dispatch (captureComplete c) st) as [st1 o1] eqn:E1.
    specialize (IH st1).
    destruct (runActions (List.map captureComplete caps) st1) as [st2 o2].
    cbn [fst] in *. rewrite IH.
    assert (Hst1 : recordings st1 = capturedRecording c :: recordings st).
    { unfold captureComplete in E1. cbn in E1. injection E1 as <- _. reflexivity. }
    rewrite Hst1. cbn [rev]. rewrite <- app_assoc. reflexivity.
Qed.

(** C8. Every capture-complete event puts one new record at the head of
    the registry and keeps the others in place: the record has status
    'processing' and carries the in-memory audio artifact (and the id and
    the duration it was given); over any sequence of such events the
    registry grows by one record per event, most recent first. *)
Theorem capture_complete_inserts_at_head :
  forall (st : AppState) (caps : list Capture),
    (forall c : Capture,
        let st' := fst (dispatch (captureComplete c) st) in
        recordings st' = capturedRecording c :: recordings st /\
        List.length (recordings st') = S (List.length (recordings st)) /\
        get (capturedRecording c) k_status = VStr s_processing /\
        get (capturedRecording c) k_audioBlob = VBlob (c_blob c) /\
        get (capturedRecording c) k_id = VStr (c_newId c) /\
        get (capturedRecording c) k_duration = VNum (c_duration c)) /\
    (let final := fst (runActions (List.map captureComplete caps) st) in
     recordings final = rev (List.map capturedRecording caps) ++ recordings st /\
     List.length (recordings final) =
       (List.length caps + List.length (recordings st))%nat).
Proof.
  intros st caps. split.
  - intros c. cbn. repeat split.
  - cbn zeta. rewrite captures_accumulate. split; [reflexivity|].
    rewrite length_app, length_rev, length_map. reflexivity.
Qed.

(** C1 (the code departs from it). The first capture session after the
    page loads, stopped after the timer has counted 125 seconds: the
    counter reads 125, but the completion callback receives the duration 0,
    and the record created from it stores 0 seconds. *)
Theorem first_capture_of_125_seconds_reports_zero :
  let session :=
    Recorder.StartRecording true
      :: repeat Recorder.Tick 125 ++ [Recorder.StopRecording] in
  let finalState := fst (Recorder.run session Recorder.initial) in
  let completions := snd (Recorder.run session Recorder.initial) in
  Recorder.duration finalState = 125%Z /\
  completions = [(Recorder.Blob_of [] Recorder.audio_webm, 0%Z)] /\
  forall closureLen newId now st completion,
    In completion completions ->
    exists rec,
      recordings (fst (onRecordingComplete closureLen newId now completion st))
        = rec :: recordings st /\
      get rec k_duration = VNum 0.
Proof.
  cbn zeta.
  destruct (RecorderFacts.session_reports_duration_of_start_render
              Recorder.initial 125) as [Hd Hc].
  cbn zeta in Hd, Hc. rewrite Hd, Hc. split; [reflexivity|]. split; [reflexivity|].
  intros closureLen newId now st completion [<- | []].
  eexists. split; reflexivity.
Qed.

End CaptureComplete.


(* ================================================================== *)
(** ** Analysis outcomes *)

Module Analysis.
Import Js JsFacts App AppFacts Samples.

(** The success update, record by record. *)
Lemma completeRecording_pointwise newId result prev :
  Forall2
    (fun rec rec' =>
       (strict_eq_str (get rec k_id) newId = false -> rec' = rec) /\
       (strict_eq_str (get rec k_id) newId = true ->
        get rec' k_status = VStr s_completed /\
        get rec' k_data = NoteData_value result /\
        get rec' k_title =
          js_or (extractTitle (summary result)) (get rec k_title) /\
        (forall k, k <> k_status -> k <> k_data -> k <> k_title ->
                   get rec' k = get rec k /\ has rec' k = has rec k)))
    prev (completeRecording newId result prev).
Proof.
  apply map_Forall2. intros rec _.
  destruct (strict_eq_str (get rec k_id) newId) eqn:E.
  - split; [discriminate|]. intros _.
    destruct (matching_is_object _ _ _ E) as [fs ->].
    now apply completeRecording_fields with (newId := newId).
  - split; [reflexivity | discriminate].
Qed.

(** The failure update, record by record. *)
Lemma failRecording_pointwise newId prev :
  Forall2
    (fun rec rec' =>
       (strict_eq_str (get rec k_id) newId = false -> rec' = rec) /\
       (strict_eq_str (get rec k_id) newId = true ->
        get rec' k_status = VStr s_error /\
        get rec' k_errorMessage = VStr s_analysisFailed /\
        (forall k, k <> k_status -> k <> k_errorMessage ->
                   get rec' k = get rec k /\ has rec' k = has rec k)))
    prev (failRecording newId prev).
Proof.
  apply map_Forall2. intros rec _.
  destruct (strict_eq_str (get rec k_id) newId) eqn:E.
  - split; [discriminate|]. intros _.
    destruct (matching_is_object _ _ _ E) as [fs ->].
    apply failRecording_fields.
  - split; [reflexivity | discriminate].
Qed.

(** An update by an id that no record has changes nothing. *)
Lemma map_by_absent_id (f : JsVal -> JsVal) newId prev :
  freshId newId prev ->
  List.map (fun rec => if strict_eq_str (get rec k_id) newId then f rec else rec)
           prev = prev.
Proof.
  intros Hfresh. induction prev as [|r prev IH]; [reflexivity|].
  simpl. rewrite (Hfresh r) by now left.
  f_equal. apply IH. intros x Hx. apply Hfresh. now right.
Qed.

(** C3, as amended. When analysis succeeds, every record with the id of
    the analysed capture gets status 'completed' and the structured result
    as its data, and keeps every other field except possibly the title;
    its title is replaced by the first sentence of the summary (the text
    before the first '.', '!' or '?') when that sentence is not empty and
    is shorter than 30 code units, and is left as it was otherwise. *)
Theorem analysis_success_completes_record :
  forall (newId : jsstring) (result : NoteData) (st : AppState),
    recordings (fst (dispatch (AnalysisFulfilled newId result) st)) =
      completeRecording newId result (recordings st) /\
    Forall2
      (fun rec rec' =>
         strict_eq_str (get rec k_id) newId = true ->
         get rec' k_status = VStr s_completed /\
         get rec' k_data = NoteData_value result /\
         get rec' k_title =
           (let first := firstSentence (summary result) in
            if negb (Nat.eqb (List.length first) 0)
               && Nat.ltb (List.length first) 30
            then VStr first else get rec k_title) /\
         (forall k, k <> k_status -> k <> k_data -> k <> k_title ->
                    get rec' k = get rec k))
      (recordings st) (completeRecording newId result (recordings st)).
Proof.
  intros newId result st. split; [reflexivity|].
  eapply Forall2_impl; [|apply completeRecording_pointwise].
  intros rec rec' [_ H] E. destruct (H E) as (Hs & Hd & Ht & Hk).
  repeat split; try assumption.
  - rewrite Ht, autoTitle. cbn zeta.
    destruct (firstSentence (summary result)); reflexivity.
  - intros k H1 H2 H3. now apply Hk.
Qed.

(** C3 as stated fails: the first sentence of '...and so on.' is empty,
    hence shorter than 30, and the title of the matching record is not
    replaced by it. *)
Lemma short_empty_sentence_keeps_title :
  strict_eq_str (get sampleRecording k_id) (str "k3x9q2m1z") = true /\
  firstSentence (summary ellipsisResult) = [] /\
  Nat.ltb (List.length (firstSentence (summary ellipsisResult))) 30 = true /\
  List.map (fun r => get r k_title)
    (completeRecording (str "k3x9q2m1z") ellipsisResult [sampleRecording])
    = [get sampleRecording k_title] /\
  get sampleRecording k_title
    <> VStr (firstSentence (summary ellipsisResult)).
Proof.
  repeat split; try reflexivity. discriminate.
Qed.

(** The scenario of the specification: the first sentence has 20 code
    units and becomes the title. *)
Example lecture_summary_becomes_title :
  List.map (fun r => get r k_title)
    (completeRecording (str "k3x9q2m1z") lectureResult [sampleRecording])
    = [VStr [51060; 32; 44053; 51032; 45716; 32; 49440; 54805; 45824; 49688;
             51032; 32; 44592; 52488; 47484; 32; 45796; 47353; 45768;
             45796]%N].
Proof. reflexivity. Qed.

(** C9. When the first sentence of the summary is empty (the summary is
    empty or begins with '.', '!' or '?'), the success update leaves every
    title as it was; and the update never turns a title into the empty
    string: a title that is empty afterwards was empty before. *)
Theorem empty_first_sentence_keeps_title :
  forall (newId : jsstring) (result : NoteData) (prev : list JsVal),
    (firstSentence (summary result) = [] <->
     summary result = [] \/
     exists c rest, summary result = c :: rest /\ sentence_end c = true) /\
    Forall2
      (fun rec rec' =>
         (firstSentence (summary result) = [] ->
          get rec' k_title = get rec k_title) /\
         (get rec' k_title = VStr [] -> get rec k_title = VStr []))
      prev (completeRecording newId result prev).
Proof.
  intros newId result prev. split; [apply firstSentence_empty|].
  eapply Forall2_impl; [|apply completeRecording_pointwise].
  intros rec rec' [Hother Hmatch].
  destruct (strict_eq_str (get rec k_id) newId) eqn:E.
  - destruct (Hmatch eq_refl) as (_ & _ & Ht & _).
    rewrite Ht, autoTitle. split.
    + intros ->. reflexivity.
    + destruct (firstSentence (summary result)) as [|c t] eqn:F; [tauto|].
      destruct (Nat.ltb (List.length (c :: t)) 30); [discriminate | tauto].
  - rewrite (Hother eq_refl). tauto.
Qed.

(** *** Failure *)

(** Every action other than the success of the analysis of [newId] keeps
    the records with that id free of notes. *)
Lemma dispatch_keeps_withoutNotes (newId : jsstring) (a : Action) (st : AppState) :
  (forall result, a <> AnalysisFulfilled newId result) ->
  withoutNotes newId (recordings st) ->
  withoutNotes newId (recordings (fst (dispatch a st))).
Proof.
  intros Hnot Hinv. destruct a; cbn [dispatch]; try exact Hinv.
  - (* capture complete *)
    cbn. intros r [<- | Hr] Hid; [reflexivity | now apply Hinv].
  - (* another analysis succeeds *)
    cbn. intros r' Hr' Hid.
    assert (Hne : newId0 <> newId) by (intros ->; now apply (Hnot result)).
    apply in_map_iff in Hr' as (r & <- & Hr).
    destruct (strict_eq_str (get r k_id) newId0) eqn:E; [|now apply Hinv].
    exfalso.
    destruct (matching_is_object _ _ _ E) as [fs ->].
    destruct (completeRecording_fields newId0 result fs E) as (_ & _ & _ & Hk).
    destruct (Hk k_id) as [Hg _]; try discriminate.
    cbn zeta in Hg. rewrite Hg in Hid.
    apply strict_eq_str_true in E. rewrite E in Hid. cbn in Hid.
    apply jsstring_eqb_eq in Hid. contradiction.
  - (* an analysis fails *)
    cbn. intros r' Hr' Hid.
    apply in_map_iff in Hr' as (r & <- & Hr).
    destruct (strict_eq_str (get r k_id) newId0) eqn:E; [|now apply Hinv].
    destruct (matching_is_object _ _ _ E) as [fs ->].
    destruct (failRecording_fields fs) as (_ & _ & Hk).
    destruct (Hk k_id) as [Hg _]; try discriminate.
    destruct (Hk k_data) as [_ Hh]; try discriminate.
    cbn zeta in Hg, Hh. rewrite Hh. apply Hinv; [assumption|].
    now rewrite <- Hg.
  - (* delete *)
    unfold deleteRecording. destruct confirmed; [|exact Hinv].
    assert (Hsub : withoutNotes newId
              (List.filter (fun r => negb (strict_eq_str (get r k_id) id))
                           (recordings st))).
    { intros r Hr. apply filter_In in Hr as [Hr _]. now apply Hinv. }
    destruct (option_eqb (selectedId st) id); exact Hsub.
  - (* save the edit *)
    unfold saveEdit. destruct (editingId st) as [[|c i]|]; try exact Hinv.
    cbn. intros r' Hr' Hid.
    apply in_map_iff in Hr' as (r & <- & Hr).
    destruct (strict_eq_str (get r k_id) (c :: i)) eqn:E; [|now apply Hinv].
    destruct (matching_is_object _ _ _ E) as [fs ->].
    pose proof (renameRecording_fields (editTitle st) (editSubject st) fs) as Hk.
    cbn zeta in Hk.
    destruct (Hk k_id) as [Hg _]; try discriminate.
    destruct (Hk k_data) as [_ Hh]; try discriminate.
    rewrite Hh. apply Hinv; [assumption|]. now rewrite <- Hg.
  - (* a click on a row *)
    unfold clickRow.
    destruct (strict_eq_str (get rec k_status) s_processing); [exact Hinv|].
    destruct (strict_eq_str (get rec k_status) s_completed); [|exact Hinv].
    destruct (get rec k_id); exact Hinv.
  - (* a click on the retry button *)
    unfold clickRetry. destruct (renderMain st) as [|props|] eqn:R; try exact Hinv.
    destruct (showsRetryButton (recording props)); [|exact Hinv].
    unfold renderMain in R. destruct (view st); [|discriminate].
    destruct (selectedRecording st); [|discriminate].
    injection R as <-. exact Hinv.
Qed.

Lemma runActions_keeps_withoutNotes (newId : jsstring) (acts : list Action) :
  forall st,
    (forall result, ~ In (AnalysisFulfilled newId result) acts) ->
    withoutNotes newId (recordings st) ->
    withoutNotes newId (recordings (fst (runActions acts st))).
Proof.
  induction acts as [|a acts IH]; intros st Hnot Hinv; [exact Hinv|].
  cbn [runActions].
  pose proof (dispatch_keeps_withoutNotes newId a st) as Hstep.
  destruct (dispatch a st) as [st1 o1]. cbn [fst] in Hstep.
  specialize (IH st1).
  destruct (runActions acts st1) as [st2 o2]. cbn [fst] in *.
  apply IH.
  - intros result Hin. apply (Hnot result). now right.
  - apply Hstep; [|exact Hinv].
    intros result ->. apply (Hnot result). now left.
Qed.

(** C4. When the analysis of a capture fails, the failure is logged and
    every record with the id of that capture gets status 'error' and the
    fixed message 'AI 분석 중 오류가 발생했습니다.' as its errorMessage, all
    its other fields (the data field among them) staying as they were;
    and when the capture had completed under a fresh id and anything
    except the success of its own analysis happened in between, every
    such record still in the registry has no data field. *)
Theorem analysis_failure_marks_error :
  forall (st : AppState) (c : Capture) (acts : list Action),
    (forall st2 : AppState,
        snd (dispatch (AnalysisRejected (c_newId c)) st2) = [ConsoleError] /\
        Forall2
          (fun rec rec' =>
             strict_eq_str (get rec k_id) (c_newId c) = true ->
             get rec' k_status = VStr s_error /\
             get rec' k_errorMessage = VStr s_analysisFailed /\
             (forall k, k <> k_status -> k <> k_errorMessage ->
                        get rec' k = get rec k /\ has rec' k = has rec k))
          (recordings st2)
          (recordings (fst (dispatch (AnalysisRejected (c_newId c)) st2)))) /\
    (freshId (c_newId c) (recordings st) ->
     (forall result, ~ In (AnalysisFulfilled (c_newId c) result) acts) ->
     let st1 := fst (dispatch (captureComplete c) st) in
     let st2 := fst (runActions acts st1) in
     let st3 := fst (dispatch (AnalysisRejected (c_newId c)) st2) in
     forall r, In r (recordings st3) ->
               strict_eq_str (get r k_id) (c_newId c) = true ->
               get r k_status = VStr s_error /\
               get r k_errorMessage = VStr s_analysisFailed /\
               has r k_data = false /\ get r k_data = VUndef).
Proof.
  intros st c acts. split.
  { intros st2. split; [reflexivity|].
    eapply Forall2_impl; [|apply failRecording_pointwise].
    intros rec rec' [_ H]. exact H. }
  intros Hfresh Hnot st1 st2 st3.
  assert (Hinv : withoutNotes (c_newId c) (recordings st2)).
  { subst st2. apply runActions_keeps_withoutNotes; [exact Hnot|].
    subst st1. apply dispatch_keeps_withoutNotes.
    - intros result. unfold captureComplete. discriminate.
    - intros r Hr Hid. rewrite (Hfresh r Hr) in Hid. discriminate. }
  intros r' Hr' Hid. subst st3. cbn in Hr'.
  apply in_map_iff in Hr' as (r & <- & Hr).
  destruct (strict_eq_str (get r k_id) (c_newId c)) eqn:E;
    [|rewrite E in Hid; discriminate].
  destruct (matching_is_object _ _ _ E) as [fs ->].
  destruct (failRecording_fields fs) as (Hs & Hm & Hk).
  cbn zeta in Hs, Hm, Hk.
  destruct (Hk k_data) as [Hg Hh]; try discriminate.
  split; [exact Hs|]. split; [exact Hm|].
  assert (Hno : has (VObj fs) k_data = false) by now apply Hinv.
  split; [now rewrite Hh|].
  rewrite Hg. unfold has in Hno. unfold get.
  destruct (assoc k_data fs); [discriminate | reflexivity].
Qed.

(** The lifecycle part of C4 on [sampleCapture], with a later capture
    analysed and a rename in between. *)
Lemma analysis_failure_marks_error_witness :
  freshId (c_newId sampleCapture) (recordings (mount true None)) /\
  (forall result,
      ~ In (AnalysisFulfilled (c_newId sampleCapture) result)
           (interleaving lectureResult)) /\
  (forall r,
      In r (recordings
              (fst (dispatch (AnalysisRejected (c_newId sampleCapture))
                 (fst (runActions (interleaving lectureResult)
                    (fst (dispatch (captureComplete sampleCapture)
                                   (mount true None)))))))) ->
      strict_eq_str (get r k_id) (c_newId sampleCapture) = true ->
      get r k_status = VStr s_error /\
      get r k_errorMessage = VStr s_analysisFailed /\
      has r k_data = false /\ get r k_data = VUndef).
Proof.
  assert (Hfresh : freshId (c_newId sampleCapture) (recordings (mount true None))).
  { intros r Hr. destruct Hr. }
  assert (Hnot : forall result,
             ~ In (AnalysisFulfilled (c_newId sampleCapture) result)
                  (interleaving lectureResult)).
  { intros result Hin. simpl in Hin.
    destruct Hin as [H | [H | [H | [H | H]]]];
      try discriminate H; try exact H. }
  split; [exact Hfresh|]. split; [exact Hnot|].
  exact (proj2 (analysis_failure_marks_error
                  (mount true None) sampleCapture (interleaving lectureResult))
               Hfresh Hnot).
Defined.

(** *** Updates are keyed by id *)

Lemma outcome_noop newId result prev :
  freshId newId prev ->
  completeRecording newId result prev = prev /\ failRecording newId prev = prev.
Proof.
  intros Hfresh. split; apply map_by_absent_id; exact Hfresh.
Qed.

(** After a confirmed deletion no record has the deleted id. *)
Lemma deleted_id_is_absent (id : jsstring) (st : AppState) :
  freshId id (recordings (fst (dispatch (DeleteRecording id true) st))).
Proof.
  cbn [dispatch]. unfold deleteRecording.
  assert (H : freshId id
                (List.filter (fun r => negb (strict_eq_str (get r k_id) id))
                             (recordings st))).
  { intros r Hr. apply filter_In in Hr as [_ Hr].
    now apply negb_true_iff in Hr. }
  destruct (option_eqb (selectedId st) id); exact H.
Qed.

(** C5. Both outcome updates touch only the records whose id matches:
    every other record is the same value at the same position; when no
    record has the id (after its deletion, for one), the registry is
    unchanged; and when capture A and
    then capture B complete under distinct fresh ids and B's analysis
    succeeds first, the registry is B's completed record, then A's record
    exactly as inserted (status 'processing'), then the older records
    untouched. *)
Theorem outcome_updates_only_matching_id :
  forall (newId : jsstring) (result : NoteData),
    (forall prev,
        Forall2 (fun rec rec' =>
                   strict_eq_str (get rec k_id) newId = false -> rec' = rec)
                prev (completeRecording newId result prev) /\
        Forall2 (fun rec rec' =>
                   strict_eq_str (get rec k_id) newId = false -> rec' = rec)
                prev (failRecording newId prev)) /\
    (forall prev,
        freshId newId prev ->
        completeRecording newId result prev = prev /\
        failRecording newId prev = prev) /\
    (forall st : AppState,
        let deleted := fst (dispatch (DeleteRecording newId true) st) in
        recordings (fst (dispatch (AnalysisFulfilled newId result) deleted)) =
          recordings deleted /\
        recordings (fst (dispatch (AnalysisRejected newId) deleted)) =
          recordings deleted) /\
    (forall (st : AppState) (capA capB : Capture),
        c_newId capB = newId ->
        c_newId capA <> newId ->
        freshId newId (recordings st) ->
        let st1 := fst (dispatch (captureComplete capA) st) in
        let st2 := fst (dispatch (captureComplete capB) st1) in
        let st3 := fst (dispatch (AnalysisFulfilled newId result) st2) in
        exists recB,
          recordings st3 = recB :: capturedRecording capA :: recordings st /\
          get recB k_id = VStr newId /\
          get recB k_status = VStr s_completed /\
          get (capturedRecording capA) k_status = VStr s_processing).
Proof.
  intros newId result. split; [|split; [|split]].
  - intros prev. split.
    + eapply Forall2_impl; [|apply completeRecording_pointwise].
      intros rec rec' [H _]. exact H.
    + eapply Forall2_impl; [|apply failRecording_pointwise].
      intros rec rec' [H _]. exact H.
  - intros prev Hfresh. now apply outcome_noop.
  - intros st deleted.
    apply (outcome_noop newId result (recordings deleted)).
    apply deleted_id_is_absent.
  - intros st capA capB HB HA Hfresh st1 st2 st3.
    change (recordings st3) with
      (completeRecording newId result
         (capturedRecording capB :: capturedRecording capA :: recordings st)).
    unfold completeRecording at 1. cbn [List.map].
    fold (completeRecording newId result (recordings st)).
    destruct (outcome_noop newId result (recordings st) Hfresh) as [-> _].
    assert (EB : strict_eq_str (get (capturedRecording capB) k_id) newId = true).
    { cbn. rewrite HB. apply jsstring_eqb_refl. }
    assert (EA : strict_eq_str (get (capturedRecording capA) k_id) newId = false).
    { cbn. now apply jsstring_eqb_neq. }
    rewrite EB, EA.
    eexists. split; [reflexivity|].
    unfold capturedRecording, newRecording. rewrite !get_spread_object.
    cbn. rewrite HB. repeat split.
Qed.

End Analysis.


(* ================================================================== *)
(** ** Persistence of the registry *)

Module Persistence.
Import Js JsFacts App AppFacts Samples Expansion Rendering NoteDetailView.

(** The snapshot of a registry: its records, serialized in their order. *)
Lemma JSON_stringify_array (recs : list JsVal) :
  JSON_stringify (VArr recs) =
  Some (JArr (List.map (fun r => match JSON_stringify r with
                                 | Some j => j
                                 | None => JNull
                                 end) recs)).
Proof.
  reflexivity.
Qed.

(** An action that does not call [setRecordings] leaves the registry
    alone. *)
Lemma other_actions_keep_registry (a : Action) (st : AppState) :
  mutates a st = false ->
  recordings (fst (dispatch a st)) = recordings st.
Proof.
  destruct a; cbn [mutates]; try discriminate; intros Hm;
    try reflexivity; cbn [dispatch].
  - subst confirmed. reflexivity.
  - unfold saveEdit.
    destruct (editingId st) as [[|c i]|]; try discriminate; reflexivity.
  - unfold clickRow.
    destruct (strict_eq_str (get rec k_status) s_processing); [reflexivity|].
    destruct (strict_eq_str (get rec k_status) s_completed); [|reflexivity].
    destruct (get rec k_id); reflexivity.
  - unfold clickRetry. destruct (renderMain st) as [|props|] eqn:R;
      try reflexivity.
    destruct (showsRetryButton (recording props)); [|reflexivity].
    unfold renderMain in R. destruct (view st); [|discriminate].
    destruct (selectedRecording st); [|discriminate].
    injection R as <-. reflexivity.
Qed.

Lemma screenStep_keeps_registry (a : ScreenAction) (s : Screen) :
  callsSetRecordings a s = false ->
  recordings (app (screenStep a s)) = recordings (app s).
Proof.
  destruct a as [a|subject]; cbn [callsSetRecordings]; [|reflexivity].
  intros Hm. pose proof (other_actions_keep_registry a (app s) Hm) as H.
  destruct a; exact H.
Qed.

(** The two ends of a render. *)
Lemma pageStep_commits (J : Jsx) (a : ScreenAction) (p : Page) :
  mounted p = true ->
  renders J (screenStep a (screen p)) = true ->
  pageStep J a p =
  {| screen := screenStep a (screen p);
     mounted := true;
     storage := if callsSetRecordings a (screen p)
                then persist (app (screenStep a (screen p)))
                else storage p |}.
Proof. intros Hm Hr. unfold pageStep. now rewrite Hm, Hr. Qed.

Lemma pageStep_throws (J : Jsx) (a : ScreenAction) (p : Page) :
  mounted p = true ->
  renders J (screenStep a (screen p)) = false ->
  pageStep J a p =
  {| screen := screenStep a (screen p);
     mounted := false;
     storage := storage p |}.
Proof. intros Hm Hr. unfold pageStep. now rewrite Hm, Hr. Qed.

(** C7 (the code departs from it). On a mounted page, every action that
    sets the registry and whose render commits is followed by a write of
    the whole new registry, serialized record by record in order, over
    the stored item; the text holds no audio byte: it is the same when
    every Blob is emptied.  But a record is not written with its id
    alone.  When a capture completes, the new record is written with its
    audioBlob member too, as the empty object that a Blob serializes to;
    a record stored with that member is loaded again with a truthy
    audioBlob, so loadAudio takes the in-memory branch on a value that is
    not a Blob and never asks the blob store.  And an action whose render
    throws writes nothing at all: the stored item stays as it was. *)
Theorem snapshot_keeps_the_audioBlob_member :
  forall (J : Jsx) (p : Page) (c : Capture),
    mounted p = true ->
    renders J (screenStep (AppAction (captureComplete c)) (screen p)) = true ->
    let p' := pageStep J (AppAction (captureComplete c)) p in
    let registry := recordings (app (screen p')) in
    (forall a,
        callsSetRecordings a (screen p) = true ->
        renders J (screenStep a (screen p)) = true ->
        let next := recordings (app (screenStep a (screen p))) in
        storage (pageStep J a p) =
          Written (Some (JArr (List.map (fun r => match JSON_stringify r with
                                                  | Some j => j
                                                  | None => JNull
                                                  end) next))) /\
        JSON_stringify (VArr (List.map erase_blobs next)) =
          JSON_stringify (VArr next)) /\
    mounted p' = true /\
    registry = capturedRecording c :: recordings (app (screen p)) /\
    storage p' = Written (JSON_stringify (VArr registry)) /\
    JSON_stringify (capturedRecording c) =
      Some (JObj [ (k_id, JStr (c_newId c));
                   (k_title,
                    JStr (s_titlePrefix ++ nat_toString (c_closureLen c + 1)));
                   (k_subject, JStr s_etc);
                   (k_date, JDateText (VNum (c_now c)));
                   (k_duration, JNum (c_duration c));
                   (k_audioBlob, JObj []);
                   (k_status, JStr s_processing) ]) /\
    (forall fs rec,
        assoc k_audioBlob fs = Some (VObj []) ->
        rehydrate_item (VObj fs) = Some rec ->
        loadAudio rec = InMemory (VObj [])) /\
    (forall a,
        renders J (screenStep a (screen p)) = false ->
        mounted (pageStep J a p) = false /\
        storage (pageStep J a p) = storage p).
Proof.
  intros J p c Hm Hr p' registry. subst registry p'.
  rewrite (pageStep_commits J _ p Hm Hr). cbn [screen mounted storage].
  split.
  { intros a Ha Hra. cbn zeta. rewrite (pageStep_commits J a p Hm Hra).
    cbn [storage]. rewrite Ha. split; [reflexivity|].
    change (VArr (List.map erase_blobs ?l)) with (erase_blobs (VArr l)).
    apply JSON_stringify_erase_blobs. }
  split; [reflexivity|]. split; [reflexivity|]. split; [reflexivity|].
  split; [reflexivity|]. split.
  - intros fs rec Hb Hrec.
    destruct (rehydrate_item_fields fs rec Hrec) as (_ & _ & _ & _ & _ & _ & Hk).
    unfold loadAudio. rewrite (Hk k_audioBlob) by discriminate.
    cbn [get]. rewrite Hb. reflexivity.
  - intros a Ha. rewrite (pageStep_throws J a p Hm Ha). split; reflexivity.
Qed.

(** C7 on the first capture after an empty start: the item written; and
    on the save of the folder name ' constructor ', whose render throws. *)
Lemma snapshot_keeps_the_audioBlob_member_witness :
  mounted (openPage plainJsx None) = true /\
  storage (pageStep plainJsx (AppAction (captureComplete sampleCapture))
                    (openPage plainJsx None)) =
    Written
      (Some (JArr [ JObj [ (k_id, JStr (str "k3x9q2m1z"));
                           (k_title, JStr (s_titlePrefix ++ str "1"));
                           (k_subject, JStr s_etc);
                           (k_date, JDateText (VNum 1700000000000));
                           (k_duration, JNum 125);
                           (k_audioBlob, JObj []);
                           (k_status, JStr s_processing) ] ])) /\
  storage (runPage plainJsx
             [ AppAction (captureComplete sampleCapture);
               AppAction (StartEditing (c_newId sampleCapture)
                                       (str "Lecture") (str " constructor "));
               AppAction SaveEdit ]
             (openPage plainJsx None)) =
  storage (pageStep plainJsx (AppAction (captureComplete sampleCapture))
                    (openPage plainJsx None)).
Proof.
  split; [reflexivity|].
  destruct (snapshot_keeps_the_audioBlob_member
              plainJsx (openPage plainJsx None) sampleCapture
              eq_refl eq_refl) as (_ & _ & _ & Hw & _).
  split; [exact Hw | reflexivity].
Defined.

End Persistence.


(* ================================================================== *)
(** ** Rehydration *)

Module Rehydration.
Import Js JsFacts App AppFacts Samples.

(** A rehydrated record is never 'processing'. *)
Lemma rehydrate_item_not_processing (item rec : JsVal) :
  rehydrate_item item = Some rec ->
  strict_eq_str (get rec k_status) s_processing = false.
Proof.
  unfold rehydrate_item. intros H.
  assert (Hs : get rec k_status =
               if strict_eq_str (get item k_status) s_processing
               then VStr s_error else get item k_status).
  { destruct (unprintable (get item k_date)).
    - destruct item; discriminate.
    - destruct item; try discriminate; injection H as <-;
        now rewrite get_spread_with. }
  rewrite Hs.
  destruct (strict_eq_str (get item k_status) s_processing) eqn:E;
    [reflexivity | exact E].
Qed.

Lemma map_or_throw_In f xs ys y :
  map_or_throw f xs = Some ys -> In y ys -> exists x, In x xs /\ f x = Some y.
Proof.
  revert ys. induction xs as [|x xs IH]; intros ys H Hy; simpl in H.
  - injection H as <-. destruct Hy.
  - destruct (f x) as [y0|] eqn:Fx; [|discriminate].
    destruct (map_or_throw f xs) as [ys0|]; [|discriminate].
    injection H as <-. destruct Hy as [<- | Hy].
    + exists x. split; [now left | exact Fx].
    + destruct (IH ys0 eq_refl Hy) as (x' & Hx' & Fx').
      exists x'. split; [now right | exact Fx'].
Qed.

Lemma no_processing_after_rehydration hasWindow savedData rec :
  In rec (initialRecordings hasWindow savedData) ->
  strict_eq_str (get rec k_status) s_processing = false.
Proof.
  unfold initialRecordings, loadRecordings.
  destruct hasWindow; [|intros []]. cbn [negb].
  destruct savedData as [text|]; [|intros []].
  destruct (text_truthy text); [|intros []].
  destruct (JSON_parse text) as [v|]; [|intros []].
  destruct v; try (intros []).
  destruct (map_or_throw rehydrate_item items) as [recs|] eqn:M; [|intros []].
  cbn [fst]. intros Hin.
  destruct (map_or_throw_In _ _ _ _ M Hin) as (item & _ & Hitem).
  now apply rehydrate_item_not_processing with (item := item).
Qed.

(** On an array of plain objects with convertible dates the callback
    never throws. *)
Lemma rehydrate_records (items : list JsVal) :
  Forall (fun item => is_object item = true) items ->
  Forall (fun item => unprintable (get item k_date) = false) items ->
  exists recs,
    map_or_throw rehydrate_item items = Some recs /\
    Forall2 (fun item rec => rehydrate_item item = Some rec) items recs.
Proof.
  induction 1 as [|item items Hobj _ IH]; intros Hdates.
  - exists []. split; [reflexivity | constructor].
  - inversion Hdates as [|? ? Hdate Hrest]; subst.
    destruct (IH Hrest) as (recs & Hm & Hall).
    destruct item; try discriminate.
    destruct (rehydrate_item_returns fields Hdate) as (rec & Hr).
    exists (rec :: recs). split.
    + cbn [map_or_throw]. now rewrite Hr, Hm.
    + constructor; assumption.
Qed.

(** C2, as amended. For a snapshot that is an array of records whose
    stored dates can be converted, rehydration keeps the records in order
    and rebuilds each one: a record stored as 'processing' gets status
    'error' and the message that the page was reloaded during processing;
    a record in any other status keeps its status and its errorMessage;
    every record keeps all its other fields, except that a missing or
    empty subject becomes '기타' and that the date is rebuilt as a Date
    from the stored value.  When the stored date of some record cannot be
    converted (an object with a member named toString, or an array
    holding one), building the Date throws and nothing at all is loaded.
    After rehydration from anything at all, no record has status
    'processing'. *)
Theorem rehydration_marks_interrupted_records :
  forall (items : list JsVal),
    Forall (fun item => is_object item = true) items ->
    (Forall (fun item => unprintable (get item k_date) = false) items ->
     Forall2
       (fun item rec =>
          (strict_eq_str (get item k_status) s_processing = true ->
           get rec k_status = VStr s_error /\
           get rec k_errorMessage = VStr s_interrupted) /\
          (strict_eq_str (get item k_status) s_processing = false ->
           get rec k_status = get item k_status /\
           get rec k_errorMessage = get item k_errorMessage) /\
          get rec k_subject =
            (if truthy (get item k_subject)
             then get item k_subject else VStr s_etc) /\
          get rec k_date = VDate (get item k_date) /\
          (forall k, k <> k_subject -> k <> k_date -> k <> k_status ->
                     k <> k_errorMessage -> get rec k = get item k))
       items (initialRecordings true (Some (Rendered (VArr items))))) /\
    ((exists item, In item items /\ unprintable (get item k_date) = true) ->
     loadRecordings true (Some (Rendered (VArr items)))
       = ([], [ConsoleError])) /\
    (forall hasWindow savedData rec,
        In rec (initialRecordings hasWindow savedData) ->
        strict_eq_str (get rec k_status) s_processing = false).
Proof.
  intros items Hobj. split; [|split].
  - intros Hdates.
    destruct (rehydrate_records items Hobj Hdates) as (recs0 & Hm & Hall).
    assert (Hrecs : initialRecordings true (Some (Rendered (VArr items)))
                    = recs0).
    { unfold initialRecordings, loadRecordings.
      cbn [negb text_truthy JSON_parse]. now rewrite Hm. }
    rewrite Hrecs. clear Hrecs Hm Hdates.
    induction Hall as [|item rec items recs0 Hr _ IH]; constructor.
    + inversion Hobj as [|? ? Hi _]; subst.
      destruct item; try discriminate.
      destruct (rehydrate_item_fields fields rec Hr)
        as (_ & _ & Hs & Hm & Hsub & Hd & Hk).
      split; [|split; [|split; [|split]]].
      * intros E. rewrite Hs, Hm, E. split; reflexivity.
      * intros E. rewrite Hs, Hm, E. split; reflexivity.
      * exact Hsub.
      * exact Hd.
      * exact Hk.
    + apply IH. now inversion Hobj.
  - intros (item & Hin & Hdate).
    unfold loadRecordings. cbn [negb text_truthy JSON_parse].
    now rewrite (map_or_throw_throws rehydrate_item items item Hin
                   (rehydrate_item_throws item Hdate)).
  - intros hasWindow savedData rec.
    apply no_processing_after_rehydration.
Qed.

(** C2 on a snapshot of an old completed record and an interrupted one. *)
Lemma rehydration_marks_interrupted_records_witness :
  Forall (fun item => is_object item = true) [oldRecord; interruptedRecord] /\
  Forall (fun item => unprintable (get item k_date) = false)
         [oldRecord; interruptedRecord] /\
  Forall2
    (fun item rec =>
       (strict_eq_str (get item k_status) s_processing = true ->
        get rec k_status = VStr s_error /\
        get rec k_errorMessage = VStr s_interrupted) /\
       (strict_eq_str (get item k_status) s_processing = false ->
        get rec k_status = get item k_status /\
        get rec k_errorMessage = get item k_errorMessage) /\
       get rec k_subject =
         (if truthy (get item k_subject)
          then get item k_subject else VStr s_etc) /\
       get rec k_date = VDate (get item k_date) /\
       (forall k, k <> k_subject -> k <> k_date -> k <> k_status ->
                  k <> k_errorMessage -> get rec k = get item k))
    [oldRecord; interruptedRecord]
    (initialRecordings true
       (Some (Rendered (VArr [oldRecord; interruptedRecord])))).
Proof.
  assert (Hobj : Forall (fun item => is_object item = true)
                        [oldRecord; interruptedRecord]).
  { repeat constructor. }
  assert (Hdates : Forall (fun item => unprintable (get item k_date) = false)
                          [oldRecord; interruptedRecord]).
  { repeat constructor. }
  split; [exact Hobj|]. split; [exact Hdates|].
  exact (proj1 (rehydration_marks_interrupted_records
                  [oldRecord; interruptedRecord] Hobj) Hdates).
Defined.

(** C2 as stated fails: a record stored as 'completed' without a subject
    comes back with the subject '기타'. *)
Lemma rehydration_fills_missing_subject :
  is_object oldRecord = true /\
  strict_eq_str (get oldRecord k_status) s_processing = false /\
  get oldRecord k_subject = VUndef /\
  List.map (fun rec => get rec k_subject)
    (initialRecordings true (Some (Rendered (VArr [oldRecord]))))
    = [VStr s_etc].
Proof. repeat split. Qed.

(** C10. When localStorage holds no snapshot, or holds a text that
    JSON.parse rejects, the initializer returns the empty registry, so the
    application mounts with no recordings; nothing is thrown, and the only
    trace is what the catch logs. *)
Theorem unreadable_snapshot_yields_empty_registry :
  forall (hasWindow : bool) (savedData : option StoredText),
    (savedData = None \/
     exists text, savedData = Some text /\ JSON_parse text = None) ->
    initialRecordings hasWindow savedData = [] /\
    recordings (mount hasWindow savedData) = [] /\
    (forall e, In e (snd (loadRecordings hasWindow savedData)) ->
               e = ConsoleError) /\
    (savedData = None -> snd (loadRecordings hasWindow savedData) = []).
Proof.
  intros hasWindow savedData H.
  assert (Hload : loadRecordings hasWindow savedData = ([], []) \/
                  loadRecordings hasWindow savedData = ([], [ConsoleError])).
  { unfold loadRecordings. destruct hasWindow; [|now left]. cbn [negb].
    destruct H as [-> | (text & -> & Hp)]; [now left|].
    destruct (text_truthy text); [|now left]. rewrite Hp. now right. }
  unfold mount, initialRecordings. cbn [recordings].
  split; [|split; [|split]].
  - destruct Hload as [-> | ->]; reflexivity.
  - destruct Hload as [-> | ->]; reflexivity.
  - intros e. destruct Hload as [-> | ->]; cbn; [tauto|].
    intros [<- | []]. reflexivity.
  - intros ->. unfold loadRecordings. destruct hasWindow; reflexivity.
Qed.

(** C10 on a truncated text and on an empty store. *)
Lemma unreadable_snapshot_yields_empty_registry_witness :
  JSON_parse (Malformed (str "[{oops")) = None /\
  initialRecordings true (Some (Malformed (str "[{oops"))) = [] /\
  recordings (mount true (Some (Malformed (str "[{oops")))) = [] /\
  initialRecordings true None = [].
Proof.
  split; [reflexivity|].
  destruct (unreadable_snapshot_yields_empty_registry
              true (Some (Malformed (str "[{oops")))
              (or_intror (ex_intro _ (Malformed (str "[{oops"))
                                   (conj eq_refl eq_refl))))
    as (H1 & H2 & _).
  destruct (unreadable_snapshot_yields_empty_registry
              true None (or_introl eq_refl)) as (H3 & _).
  split; [exact H1|]. split; [exact H2 | exact H3].
Defined.

End Rehydration.


(* ================================================================== *)
(** ** Retrying an analysis *)

Module Retry.
Import Js JsFacts App AppFacts Samples.

Lemma renderMain_retry (st : AppState) (props : NoteDetailProps) :
  renderMain st = NoteDetailPane props -> onRetry props = None.
Proof.
  unfold renderMain. destruct (view st); [|discriminate].
  destruct (selectedRecording st); [|discriminate].
  intros H. injection H as <-. reflexivity.
Qed.

Lemma clickRetry_does_nothing (st : AppState) : clickRetry st = (st, []).
Proof.
  unfold clickRetry. destruct (renderMain st) as [|props|] eqn:R; try reflexivity.
  rewrite (renderMain_retry st props R).
  destruct (showsRetryButton (recording props)); reflexivity.
Qed.

(** C6 (the code departs from it). [App] renders [NoteDetail] without an
    [onRetry] handler, so a click on the retry button changes nothing and
    requests nothing in any state, and no action of the application other
    than the completion of a capture requests an analysis.  For the
    capture whose analysis has just failed: its record has status 'error'
    and its audio in memory, [NoteDetail] would show the retry button for
    it, a click on its row does not open it, and the retry click leaves
    the state as it is and starts no analysis. *)
Theorem retry_button_has_no_handler :
  (forall st : AppState,
      dispatch ClickRetry st = (st, []) /\
      (forall props, renderMain st = NoteDetailPane props ->
                     onRetry props = None) /\
      (forall a id blob,
          In (AnalyzeLectureAudio id blob) (snd (dispatch a st)) ->
          exists closureLen now duration,
            a = CaptureComplete closureLen id now blob duration)) /\
  recordings afterFailure = [failedRecording] /\
  get failedRecording k_status = VStr s_error /\
  get failedRecording k_audioBlob = VBlob (c_blob sampleCapture) /\
  showsRetryButton failedRecording = true /\
  dispatch (ClickRow failedRecording) afterFailure = (afterFailure, []) /\
  dispatch ClickRetry afterFailure = (afterFailure, []).
Proof.
  split; [|repeat split].
  intros st. split; [apply clickRetry_does_nothing|].
  split; [apply renderMain_retry|].
  intros a id blob Hin. destruct a; cbn [dispatch] in Hin.
  - cbn in Hin. destruct Hin as [H | [H | []]]; [discriminate|].
    injection H as -> ->. eauto.
  - destruct Hin.
  - cbn in Hin. destruct Hin as [H | []]. discriminate.
  - unfold deleteRecording in Hin. destruct confirmed; cbn in Hin.
    + destruct Hin as [H | []]. discriminate.
    + destruct Hin.
  - destruct Hin.
  - destruct Hin.
  - destruct Hin.
  - destruct Hin.
  - unfold saveEdit in Hin.
    destruct (editingId st) as [[|c i]|]; destruct Hin.
  - unfold clickRow in Hin.
    destruct (strict_eq_str (get rec k_status) s_processing); [destruct Hin|].
    destruct (strict_eq_str (get rec k_status) s_completed); [|destruct Hin].
    destruct (get rec k_id); destruct Hin.
  - destruct Hin.
  - destruct Hin.
  - destruct Hin.
  - rewrite clickRetry_does_nothing in Hin. destruct Hin.
Qed.

End Retry.


(* ================================================================== *)
(** ** More about the capture session *)

Module SessionFacts.
Import Js AudioRecorder.

(** *** Lists updated by position *)

Lemma set_nth_length {A : Type} (x : A) (l : list A) : forall i,
  List.length (set_nth i x l) = List.length l.
Proof.
  induction l as [|y l IH]; intros [|i]; cbn; try reflexivity.
  now rewrite IH.
Qed.

Lemma set_nth_same {A : Type} (x : A) (l : list A) : forall i,
  (i < List.length l)%nat -> nth_error (set_nth i x l) i = Some x.
Proof.
  induction l as [|y l IH]; intros [|i] H; cbn in *; try lia; [reflexivity|].
  apply IH. lia.
Qed.

Lemma set_nth_other {A : Type} (x : A) (l : list A) : forall i j,
  i <> j -> nth_error (set_nth i x l) j = nth_error l j.
Proof.
  induction l as [|y l IH]; intros [|i] [|j] H; cbn; try reflexivity;
    try contradiction.
  apply IH. congruence.
Qed.

Lemma set_nth_some {A : Type} (x : A) (l : list A) (i j : nat) (y : A) :
  nth_error l j = Some y -> exists z, nth_error (set_nth i x l) j = Some z.
Proof.
  intros H. destruct (Nat.eq_dec i j) as [-> | Hne].
  - exists x. apply set_nth_same. apply nth_error_Some. congruence.
  - exists y. now rewrite set_nth_other.
Qed.

Lemma nth_error_snoc {A : Type} (l : list A) (x : A) :
  nth_error (l ++ [x]) (List.length l) = Some x.
Proof.
  rewrite nth_error_app2 by lia. now rewrite Nat.sub_diag.
Qed.

Lemma nth_error_snoc_old {A : Type} (l : list A) (x y : A) (i : nat) :
  nth_error l i = Some y -> nth_error (l ++ [x]) i = Some y.
Proof.
  intros H. rewrite nth_error_app1; [exact H|].
  apply nth_error_Some. congruence.
Qed.

Lemma set_nth_snoc {A : Type} (l : list A) (x y : A) :
  set_nth (List.length l) y (l ++ [x]) = l ++ [y].
Proof.
  induction l as [|z l IH]; cbn; [reflexivity|]. now rewrite IH.
Qed.

(** *** Recorders *)

Lemma phaseOf_setPhase_same (i : nat) (p q : Phase) (h : Hook) :
  phaseOf i h = Some q -> phaseOf i (setPhase i p h) = Some p.
Proof.
  unfold phaseOf, setPhase. intros H.
  destruct (nth_error (recorders h) i) as [mr|] eqn:E; [|discriminate].
  cbn [recorders]. rewrite set_nth_same; [reflexivity|].
  apply nth_error_Some. congruence.
Qed.

Lemma phaseOf_setPhase_other (i j : nat) (p : Phase) (h : Hook) :
  i <> j -> phaseOf j (setPhase i p h) = phaseOf j h.
Proof.
  unfold phaseOf, setPhase. intros H.
  destruct (nth_error (recorders h) i) as [mr|]; [|reflexivity].
  cbn [recorders]. now rewrite set_nth_other.
Qed.

(** A change of phase touches the recorders only. *)
Lemma setPhase_frame (i : nat) (p : Phase) (h : Hook) :
  isRecording (setPhase i p h) = isRecording h /\
  duration (setPhase i p h) = duration h /\
  permissionError (setPhase i p h) = permissionError h /\
  mediaRecorderRef (setPhase i p h) = mediaRecorderRef h /\
  audioContextRef (setPhase i p h) = audioContextRef h /\
  analyserRef (setPhase i p h) = analyserRef h /\
  sourceRef (setPhase i p h) = sourceRef h /\
  streamRef (setPhase i p h) = streamRef h /\
  chunksRef (setPhase i p h) = chunksRef h /\
  timerRef (setPhase i p h) = timerRef h /\
  streams (setPhase i p h) = streams h /\
  pending (setPhase i p h) = pending h /\
  List.length (recorders (setPhase i p h)) = List.length (recorders h).
Proof.
  unfold setPhase. destruct (nth_error (recorders h) i);
    cbn; repeat split; try reflexivity. apply set_nth_length.
Qed.

Lemma setPhase_keeps_recorder (i j : nat) (p : Phase) (h : Hook)
      (mr : MediaRecorder) :
  nth_error (recorders h) j = Some mr ->
  exists mr', nth_error (recorders (setPhase i p h)) j = Some mr'.
Proof.
  intros H. unfold setPhase.
  destruct (nth_error (recorders h) i); [|eauto].
  cbn [recorders]. now apply set_nth_some with (y := mr).
Qed.

(** *** What holds in every state *)

Lemma setPhase_coherent (i : nat) (p : Phase) (h : Hook) :
  coherent h -> coherent (setPhase i p h).
Proof.
  unfold coherent.
  destruct (setPhase_frame i p h)
    as (E1 & _ & _ & E4 & E5 & E6 & E7 & E8 & _ & E10 & _).
  rewrite E1, E4, E5, E6, E7, E8, E10.
  intros (H1 & H2 & H3 & H4 & H5).
  split; [exact H1|]. split; [exact H2|]. split; [exact H3|].
  split; [exact H4|].
  intros Hr. destruct (H5 Hr) as (j & mr & Hj & Hmr).
  destruct (setPhase_keeps_recorder i j p h mr Hmr) as (mr' & Hmr').
  exists j, mr'. split; [exact Hj | exact Hmr'].
Qed.

Lemma step_coherent (e : Event) (h : Hook) :
  coherent h -> coherent (fst (step e h)).
Proof.
  intros Hc. destruct e as [|k a| | |i|i data|i|n]; cbn [step fst].
  - exact Hc.
  - unfold answer. destruct (nth_error (pending h) k) as [closure|];
      [|exact Hc].
    destruct Hc as (H1 & H2 & H3 & H4 & H5).
    unfold coherent. destruct a; cbn.
    + exact (conj H1 (conj H2 (conj H3 (conj H4 H5)))).
    + split; [exact H1|]. split; [exact H2|]. split; [exact H3|].
      split; [intros _; eauto | exact H5].
    + split; [exact H1|]. split; [reflexivity|]. split; [reflexivity|].
      split; [intros _; eauto | exact H5].
    + split; [exact H1|]. split; [reflexivity|]. split; [reflexivity|].
      split; [intros _; eauto|].
      intros _. eexists. eexists. split; [reflexivity|].
      apply nth_error_snoc.
    + split; [reflexivity|]. split; [reflexivity|]. split; [reflexivity|].
      split; [intros _; eauto|].
      intros _. eexists. eexists. split; [reflexivity|].
      apply nth_error_snoc.
  - unfold tick. destruct (timerRef h) eqn:T; [|exact Hc].
    unfold coherent in *. cbn. rewrite T in Hc. exact Hc.
  - unfold stopRecording. destruct (mediaRecorderRef h) as [i|]; [|exact Hc].
    destruct (phaseOf i h) as [[| | |]|]; try exact Hc.
    apply setPhase_coherent.
    destruct Hc as (H1 & H2 & H3 & H4 & H5). cbn.
    split; [reflexivity|]. split; [exact H2|]. split; [exact H3|].
    split; [exact H4 | discriminate].
  - unfold platformStop. destruct (phaseOf i h) as [[| | |]|]; try exact Hc.
    now apply setPhase_coherent.
  - unfold ondataavailable.
    destruct (phaseOf i h) as [[| | |]|]; try exact Hc.
    apply setPhase_coherent. destruct (blob_bytes data); exact Hc.
  - unfold onstop. destruct (nth_error (recorders h) i) as [mr|]; [|exact Hc].
    destruct (phase mr); try exact Hc. cbn [fst].
    pose proof (setPhase_coherent i done h Hc) as (H1 & _ & _ & _ & H5).
    unfold coherent, cleanupAudio. cbn.
    split; [exact H1|]. split; [reflexivity|]. split; [reflexivity|].
    split; [discriminate | exact H5].
  - exact Hc.
Qed.

Lemma run_coherent (es : list Event) : forall h,
  coherent h -> coherent (fst (run es h)).
Proof.
  induction es as [|e es IH]; intros h Hc; [exact Hc|].
  cbn [run].
  pose proof (step_coherent e h Hc) as Hstep.
  destruct (step e h) as [h1 o1]. cbn [fst] in Hstep.
  specialize (IH h1 Hstep).
  destruct (run es h1) as [h2 o2]. exact IH.
Qed.

(** X1. In every state that the hook can reach, the interval is
    scheduled exactly when the recording flag is on, the three audio refs
    are set and cleared together and only while a stream is held in its
    ref, and a recorder is in its ref whenever the flag is on.  The flag
    does not tell more than that: after a grant whose recorder cannot be
    built, the microphone and the audio context are held while the flag
    is off; and after the platform has stopped the recorder by itself,
    the flag and the interval are on while nothing records. *)
Theorem interval_follows_the_flag :
  (forall (es : list Event),
      let h := fst (run es initial) in
      timerRef h = isRecording h /\
      analyserRef h = audioContextRef h /\
      sourceRef h = audioContextRef h /\
      (audioContextRef h = true -> exists n, streamRef h = Some n) /\
      (isRecording h = true ->
       exists i mr, mediaRecorderRef h = Some i /\
                    nth_error (recorders h) i = Some mr)) /\
  (let h := fst (run [CallStart; GetUserMedia 0 noMediaRecorder] initial) in
   isRecording h = false /\ microphoneHeld h = true /\
   audioContextRef h = true) /\
  (let h := fst (run [ CallStart; GetUserMedia 0 started; PlatformStop 0;
                       DataAvailable 0 (mkBlob [] []); Stop 0 ] initial) in
   isRecording h = true /\ timerRef h = true /\
   phaseOf 0 h = Some done /\ microphoneHeld h = false).
Proof.
  split; [|split].
  - intros es h. subst h. apply (run_coherent es initial).
    unfold coherent. cbn. repeat split; discriminate.
  - repeat split.
  - repeat split.
Qed.



(** *** A session that runs alone *)

Lemma events_app (es1 es2 : list Event) : forall h,
  run (es1 ++ es2) h =
  let (h1, out1) := run es1 h in
  let (h2, out2) := run es2 h1 in
  (h2, out1 ++ out2).
Proof.
  induction es1 as [|e es1 IH]; intros h; simpl.
  - destruct (run es2 h). reflexivity.
  - destruct (step e h) as [h1 o1]. rewrite IH.
    destruct (run es1 h1) as [h2 o2].
    destruct (run es2 h2) as [h3 o3].
    now rewrite app_assoc.
Qed.

(** While the interval is scheduled, [n] ticks add [n] to the counter and
    touch nothing else. *)
Lemma seconds_pass (n : nat) : forall h,
  timerRef h = true ->
  run (repeat Tick n) h =
  ({| isRecording := isRecording h;
      duration := duration h + Z.of_nat n;
      permissionError := permissionError h;
      mediaRecorderRef := mediaRecorderRef h;
      audioContextRef := audioContextRef h;
      analyserRef := analyserRef h;
      sourceRef := sourceRef h;
      streamRef := streamRef h;
      chunksRef := chunksRef h;
      timerRef := true;
      recorders := recorders h;
      streams := streams h;
      pending := pending h |}, []).
Proof.
  induction n as [|n IH]; intros h Ht.
  - simpl. rewrite Z.add_0_r. destruct h; simpl in *; subst; reflexivity.
  - cbn [repeat run step]. unfold tick at 1.
    rewrite Ht. rewrite IH by reflexivity. cbn.
    do 2 f_equal. lia.
Qed.

Lemma session_run r d pe mr ac an so st ch ti rs ss (n : nat) (data : Blob) :
  run (session n (List.length rs) data)
      (mkHook r d pe mr ac an so st ch ti rs ss []) =
  (mkHook false (0 + Z.of_nat n) None (Some (List.length rs))
          false false false None
          (match blob_bytes data with [] => [] | _ => [data] end) false
          (rs ++ [mkMediaRecorder done d]) (ss ++ [false]) [],
   [(Recorder.Blob_of (match blob_bytes data with [] => [] | _ => [data] end)
                      Recorder.audio_webm, d)]).
Proof.
  unfold session.
  change (CallStart :: GetUserMedia 0 started
            :: repeat Tick n ++ [CallStop; DataAvailable (List.length rs) data;
                                   Stop (List.length rs)])
    with ([CallStart; GetUserMedia 0 started]
            ++ repeat Tick n ++ [CallStop; DataAvailable (List.length rs) data;
                                   Stop (List.length rs)]).
  rewrite events_app.
  change (run [CallStart; GetUserMedia 0 started]
              (mkHook r d pe mr ac an so st ch ti rs ss []))
    with (mkHook true 0 None (Some (List.length rs)) true true true
                 (Some (List.length ss)) [] true
                 (rs ++ [mkMediaRecorder gathering d]) (ss ++ [true]) [],
          @nil Recorder.Completion).
  cbv iota beta. rewrite events_app, seconds_pass by reflexivity.
  cbn [isRecording duration permissionError mediaRecorderRef audioContextRef
       analyserRef sourceRef streamRef chunksRef timerRef recorders streams
       pending].
  cbn [run step].
  unfold stopRecording at 1. cbn [mediaRecorderRef]. unfold phaseOf at 1.
  cbn [recorders]. rewrite nth_error_snoc. cbn [option_map phase].
  unfold setPhase at 1. cbn [recorders]. rewrite nth_error_snoc.
  cbn [isRecording duration permissionError mediaRecorderRef audioContextRef
       analyserRef sourceRef streamRef chunksRef timerRef recorders streams
       pending onstop_duration].
  rewrite set_nth_snoc.
  unfold ondataavailable at 1. unfold phaseOf at 1.
  cbn [recorders]. rewrite nth_error_snoc. cbn [option_map phase].
  destruct (blob_bytes data) as [|b bytes];
    cbn [isRecording duration permissionError mediaRecorderRef audioContextRef
         analyserRef sourceRef streamRef chunksRef timerRef recorders streams
         pending app];
    unfold setPhase at 1; cbn [recorders]; rewrite nth_error_snoc;
    cbn [isRecording duration permissionError mediaRecorderRef audioContextRef
         analyserRef sourceRef streamRef chunksRef timerRef recorders streams
         pending onstop_duration];
    rewrite set_nth_snoc;
    unfold onstop at 1; cbn [recorders]; rewrite nth_error_snoc;
    cbn [phase onstop_duration chunksRef];
    unfold setPhase at 1; cbn [recorders]; rewrite nth_error_snoc;
    cbn [isRecording duration permissionError mediaRecorderRef audioContextRef
         analyserRef sourceRef streamRef chunksRef timerRef recorders streams
         pending onstop_duration];
    rewrite set_nth_snoc;
    unfold cleanupAudio;
    cbn [isRecording duration permissionError mediaRecorderRef audioContextRef
         analyserRef sourceRef streamRef chunksRef timerRef recorders streams
         pending onstop_duration];
    rewrite set_nth_snoc; reflexivity.
Qed.

(** X3. A session that runs alone, from any state in which no call of
    startRecording is waiting: the call, the grant, any number of
    seconds, the stop, then the data and the stop event of its recorder.
    It emits exactly one completion: a Blob typed audio/webm that holds
    exactly the bytes delivered (nothing left from an earlier session),
    with the duration that was on screen when startRecording was called,
    while the counter ends at the number of seconds.  Afterwards the flag is off, the interval is cleared, the
    stream of the session is stopped and the four refs are cleared. *)
Theorem session_completes_with_its_data :
  forall (h0 : Hook) (n : nat) (data : Blob),
    pending h0 = [] ->
    let i := List.length (recorders h0) in
    let final := fst (run (session n i data) h0) in
    snd (run (session n i data) h0) =
      [(mkBlob (blob_bytes data) Recorder.audio_webm, duration h0)] /\
    duration final = Z.of_nat n /\
    isRecording final = false /\ timerRef final = false /\
    streamRef final = None /\ audioContextRef final = false /\
    analyserRef final = false /\ sourceRef final = false /\
    nth_error (streams final) (List.length (streams h0)) = Some false /\
    phaseOf i final = Some done.
Proof.
  intros [r d pe mr ac an so st ch ti rs ss pd] n data Hp.
  cbn [pending] in Hp. subst pd. cbn zeta. cbn [recorders streams duration].
  rewrite session_run. cbn [fst snd].
  cbn [isRecording duration permissionError mediaRecorderRef audioContextRef
       analyserRef sourceRef streamRef chunksRef timerRef recorders streams
       pending].
  unfold phaseOf. cbn [recorders]. rewrite !nth_error_snoc.
  split.
  { unfold Recorder.Blob_of. destruct (blob_bytes data) as [|b bytes] eqn:B;
      cbn [List.map List.concat app]; [reflexivity|].
    now rewrite B, app_nil_r. }
  repeat split; reflexivity.
Qed.

(** X3 on the first session of the page, 125 seconds long: the
    completion carries the duration 0. *)
Lemma session_completes_with_its_data_witness :
  pending initial = [] /\
  snd (run (session 125 0 (mkBlob [26; 69; 223; 163]%N Recorder.audio_webm))
           initial)
    = [(mkBlob [26; 69; 223; 163]%N Recorder.audio_webm, 0%Z)] /\
  duration
    (fst (run (session 125 0 (mkBlob [26; 69; 223; 163]%N Recorder.audio_webm))
              initial))
    = 125%Z.
Proof.
  split; [reflexivity|].
  destruct (session_completes_with_its_data
              initial 125 (mkBlob [26; 69; 223; 163]%N Recorder.audio_webm)
              eq_refl) as (H1 & H2 & _).
  split; [exact H1 | exact H2].
Defined.

(** *** After the platform has stopped the recorder *)

Lemma setPhase_stuck (j : nat) (q : Phase) (h : Hook) :
  q <> gathering -> stuck h -> stuck (setPhase j q h).
Proof.
  intros Hq (H1 & H2 & i & p & Hi & Hp & Hne). unfold stuck.
  destruct (setPhase_frame j q h)
    as (E1 & _ & _ & E4 & _ & _ & _ & _ & _ & E10 & _).
  rewrite E1, E4, E10. split; [exact H1|]. split; [exact H2|].
  destruct (Nat.eq_dec j i) as [-> | Hji].
  - exists i, q. split; [exact Hi|]. split; [|exact Hq].
    now apply phaseOf_setPhase_same with (q := p).
  - exists i, p. split; [exact Hi|]. split; [|exact Hne].
    now rewrite phaseOf_setPhase_other.
Qed.

Lemma step_stuck (e : Event) (h : Hook) :
  stuck h -> startsNoSession e = true ->
  stuck (fst (step e h)) /\
  duration (fst (step e h)) =
    (duration h + Z.of_nat (ticksIn [e]))%Z.
Proof.
  intros Hs He.
  destruct e as [|k a| | |j|j data|j|n]; cbn [step fst ticksIn List.filter
                                               List.length Z.of_nat];
    rewrite ?Z.add_0_r.
  - split; [exact Hs | reflexivity].
  - unfold answer. destruct (nth_error (pending h) k) as [closure|];
      [|split; [exact Hs | reflexivity]].
    destruct Hs as (H1 & H2 & i & p & Hi & Hp & Hne).
    destruct a; try discriminate; cbn; (split; [|reflexivity]);
      unfold stuck; cbn; (split; [exact H1|]); (split; [exact H2|]).
    + exists i, p. repeat split; assumption.
    + exists i, p. repeat split; assumption.
    + exists i, p. repeat split; assumption.
    + exists (List.length (recorders h)), done.
      split; [reflexivity|]. split; [|discriminate].
      unfold phaseOf, refuse, holdRecorder. cbn [recorders].
      now rewrite nth_error_snoc.
  - destruct Hs as (H1 & H2 & i & p & Hi & Hp & Hne).
    unfold tick. rewrite H2. cbn. split; [|reflexivity].
    unfold stuck. cbn. split; [exact H1|]. split; [reflexivity|].
    exists i, p. repeat split; assumption.
  - assert (E : stopRecording h = h).
    { destruct Hs as (_ & _ & i & p & Hi & Hp & Hne).
      unfold stopRecording. rewrite Hi, Hp. destruct p; try reflexivity.
      now contradiction Hne. }
    rewrite E. split; [exact Hs | reflexivity].
  - unfold platformStop. destruct (phaseOf j h) as [[| | |]|];
      try (split; [exact Hs | reflexivity]).
    split; [apply setPhase_stuck; [discriminate | exact Hs]|].
    apply (setPhase_frame j flushing h).
  - unfold ondataavailable. destruct (phaseOf j h) as [[| | |]|];
      try (split; [exact Hs | reflexivity]).
    split.
    + apply setPhase_stuck; [discriminate|].
      destruct (blob_bytes data); exact Hs.
    + destruct (blob_bytes data);
        rewrite (proj1 (proj2 (setPhase_frame j closing _))); reflexivity.
  - unfold onstop. destruct (nth_error (recorders h) j) as [mr|];
      [|split; [exact Hs | reflexivity]].
    destruct (phase mr); try (split; [exact Hs | reflexivity]).
    cbn [fst].
    pose proof (setPhase_stuck j done h ltac:(discriminate) Hs) as Hs'.
    split.
    + exact Hs'.
    + change (duration (cleanupAudio (setPhase j done h)))
        with (duration (setPhase j done h)).
      apply (setPhase_frame j done h).
  - split; [exact Hs | reflexivity].
Qed.

Lemma ticksIn_cons (e : Event) (es : list Event) :
  ticksIn (e :: es) = (ticksIn [e] + ticksIn es)%nat.
Proof. unfold ticksIn. cbn [List.filter]. destruct e; reflexivity. Qed.

Lemma run_stuck (es : list Event) : forall h,
  stuck h -> forallb startsNoSession es = true ->
  stuck (fst (run es h)) /\
  duration (fst (run es h)) = (duration h + Z.of_nat (ticksIn es))%Z.
Proof.
  induction es as [|e es IH]; intros h Hs Hes.
  - cbn. rewrite Z.add_0_r. split; [exact Hs | reflexivity].
  - cbn [forallb] in Hes. apply andb_true_iff in Hes as [He Hes].
    cbn [run]. destruct (step_stuck e h Hs He) as [Hs1 Hd1].
    destruct (step e h) as [h1 o1]. cbn [fst] in Hs1, Hd1.
    destruct (IH h1 Hs1 Hes) as [Hs2 Hd2].
    destruct (run es h1) as [h2 o2]. cbn [fst] in *.
    split; [exact Hs2|]. rewrite Hd2, Hd1, (ticksIn_cons e es).
    rewrite Nat2Z.inj_add. apply Z.add_assoc || (symmetry; apply Z.add_assoc).
Qed.

(** X27. When the platform stops the recorder of a running session by
    itself (every track has ended, or an error), the hook is not told:
    whatever happens next, short of a new session, the flag stays on, the
    interval stays scheduled and the counter keeps counting, one second
    per tick; stopRecording does not end it, because the recorder in the
    ref is not gathering any more. *)
Theorem platform_stop_leaves_the_flag_on :
  forall (h : Hook) (i : nat) (es : list Event),
    isRecording h = true -> timerRef h = true ->
    mediaRecorderRef h = Some i -> phaseOf i h = Some gathering ->
    forallb startsNoSession es = true ->
    let h' := fst (run (PlatformStop i :: es) h) in
    isRecording h' = true /\ timerRef h' = true /\
    duration h' = (duration h + Z.of_nat (ticksIn es))%Z /\
    (exists j p, mediaRecorderRef h' = Some j /\ phaseOf j h' = Some p /\
                 p <> gathering) /\
    stopRecording h' = h'.
Proof.
  intros h i es H1 H2 Hi Hp Hes. cbn zeta. cbn [run step].
  assert (Hs : stuck (platformStop i h)).
  { unfold platformStop. rewrite Hp.
    destruct (setPhase_frame i flushing h)
      as (E1 & _ & _ & E4 & _ & _ & _ & _ & _ & E10 & _).
    unfold stuck. rewrite E1, E4, E10.
    split; [exact H1|]. split; [exact H2|].
    exists i, flushing. split; [exact Hi|]. split; [|discriminate].
    now apply phaseOf_setPhase_same with (q := gathering). }
  assert (Hd : duration (platformStop i h) = duration h).
  { unfold platformStop. rewrite Hp. apply (setPhase_frame i flushing h). }
  destruct (run_stuck es (platformStop i h) Hs Hes) as [Hs' Hd'].
  destruct (run es (platformStop i h)) as [h' o']. cbn [fst] in *.
  destruct Hs' as (G1 & G2 & j & p & Hj & Hpj & Hne).
  split; [exact G1|]. split; [exact G2|]. split; [now rewrite Hd', Hd|].
  split; [exists j, p; repeat split; assumption|].
  unfold stopRecording. rewrite Hj, Hpj. destruct p; try reflexivity.
  now contradiction Hne.
Qed.

(** X27 on the first session of the page: the platform stops the
    recorder, the user presses stop, and three more seconds pass. *)
Lemma platform_stop_leaves_the_flag_on_witness :
  isRecording (fst (run [CallStart; GetUserMedia 0 started] initial)) = true /\
  isRecording
    (fst (run [PlatformStop 0; CallStop; DataAvailable 0 (mkBlob [] []);
               Stop 0; Tick; Tick; Tick; CallStop]
              (fst (run [CallStart; GetUserMedia 0 started] initial))))
    = true /\
  duration
    (fst (run [PlatformStop 0; CallStop; DataAvailable 0 (mkBlob [] []);
               Stop 0; Tick; Tick; Tick; CallStop]
              (fst (run [CallStart; GetUserMedia 0 started] initial))))
    = 3%Z.
Proof.
  split; [reflexivity|].
  destruct (platform_stop_leaves_the_flag_on
              (fst (run [CallStart; GetUserMedia 0 started] initial)) 0
              [CallStop; DataAvailable 0 (mkBlob [] []); Stop 0;
               Tick; Tick; Tick; CallStop]
              eq_refl eq_refl eq_refl eq_refl eq_refl)
    as (H1 & _ & H3 & _).
  split; [exact H1 | exact H3].
Defined.

(** *** Streams that no ref holds *)

Lemma step_orphaned (n : nat) (e : Event) (h : Hook) :
  orphaned n h -> e <> TrackEnded n -> orphaned n (fst (step e h)).
Proof.
  intros [Hlive Href] He.
  assert (Hlt : (n < List.length (streams h))%nat).
  { apply nth_error_Some. congruence. }
  destruct e as [|k a| | |j|j data|j|m]; cbn [step fst].
  - split; assumption.
  - unfold answer. destruct (nth_error (pending h) k) as [closure|];
      [|split; assumption].
    destruct a; cbn; unfold orphaned; cbn;
      try (split; [assumption|assumption]);
      (split; [now apply nth_error_snoc_old|]);
      intros E; injection E as E; lia.
  - unfold tick. destruct (timerRef h); split; assumption.
  - unfold stopRecording. destruct (mediaRecorderRef h) as [i|];
      [|split; assumption].
    destruct (phaseOf i h) as [[| | |]|]; try (split; assumption).
    unfold orphaned.
    match goal with
    | |- context [setPhase i flushing ?x] =>
        destruct (setPhase_frame i flushing x)
          as (_ & _ & _ & _ & _ & _ & _ & E8 & _ & _ & E11 & _)
    end.
    rewrite E8, E11. split; assumption.
  - unfold platformStop. destruct (phaseOf j h) as [[| | |]|];
      try (split; assumption).
    unfold orphaned.
    destruct (setPhase_frame j flushing h)
      as (_ & _ & _ & _ & _ & _ & _ & E8 & _ & _ & E11 & _).
    rewrite E8, E11. split; assumption.
  - unfold ondataavailable. destruct (phaseOf j h) as [[| | |]|];
      try (split; assumption).
    unfold orphaned.
    match goal with
    | |- context [setPhase j closing ?x] =>
        destruct (setPhase_frame j closing x)
          as (_ & _ & _ & _ & _ & _ & _ & E8 & _ & _ & E11 & _)
    end.
    rewrite E8, E11. destruct (blob_bytes data); split; assumption.
  - unfold onstop. destruct (nth_error (recorders h) j) as [mr|];
      [|split; assumption].
    destruct (phase mr); try (split; assumption). cbn [fst].
    destruct (setPhase_frame j done h)
      as (_ & _ & _ & _ & _ & _ & _ & E8 & _ & _ & E11 & _).
    unfold orphaned, cleanupAudio. cbn [streams streamRef].
    rewrite E8, E11. split; [|discriminate].
    destruct (streamRef h) as [m|]; [|exact Hlive].
    rewrite set_nth_other; [exact Hlive|]. congruence.
  - unfold orphaned, trackEnded. cbn [streams streamRef].
    split; [|exact Href].
    rewrite set_nth_other; [exact Hlive|]. congruence.
Qed.

(** X28. Only cleanupAudio stops the tracks of a stream, and only of the
    stream in streamRef.  Every grant puts a new stream there without
    stopping the one it replaces (the stream of a start that failed after
    the grant, or of a session that is still running).  A live stream
    that the ref no longer holds is never stopped by the hook: as long as
    its tracks do not end by themselves, the microphone stays held,
    whatever happens. *)
Theorem orphaned_stream_is_never_stopped :
  forall (h : Hook) (n : nat),
    (forall k a closure,
        streamRef h = Some n ->
        nth_error (streams h) n = Some true ->
        nth_error (pending h) k = Some closure ->
        a <> denied ->
        orphaned n (fst (step (GetUserMedia k a) h))) /\
    (forall es,
        orphaned n h ->
        Forall (fun e => e <> TrackEnded n) es ->
        orphaned n (fst (run es h)) /\
        microphoneHeld (fst (run es h)) = true).
Proof.
  intros h n. split.
  - intros k a closure Href Hlive Hk Ha. cbn [step fst]. unfold answer.
    rewrite Hk.
    assert (Hlt : (n < List.length (streams h))%nat).
    { apply nth_error_Some. congruence. }
    destruct a; try contradiction; cbn; unfold orphaned; cbn;
      (split; [now apply nth_error_snoc_old|]);
      intros E; injection E as E; lia.
  - intros es. revert h. induction es as [|e es IH]; intros h Ho Hes.
    + cbn [run fst]. split; [exact Ho|].
      unfold microphoneHeld. apply existsb_exists. exists true.
      split; [|reflexivity]. destruct Ho as [Hlive _].
      now apply nth_error_In with (n := n).
    + inversion Hes as [|? ? He Hes']; subst. cbn [run].
      pose proof (step_orphaned n e h Ho He) as Ho1.
      destruct (step e h) as [h1 o1]. cbn [fst] in Ho1.
      specialize (IH h1 Ho1 Hes').
      destruct (run es h1) as [h2 o2]. exact IH.
Qed.

End SessionFacts.


(* ================================================================== *)
(** ** Invariants of the registry *)

Module RegistryFacts.
Import Js JsFacts App AppFacts Shapes.

(** A property of records that the four ways of building a record keep
    is kept by every action. *)
Section Preservation.
Variable P : JsVal -> Prop.
Hypothesis P_new : forall closureLen newId now blob duration,
  P (newRecording closureLen newId now blob duration).
Hypothesis P_complete : forall fs result,
  P (VObj fs) ->
  P (spread_with (VObj fs)
       [ (k_status, VStr s_completed);
         (k_data, NoteData_value result);
         (k_title, js_or (extractTitle (summary result))
                         (get (VObj fs) k_title)) ]).
Hypothesis P_fail : forall fs,
  P (VObj fs) ->
  P (spread_with (VObj fs)
       [ (k_status, VStr s_error); (k_errorMessage, VStr s_analysisFailed) ]).
Hypothesis P_rename : forall fs t s,
  P (VObj fs) ->
  P (spread_with (VObj fs)
       [ (k_title, VStr t);
         (k_subject, js_or (VStr (trim s)) (VStr s_etc)) ]).

Lemma map_by_id_keeps (f : JsVal -> JsVal) (i : jsstring) (recs : list JsVal) :
  (forall fs, P (VObj fs) -> P (f (VObj fs))) ->
  Forall P recs ->
  Forall P (List.map (fun rec => if strict_eq_str (get rec k_id) i
                                 then f rec else rec) recs).
Proof.
  intros Hf Hall. induction Hall as [|rec recs Hrec _ IH]; constructor.
  - destruct (strict_eq_str (get rec k_id) i) eqn:E; [|exact Hrec].
    destruct (matching_is_object _ _ _ E) as [fs ->]. now apply Hf.
  - exact IH.
Qed.

Lemma dispatch_keeps (a : Action) (st : AppState) :
  Forall P (recordings st) -> Forall P (recordings (fst (dispatch a st))).
Proof.
  intros Hall. destruct a; cbn [dispatch]; try exact Hall.
  - cbn. constructor; [apply P_new | exact Hall].
  - cbn. apply map_by_id_keeps; [|exact Hall]. intros fs. apply P_complete.
  - cbn. apply map_by_id_keeps; [|exact Hall]. intros fs. apply P_fail.
  - unfold deleteRecording. destruct confirmed; [|exact Hall].
    assert (Hsub : Forall P
              (List.filter (fun r => negb (strict_eq_str (get r k_id) id))
                           (recordings st))).
    { apply Forall_forall. intros r Hr. apply filter_In in Hr as [Hr _].
      revert r Hr. now apply Forall_forall. }
    destruct (option_eqb (selectedId st) id); exact Hsub.
  - unfold saveEdit. destruct (editingId st) as [[|c i]|]; try exact Hall.
    cbn. apply map_by_id_keeps; [|exact Hall]. intros fs. apply P_rename.
  - unfold clickRow.
    destruct (strict_eq_str (get rec k_status) s_processing); [exact Hall|].
    destruct (strict_eq_str (get rec k_status) s_completed); [|exact Hall].
    destruct (get rec k_id); exact Hall.
  - unfold clickRetry. destruct (renderMain st) as [|props|] eqn:R; try exact Hall.
    destruct (showsRetryButton (recording props)); [|exact Hall].
    unfold renderMain in R. destruct (view st); [|discriminate].
    destruct (selectedRecording st); [|discriminate].
    injection R as <-. exact Hall.
Qed.

Lemma runActions_keeps (acts : list Action) : forall st,
  Forall P (recordings st) -> Forall P (recordings (fst (runActions acts st))).
Proof.
  induction acts as [|a acts IH]; intros st Hall; [exact Hall|].
  cbn [runActions].
  pose proof (dispatch_keeps a st Hall) as Hstep.
  destruct (dispatch a st) as [st1 o1]. cbn [fst] in Hstep.
  specialize (IH st1 Hstep).
  destruct (runActions acts st1) as [st2 o2]. exact IH.
Qed.

End Preservation.

(** *** Records are filed objects *)

Lemma spread_filed fs ovs :
  truthy (get (spread_with (VObj fs) ovs) k_subject) = true ->
  filed (spread_with (VObj fs) ovs).
Proof. intros H. split; [reflexivity | exact H]. Qed.

Lemma rehydrated_filed item rec :
  rehydrate_item item = Some rec -> filed rec.
Proof.
  unfold rehydrate_item. intros H.
  assert (Hrec : rec = spread_with item
            [ (k_subject, js_or (get item k_subject) (VStr s_etc));
              (k_date, VDate (get item k_date));
              (k_status, if strict_eq_str (get item k_status) s_processing
                         then VStr s_error else get item k_status);
              (k_errorMessage,
                 if strict_eq_str (get item k_status) s_processing
                 then VStr s_interrupted else get item k_errorMessage) ]).
  { destruct (unprintable (get item k_date));
      destruct item; try discriminate; now injection H as <-. }
  subst rec. split; [reflexivity|].
  rewrite get_spread_with. cbn [rev app assoc fst snd].
  change (jsstring_eqb k_errorMessage k_subject) with false.
  change (jsstring_eqb k_status k_subject) with false.
  change (jsstring_eqb k_date k_subject) with false.
  change (jsstring_eqb k_subject k_subject) with true.
  cbn match. unfold js_or.
  destruct (truthy (get item k_subject)) eqn:T; [exact T | reflexivity].
Qed.

Lemma initial_filed hasWindow savedData :
  Forall filed (initialRecordings hasWindow savedData).
Proof.
  apply Forall_forall. intros rec.
  unfold initialRecordings, loadRecordings.
  destruct hasWindow; [|intros []]. cbn [negb].
  destruct savedData as [text|]; [|intros []].
  destruct (text_truthy text); [|intros []].
  destruct (JSON_parse text) as [v|]; [|intros []].
  destruct v; try (intros []).
  destruct (map_or_throw rehydrate_item items) as [recs|] eqn:M; [|intros []].
  cbn [fst]. intros Hin.
  destruct (Rehydration.map_or_throw_In _ _ _ _ M Hin) as (item & _ & Hitem).
  now apply rehydrated_filed with (item := item).
Qed.

(** X4. Whatever snapshot the application starts from and whatever
    happens afterwards, every record of the registry is a plain object
    whose subject is not falsy; so a subject that is a string is never
    the empty string.  (A subject need not be a string: a stored subject
    that is the empty array is truthy, and such a record is filed under
    the empty folder name.) *)
Theorem records_are_always_filed :
  forall (hasWindow : bool) (savedData : option StoredText)
         (acts : list Action),
    Forall (fun rec => is_object rec = true /\
                       truthy (get rec k_subject) = true /\
                       (forall subject, get rec k_subject = VStr subject ->
                                        subject <> []))
           (recordings (fst (runActions acts (mount hasWindow savedData)))) /\
    (forall (Date_toString : JsVal -> jsstring) (rec : JsVal),
        get rec k_subject = VArr [] ->
        truthy (get rec k_subject) = true /\
        Folders.folderOf Date_toString rec = Some []).
Proof.
  intros hasWindow savedData acts. split.
  - assert (H : Forall filed
                  (recordings
                     (fst (runActions acts (mount hasWindow savedData))))).
    { apply (runActions_keeps filed).
      - intros. split; reflexivity.
      - intros fs result [_ Hs]. apply spread_filed.
        rewrite get_spread_object. exact Hs.
      - intros fs [_ Hs]. apply spread_filed.
        rewrite get_spread_object. exact Hs.
      - intros fs t s _. apply spread_filed.
        rewrite get_spread_object. cbn [rev app assoc fst snd].
        change (jsstring_eqb k_subject k_subject) with true. cbn match.
        unfold js_or.
        destruct (truthy (VStr (trim s))) eqn:T; [exact T | reflexivity].
      - apply initial_filed. }
    eapply Forall_impl; [|exact H].
    intros rec [Hobj Hs]. split; [exact Hobj|]. split; [exact Hs|].
    intros subject E. rewrite E in Hs. now destruct subject.
  - intros D rec E. unfold Folders.folderOf, js_or. rewrite E.
    split; reflexivity.
Qed.

(** *** Statuses and what comes with them *)

Lemma runActions_keeps_lifecycleStatus (acts : list Action) (st : AppState) :
  Forall lifecycleStatus (recordings st) ->
  Forall lifecycleStatus (recordings (fst (runActions acts st))).
Proof.
  apply (runActions_keeps lifecycleStatus).
  - intros. left. reflexivity.
  - intros fs result _. right. left. now rewrite get_spread_object.
  - intros fs _. right. right. now rewrite get_spread_object.
  - intros fs t s H. unfold lifecycleStatus in *.
    rewrite get_spread_object. exact H.
Qed.

(** X5. If every record has one of the statuses 'processing',
    'completed' and 'error', so has every record after any sequence of
    actions: the application never writes the status 'recorded' of the
    type, nor any other. *)
Theorem only_lifecycle_statuses :
  forall (st : AppState) (acts : list Action),
    Forall lifecycleStatus (recordings st) ->
    Forall (fun rec => get rec k_status = VStr s_processing \/
                       get rec k_status = VStr s_completed \/
                       get rec k_status = VStr s_error)
           (recordings (fst (runActions acts st))).
Proof.
  intros st acts H. now apply runActions_keeps_lifecycleStatus.
Qed.

(** X5 from an empty store, through two captures, an analysis and a
    rename. *)
Lemma only_lifecycle_statuses_witness :
  Forall lifecycleStatus (recordings (mount true None)) /\
  Forall (fun rec => get rec k_status = VStr s_processing \/
                     get rec k_status = VStr s_completed \/
                     get rec k_status = VStr s_error)
         (recordings
            (fst (runActions
                    (captureComplete Samples.sampleCapture
                       :: Samples.interleaving Samples.lectureResult)
                    (mount true None)))).
Proof.
  assert (H : Forall lifecycleStatus (recordings (mount true None)))
    by constructor.
  split; [exact H|].
  exact (only_lifecycle_statuses (mount true None)
           (captureComplete Samples.sampleCapture
              :: Samples.interleaving Samples.lectureResult) H).
Defined.

Lemma runActions_keeps_outcomeAttached (acts : list Action) (st : AppState) :
  Forall outcomeAttached (recordings st) ->
  Forall outcomeAttached (recordings (fst (runActions acts st))).
Proof.
  apply (runActions_keeps outcomeAttached).
  - intros. split; cbn; discriminate.
  - intros fs result _. split; rewrite !get_spread_object.
    + intros _. reflexivity.
    + cbn. discriminate.
  - intros fs _. split; rewrite !get_spread_object.
    + cbn. discriminate.
    + intros _. reflexivity.
  - intros fs t s H. unfold outcomeAttached in *.
    rewrite !get_spread_object. exact H.
Qed.

(** X6. If every completed record has its notes and every errored record
    has an error message, the same holds after any sequence of actions:
    status and outcome are always written together. *)
Theorem outcome_comes_with_status :
  forall (st : AppState) (acts : list Action),
    Forall outcomeAttached (recordings st) ->
    Forall (fun rec =>
              (get rec k_status = VStr s_completed ->
               truthy (get rec k_data) = true) /\
              (get rec k_status = VStr s_error ->
               truthy (get rec k_errorMessage) = true))
           (recordings (fst (runActions acts st))).
Proof.
  intros st acts H. now apply runActions_keeps_outcomeAttached.
Qed.

(** X6 from an empty store. *)
Lemma outcome_comes_with_status_witness :
  Forall outcomeAttached (recordings (mount true None)) /\
  Forall (fun rec =>
            (get rec k_status = VStr s_completed ->
             truthy (get rec k_data) = true) /\
            (get rec k_status = VStr s_error ->
             truthy (get rec k_errorMessage) = true))
         (recordings
            (fst (runActions
                    (captureComplete Samples.sampleCapture
                       :: Samples.interleaving Samples.lectureResult)
                    (mount true None)))).
Proof.
  assert (H : Forall outcomeAttached (recordings (mount true None)))
    by constructor.
  split; [exact H|].
  exact (outcome_comes_with_status (mount true None)
           (captureComplete Samples.sampleCapture
              :: Samples.interleaving Samples.lectureResult) H).
Defined.

(** *** Ids *)

Lemma ids_map_by_id (f : JsVal -> JsVal) (i : jsstring) (recs : list JsVal) :
  (forall fs, get (f (VObj fs)) k_id = get (VObj fs) k_id) ->
  ids (List.map (fun rec => if strict_eq_str (get rec k_id) i
                            then f rec else rec) recs) = ids recs.
Proof.
  intros Hf. induction recs as [|rec recs IH]; [reflexivity|].
  cbn [List.map ids]. fold (ids recs) in *. unfold ids in IH |- *.
  cbn [List.map]. rewrite IH. f_equal.
  destruct (strict_eq_str (get rec k_id) i) eqn:E; [|reflexivity].
  destruct (matching_is_object _ _ _ E) as [fs ->]. apply Hf.
Qed.

Lemma ids_filter (i : jsstring) (recs : list JsVal) :
  ids (List.filter (fun r => negb (strict_eq_str (get r k_id) i)) recs) =
  List.filter (fun v => negb (strict_eq_str v i)) (ids recs).
Proof.
  induction recs as [|rec recs IH]; [reflexivity|].
  unfold ids in *. cbn [List.filter List.map].
  destruct (negb (strict_eq_str (get rec k_id) i)); cbn [List.map];
    now rewrite IH.
Qed.

Lemma ids_after (a : Action) (st : AppState) :
  ids (recordings (fst (dispatch a st))) =
  match a with
  | CaptureComplete _ newId _ _ _ => VStr newId :: ids (recordings st)
  | DeleteRecording id true =>
      List.filter (fun v => negb (strict_eq_str v id)) (ids (recordings st))
  | _ => ids (recordings st)
  end.
Proof.
  destruct a; try reflexivity; cbn [dispatch].
  - cbn. apply ids_map_by_id. intros fs. now rewrite get_spread_object.
  - cbn. apply ids_map_by_id. intros fs. now rewrite get_spread_object.
  - unfold deleteRecording. destruct confirmed; [|reflexivity].
    rewrite <- ids_filter.
    destruct (option_eqb (selectedId st) id); reflexivity.
  - unfold saveEdit. destruct (editingId st) as [[|c i]|]; try reflexivity.
    cbn. apply ids_map_by_id. intros fs. now rewrite get_spread_object.
  - unfold clickRow.
    destruct (strict_eq_str (get rec k_status) s_processing); [reflexivity|].
    destruct (strict_eq_str (get rec k_status) s_completed); [|reflexivity].
    destruct (get rec k_id); reflexivity.
  - unfold clickRetry. destruct (renderMain st) as [|props|] eqn:R; try reflexivity.
    destruct (showsRetryButton (recording props)); [|reflexivity].
    unfold renderMain in R. destruct (view st); [|discriminate].
    destruct (selectedRecording st); [|discriminate].
    injection R as <-. reflexivity.
Qed.

(** X7. No action rewrites an id: a capture completion puts its new id
    in front, a confirmed deletion removes the occurrences of the deleted
    id, and every other action leaves the ids of the registry as they
    are, in order.  Hence ids that are pairwise distinct stay so, as long
    as each new capture gets an id that no record has. *)
Theorem ids_are_immutable :
  forall (a : Action) (st : AppState),
    ids (recordings (fst (dispatch a st))) =
      match a with
      | CaptureComplete _ newId _ _ _ => VStr newId :: ids (recordings st)
      | DeleteRecording id true =>
          List.filter (fun v => negb (strict_eq_str v id)) (ids (recordings st))
      | _ => ids (recordings st)
      end /\
    (NoDup (ids (recordings st)) ->
     (forall closureLen newId now blob duration,
         a = CaptureComplete closureLen newId now blob duration ->
         ~ In (VStr newId) (ids (recordings st))) ->
     NoDup (ids (recordings (fst (dispatch a st))))).
Proof.
  intros a st. split; [apply ids_after|].
  intros Hnd Hfresh. rewrite ids_after.
  destruct a; try exact Hnd.
  - constructor; [|exact Hnd]. now apply (Hfresh closureLen newId now blob duration).
  - destruct confirmed; [|exact Hnd]. now apply NoDup_filter.
Qed.

(** *** The stored snapshot *)

Lemma pageStep_keeps_snapshot (J : Rendering.Jsx) (a : Expansion.ScreenAction)
      (p : Rendering.Page) :
  Rendering.snapshotCurrent p ->
  Rendering.snapshotCurrent (Rendering.pageStep J a p).
Proof.
  unfold Rendering.snapshotCurrent, Rendering.pageStep. intros Hcur.
  destruct (Rendering.mounted p) eqn:Hm;
    [|intros H; rewrite Hm in H; discriminate].
  destruct (Rendering.renders J (Expansion.screenStep a (Rendering.screen p)));
    cbn [Rendering.mounted Rendering.storage Rendering.screen];
    [|discriminate].
  intros _.
  destruct (Rendering.callsSetRecordings a (Rendering.screen p)) eqn:Hc;
    [reflexivity|].
  rewrite (Hcur eq_refl). unfold Rendering.persist.
  now rewrite (Persistence.screenStep_keeps_registry a _ Hc).
Qed.

Lemma runPage_keeps_snapshot (J : Rendering.Jsx)
      (acts : list Expansion.ScreenAction) : forall p,
  Rendering.snapshotCurrent p ->
  Rendering.snapshotCurrent (Rendering.runPage J acts p).
Proof.
  induction acts as [|a acts IH]; intros p Hp; [exact Hp|].
  cbn [Rendering.runPage fold_left]. apply IH.
  now apply pageStep_keeps_snapshot.
Qed.

(** Nothing happens on a page that has been unmounted. *)
Lemma runPage_unmounted (J : Rendering.Jsx)
      (acts : list Expansion.ScreenAction) (p : Rendering.Page) :
  Rendering.mounted p = false -> Rendering.runPage J acts p = p.
Proof.
  intros Hm. induction acts as [|a acts IH]; [reflexivity|].
  cbn [Rendering.runPage fold_left]. unfold Rendering.pageStep at 2.
  rewrite Hm. exact IH.
Qed.

(** X8. As long as every render has committed, after every action
    localStorage holds exactly the serialization of the registry on
    screen, whatever the page found there.  When the first render throws,
    the page never writes the item: it stays as it was found.  And once
    a render has thrown, nothing that happens later changes the state or
    the stored item. *)
Theorem snapshot_is_current_while_mounted :
  forall (J : Rendering.Jsx) (savedData : option StoredText)
         (acts : list Expansion.ScreenAction),
    let p := Rendering.runPage J acts (Rendering.openPage J savedData) in
    (Rendering.mounted p = true ->
     Rendering.storage p =
       Rendering.Written
         (JSON_stringify
            (VArr (recordings (Expansion.app (Rendering.screen p)))))) /\
    (Rendering.renders J (Rendering.firstScreen savedData) = false ->
     Rendering.mounted p = false /\
     Rendering.storage p = Rendering.AsFound savedData) /\
    (Rendering.mounted p = false ->
     forall more, Rendering.runPage J more p = p).
Proof.
  intros J savedData acts p. split; [|split].
  - subst p. apply runPage_keeps_snapshot.
    unfold Rendering.snapshotCurrent, Rendering.openPage.
    destruct (Rendering.renders J (Rendering.firstScreen savedData));
      cbn [Rendering.mounted Rendering.storage Rendering.screen];
      [|discriminate].
    intros _. reflexivity.
  - intros Hfirst. subst p. unfold Rendering.openPage. rewrite Hfirst.
    rewrite runPage_unmounted by reflexivity. split; reflexivity.
  - intros Hm more. now apply runPage_unmounted.
Qed.

End RegistryFacts.


(* ================================================================== *)
(** ** Deleting and renaming *)

Module EditFacts.
Import Js JsFacts App AppFacts Shapes.

(** *** [trim] *)

Lemma trim_start_split (s : jsstring) :
  exists spaces, s = spaces ++ trim_start s /\ forallb is_space spaces = true.
Proof.
  induction s as [|c s (sp & Hs & Hsp)].
  - exists []. split; reflexivity.
  - cbn [trim_start]. destruct (is_space c) eqn:E.
    + exists (c :: sp). split; [cbn; congruence | cbn; now rewrite E].
    + exists []. split; reflexivity.
Qed.

Lemma trim_start_head (s : jsstring) :
  match trim_start s with
  | c :: _ => is_space c = false
  | [] => True
  end.
Proof.
  induction s as [|c s IH]; [exact I|].
  cbn [trim_start]. destruct (is_space c) eqn:E; [exact IH | exact E].
Qed.

Lemma forallb_rev (f : N -> bool) (l : list N) :
  forallb f (rev l) = forallb f l.
Proof.
  induction l as [|x l IH]; [reflexivity|].
  cbn [rev]. rewrite forallb_app, IH. cbn. rewrite andb_true_r. apply andb_comm.
Qed.

(** [trim] removes white space from the two ends and nothing else. *)
Lemma trim_split (s : jsstring) :
  exists before after,
    s = before ++ trim s ++ after /\
    forallb is_space before = true /\ forallb is_space after = true /\
    trimmedEnds (trim s).
Proof.
  destruct (trim_start_split s) as (before & Hs & Hb).
  destruct (trim_start_split (rev (trim_start s))) as (sp & Hr & Hsp).
  assert (Hmid : trim_start s = trim s ++ rev sp).
  { unfold trim. rewrite <- rev_app_distr, <- Hr. now rewrite rev_involutive. }
  exists before, (rev sp). split; [congruence|]. split; [exact Hb|].
  split; [now rewrite forallb_rev|].
  split.
  - pose proof (trim_start_head s) as Hh. rewrite Hmid in Hh.
    destruct (trim s); [exact I | exact Hh].
  - unfold trim. rewrite rev_involutive. apply trim_start_head.
Qed.

(** *** [saveEdit] *)

Lemma renameRecording_pointwise i t s prev :
  Forall2
    (fun rec rec' =>
       (forall k, k <> k_title -> k <> k_subject -> get rec' k = get rec k) /\
       (strict_eq_str (get rec k_id) i = false -> rec' = rec) /\
       (strict_eq_str (get rec k_id) i = true ->
        get rec' k_title = VStr t /\
        get rec' k_subject = js_or (VStr (trim s)) (VStr s_etc)))
    prev (renameRecording i t s prev).
Proof.
  apply map_Forall2. intros rec _.
  destruct (strict_eq_str (get rec k_id) i) eqn:E.
  - destruct (matching_is_object _ _ _ E) as [fs ->].
    split; [|split; [discriminate|]].
    + intros k H1 H2. now apply renameRecording_fields.
    + intros _. split; now rewrite get_spread_object.
  - split; [reflexivity|]. split; [reflexivity | discriminate].
Qed.

(** X9. Saving an edit closes the editor and touches only the records
    with the edited id, and of those only the title and the subject:
    status, notes, error message, id, date, duration and audio of every
    record stay as they were.  The title becomes the typed title, and the
    subject the typed subject without the white space around it, or '기타'
    when nothing else was typed; the new subject is never empty and never
    starts or ends with white space.  With no record being edited,
    saving does nothing. *)
Theorem saveEdit_renames_and_refiles :
  forall (st : AppState),
    ((editingId st = None \/ editingId st = Some []) ->
     dispatch SaveEdit st = (st, [])) /\
    (forall i,
        editingId st = Some i -> i <> [] ->
        let st' := fst (dispatch SaveEdit st) in
        editingId st' = None /\
        snd (dispatch SaveEdit st) = [] /\
        Forall2
          (fun rec rec' =>
             (forall k, k <> k_title -> k <> k_subject ->
                        get rec' k = get rec k) /\
             (strict_eq_str (get rec k_id) i = false -> rec' = rec) /\
             (strict_eq_str (get rec k_id) i = true ->
              get rec' k_title = VStr (editTitle st) /\
              exists subject,
                get rec' k_subject = VStr subject /\
                subject <> [] /\ trimmedEnds subject /\
                (trim (editSubject st) <> [] ->
                 subject = trim (editSubject st)) /\
                (trim (editSubject st) = [] -> subject = s_etc)))
          (recordings st) (recordings st')).
Proof.
  intros st. split.
  - intros [H | H]; cbn [dispatch]; unfold saveEdit; now rewrite H.
  - intros i Hi Hne st'. subst st'. cbn [dispatch]. unfold saveEdit.
    rewrite Hi. destruct i as [|c i]; [contradiction|].
    split; [reflexivity|]. split; [reflexivity|]. cbn [fst recordings setEditing setRecordings].
    eapply Forall2_impl;
      [|apply (renameRecording_pointwise (c :: i) (editTitle st) (editSubject st))].
    intros rec rec' (Hk & Hother & Hmatch).
    split; [exact Hk|]. split; [exact Hother|].
    intros E. destruct (Hmatch E) as [Ht Hs]. split; [exact Ht|].
    destruct (trim_split (editSubject st)) as (_ & _ & _ & _ & _ & Htrim).
    unfold js_or in Hs. cbn [truthy] in Hs.
    destruct (trim (editSubject st)) as [|d rest] eqn:T.
    + exists s_etc. split; [exact Hs|]. split; [discriminate|].
      split; [split; reflexivity|]. split; [congruence | reflexivity].
    + exists (d :: rest). split; [exact Hs|]. split; [discriminate|].
      split; [exact Htrim|]. split; [reflexivity | discriminate].
Qed.

(** *** [deleteRecording] *)

Lemma filter_neg_length {A} (f : A -> bool) (l : list A) :
  (List.length (List.filter (fun x => negb (f x)) l)
   + List.length (List.filter f l) = List.length l)%nat.
Proof.
  induction l as [|x l IH]; [reflexivity|].
  cbn [List.filter]. destruct (f x); cbn [negb List.length]; lia.
Qed.

Lemma filter_idem {A} (f : A -> bool) (l : list A) :
  List.filter f (List.filter f l) = List.filter f l.
Proof.
  induction l as [|x l IH]; [reflexivity|].
  cbn [List.filter]. destruct (f x) eqn:E; [|exact IH].
  cbn [List.filter]. now rewrite E, IH.
Qed.

(** Removing the records of one id and rewriting records by id, in
    either order, when the rewriting keeps ids. *)
Lemma filter_map_by_id (f : JsVal -> JsVal) (i j : jsstring) (recs : list JsVal) :
  (forall fs, get (f (VObj fs)) k_id = get (VObj fs) k_id) ->
  List.filter (fun r => negb (strict_eq_str (get r k_id) i))
    (List.map (fun rec => if strict_eq_str (get rec k_id) j
                          then f rec else rec) recs)
  = List.map (fun rec => if strict_eq_str (get rec k_id) j
                         then f rec else rec)
      (List.filter (fun r => negb (strict_eq_str (get r k_id) i)) recs).
Proof.
  intros Hf. induction recs as [|r recs IH]; [reflexivity|].
  cbn [List.map List.filter].
  assert (Hid : get (if strict_eq_str (get r k_id) j then f r else r) k_id
                = get r k_id).
  { destruct (strict_eq_str (get r k_id) j) eqn:E; [|reflexivity].
    destruct (matching_is_object _ _ _ E) as [fs ->]. apply Hf. }
  rewrite Hid.
  destruct (negb (strict_eq_str (get r k_id) i)); cbn [List.map]; now rewrite IH.
Qed.

Lemma recordings_deleteRecording id st :
  recordings (fst (deleteRecording id true st)) =
  List.filter (fun r => negb (strict_eq_str (get r k_id) id)) (recordings st).
Proof.
  unfold deleteRecording.
  destruct (option_eqb (selectedId st) id); reflexivity.
Qed.

(** X10. A confirmed deletion removes exactly the records with the given
    id and keeps the others in their order: the registry becomes the
    subsequence of its records with another id.  It asks the blob store to
    delete that id, and closes the selection if it was the deleted
    record.  Deleting again changes nothing more, and a deletion and the
    outcome of any analysis give the same registry in either order.  A
    deletion that the user does not confirm does nothing. *)
Theorem deleteRecording_removes_the_id :
  forall (id : jsstring) (st : AppState),
    let st' := fst (dispatch (DeleteRecording id true) st) in
    recordings st' =
      List.filter (fun r => negb (strict_eq_str (get r k_id) id))
                  (recordings st) /\
    (forall r, In r (recordings st') <->
               In r (recordings st) /\ strict_eq_str (get r k_id) id = false) /\
    (List.length (recordings st') + countId id (recordings st)
     = List.length (recordings st))%nat /\
    snd (dispatch (DeleteRecording id true) st) = [DeleteAudio id] /\
    selectedId st' =
      (if option_eqb (selectedId st) id then None else selectedId st) /\
    recordings (fst (dispatch (DeleteRecording id true) st')) = recordings st' /\
    (forall j result,
        recordings (fst (dispatch (DeleteRecording id true)
                           (fst (dispatch (AnalysisFulfilled j result) st))))
        = recordings (fst (dispatch (AnalysisFulfilled j result) st')) /\
        recordings (fst (dispatch (DeleteRecording id true)
                           (fst (dispatch (AnalysisRejected j) st))))
        = recordings (fst (dispatch (AnalysisRejected j) st'))) /\
    dispatch (DeleteRecording id false) st = (st, []).
Proof.
  intros id st st'. subst st'. cbn [dispatch].
  rewrite !recordings_deleteRecording.
  split; [reflexivity|].
  split; [|split; [|split; [|split; [|split; [|split]]]]].
  - intros r. rewrite filter_In, negb_true_iff. reflexivity.
  - unfold countId. apply filter_neg_length.
  - reflexivity.
  - unfold deleteRecording.
    destruct (option_eqb (selectedId st) id); reflexivity.
  - apply filter_idem.
  - intros j result. split.
    + rewrite recordings_deleteRecording.
      change (recordings (fst (analysisFulfilled j result
                                 (fst (deleteRecording id true st)))))
        with (completeRecording j result
                (recordings (fst (deleteRecording id true st)))).
      rewrite recordings_deleteRecording.
      change (recordings (fst (analysisFulfilled j result st)))
        with (completeRecording j result (recordings st)).
      unfold completeRecording. apply filter_map_by_id.
      intros fs. now rewrite get_spread_object.
    + rewrite recordings_deleteRecording.
      change (recordings (fst (analysisRejected j
                                 (fst (deleteRecording id true st)))))
        with (failRecording j (recordings (fst (deleteRecording id true st)))).
      rewrite recordings_deleteRecording.
      change (recordings (fst (analysisRejected j st)))
        with (failRecording j (recordings st)).
      unfold failRecording. apply filter_map_by_id.
      intros fs. now rewrite get_spread_object.
  - reflexivity.
Qed.

End EditFacts.


(* ================================================================== *)
(** ** Settling, reloading and opening a record *)

Module LifecycleFacts.
Import Js JsFacts App AppFacts Shapes.

(** X11. Only the completion of a capture brings a record in status
    'processing' into the registry: after any other action, every
    processing record stems from a processing record with the same id
    before it.  And once the analysis of an id has settled, every record
    with that id is 'completed' (on success) or 'error' (on failure): with
    no retry in the code, a settled record never goes back to
    'processing'. *)
Theorem processing_comes_only_from_capture :
  forall (st : AppState),
    (forall a r',
        (forall closureLen newId now blob duration,
            a <> CaptureComplete closureLen newId now blob duration) ->
        In r' (recordings (fst (dispatch a st))) ->
        get r' k_status = VStr s_processing ->
        exists r, In r (recordings st) /\
                  get r k_id = get r' k_id /\
                  get r k_status = VStr s_processing) /\
    (forall newId result r,
        In r (recordings (fst (dispatch (AnalysisFulfilled newId result) st))) ->
        strict_eq_str (get r k_id) newId = true ->
        get r k_status = VStr s_completed) /\
    (forall newId r,
        In r (recordings (fst (dispatch (AnalysisRejected newId) st))) ->
        strict_eq_str (get r k_id) newId = true ->
        get r k_status = VStr s_error).
Proof.
  intros st.
  assert (Hmap : forall (f : JsVal -> JsVal) (i : jsstring) (r' : JsVal),
             (forall fs, get (f (VObj fs)) k_id = get (VObj fs) k_id) ->
             (forall fs, get (f (VObj fs)) k_status = VStr s_processing ->
                         get (VObj fs) k_status = VStr s_processing) ->
             In r' (List.map (fun rec => if strict_eq_str (get rec k_id) i
                                         then f rec else rec) (recordings st)) ->
             get r' k_status = VStr s_processing ->
             exists r, In r (recordings st) /\ get r k_id = get r' k_id /\
                       get r k_status = VStr s_processing).
  { intros f i r' Hid Hst Hin Hp.
    apply in_map_iff in Hin as (r & <- & Hr).
    exists r. split; [exact Hr|].
    destruct (strict_eq_str (get r k_id) i) eqn:E; [|split; [reflexivity | exact Hp]].
    destruct (matching_is_object _ _ _ E) as [fs ->].
    split; [symmetry; apply Hid | now apply Hst]. }
  assert (Hsame : forall r', In r' (recordings st) ->
             get r' k_status = VStr s_processing ->
             exists r, In r (recordings st) /\ get r k_id = get r' k_id /\
                       get r k_status = VStr s_processing).
  { intros r' Hin Hp. exists r'. repeat split; assumption. }
  split; [|split].
  - intros a r' Hnot Hin Hp. destruct a; cbn [dispatch] in Hin;
      try (now apply Hsame).
    + exfalso. now apply (Hnot closureLen newId now blob duration).
    + cbn in Hin. revert Hin Hp. apply Hmap.
      * intros fs. now rewrite get_spread_object.
      * intros fs. rewrite get_spread_object. cbn. discriminate.
    + cbn in Hin. revert Hin Hp. apply Hmap.
      * intros fs. now rewrite get_spread_object.
      * intros fs. rewrite get_spread_object. cbn. discriminate.
    + destruct confirmed.
      * rewrite EditFacts.recordings_deleteRecording in Hin.
        apply filter_In in Hin as [Hin _]. now apply Hsame.
      * now apply Hsame.
    + unfold saveEdit in Hin.
      destruct (editingId st) as [[|c i]|]; try (now apply Hsame).
      cbn in Hin. revert Hin Hp. apply Hmap.
      * intros fs. now rewrite get_spread_object.
      * intros fs. now rewrite get_spread_object.
    + unfold clickRow in Hin.
      destruct (strict_eq_str (get rec k_status) s_processing);
        [now apply Hsame|].
      destruct (strict_eq_str (get rec k_status) s_completed);
        [|now apply Hsame].
      destruct (get rec k_id); now apply Hsame.
    + rewrite Retry.clickRetry_does_nothing in Hin. now apply Hsame.
  - intros newId result r Hin E. cbn in Hin.
    apply in_map_iff in Hin as (r0 & <- & _).
    destruct (strict_eq_str (get r0 k_id) newId) eqn:E0;
      [|rewrite E0 in E; discriminate].
    destruct (matching_is_object _ _ _ E0) as [fs ->].
    now rewrite get_spread_object.
  - intros newId r Hin E. cbn in Hin.
    apply in_map_iff in Hin as (r0 & <- & _).
    destruct (strict_eq_str (get r0 k_id) newId) eqn:E0;
      [|rewrite E0 in E; discriminate].
    destruct (matching_is_object _ _ _ E0) as [fs ->].
    now rewrite get_spread_object.
Qed.

(** *** A snapshot that cannot be mapped *)

Lemma map_or_throw_null (items : list JsVal) :
  In VNull items -> map_or_throw rehydrate_item items = None.
Proof.
  induction items as [|item items IH]; intros Hin; [destruct Hin|].
  cbn [map_or_throw]. destruct Hin as [-> | Hin]; [reflexivity|].
  destruct (rehydrate_item item); [|reflexivity].
  now rewrite (IH Hin).
Qed.

(** X12. Loading is all or nothing.  When the stored text is not empty
    and JSON.parse rejects it, or it parses to something that is not an
    array, or to an array with a null among its items or with an item
    whose date cannot be converted, the error is logged, no record at all
    is loaded (the well-formed ones are lost with the rest), the first
    render commits, and its effect overwrites the stored snapshot with
    the empty list. *)
Theorem unusable_snapshot_is_erased :
  forall (text : StoredText),
    text_truthy text = true ->
    (JSON_parse text = None \/
     exists v, JSON_parse text = Some v /\ unusable v) ->
    loadRecordings true (Some text) = ([], [ConsoleError]) /\
    recordings (mount true (Some text)) = [] /\
    (forall J : Rendering.Jsx,
        Rendering.mounted (Rendering.openPage J (Some text)) = true /\
        Rendering.storage (Rendering.openPage J (Some text))
          = Rendering.Written (Some (JArr []))).
Proof.
  intros text Ht H.
  assert (Hload : loadRecordings true (Some text) = ([], [ConsoleError])).
  { unfold loadRecordings. cbn [negb]. rewrite Ht.
    destruct H as [-> | (v & -> & Hv)]; [reflexivity|].
    destruct v; try reflexivity.
    cbn in Hv. destruct Hv as [Hnull | (item & Hin & Hdate)].
    - now rewrite (map_or_throw_null items Hnull).
    - now rewrite (map_or_throw_throws rehydrate_item items item Hin
                     (rehydrate_item_throws item Hdate)). }
  assert (Hmount : mount true (Some text) = mount true None).
  { unfold mount, initialRecordings. now rewrite Hload. }
  split; [exact Hload|]. split; [now rewrite Hmount|].
  intros J.
  unfold Rendering.openPage, Rendering.firstScreen, Expansion.mountScreen,
    Rendering.persist.
  rewrite Hmount. split; reflexivity.
Qed.

(** X12 on a snapshot of one good record and a null. *)
Lemma unusable_snapshot_is_erased_witness :
  text_truthy (Rendered (VArr [Samples.oldRecord; VNull])) = true /\
  unusable (VArr [Samples.oldRecord; VNull]) /\
  loadRecordings true (Some (Rendered (VArr [Samples.oldRecord; VNull])))
    = ([], [ConsoleError]) /\
  recordings (mount true (Some (Rendered (VArr [Samples.oldRecord; VNull]))))
    = [] /\
  Rendering.storage
    (Rendering.openPage Rendering.plainJsx
       (Some (Rendered (VArr [Samples.oldRecord; VNull]))))
    = Rendering.Written (Some (JArr [])).
Proof.
  assert (Hu : unusable (VArr [Samples.oldRecord; VNull])).
  { cbn. left. right. left. reflexivity. }
  split; [reflexivity|]. split; [exact Hu|].
  destruct (unusable_snapshot_is_erased
              (Rendered (VArr [Samples.oldRecord; VNull])) eq_refl
              (or_intror (ex_intro _ (VArr [Samples.oldRecord; VNull])
                                   (conj eq_refl Hu))))
    as (H1 & H2 & H3).
  split; [exact H1|]. split; [exact H2|].
  exact (proj2 (H3 Rendering.plainJsx)).
Defined.

(** *** Opening a row *)

Lemma find_by_unique_id (i : jsstring) (rec : JsVal) (recs : list JsVal) :
  NoDup (ids recs) -> In rec recs -> get rec k_id = VStr i ->
  List.find (fun r => strict_eq_str (get r k_id) i) recs = Some rec.
Proof.
  intros Hnd Hin Hid. induction recs as [|r recs IH]; [destruct Hin|].
  cbn [ids List.map] in Hnd. apply NoDup_cons_iff in Hnd as [Hnot Hnd].
  cbn [List.find]. destruct (strict_eq_str (get r k_id) i) eqn:E.
  - destruct Hin as [-> | Hin]; [reflexivity|].
    exfalso. apply Hnot. apply strict_eq_str_true in E. rewrite E, <- Hid.
    now apply (in_map (fun x => get x k_id)).
  - destruct Hin as [-> | Hin].
    + rewrite Hid in E. cbn in E. now rewrite jsstring_eqb_refl in E.
    + now apply IH.
Qed.

(** X13. In a registry with pairwise distinct ids, a click on the row of
    a completed record that has its notes opens NoteDetail on that very
    record, which shows the notes and neither the retry panel nor the
    spinner; a click on the row of a record that is not completed changes
    nothing. *)
Theorem opening_a_completed_row_shows_its_notes :
  forall (st : AppState) (rec : JsVal) (i : jsstring),
    NoDup (ids (recordings st)) ->
    In rec (recordings st) ->
    get rec k_id = VStr i ->
    (get rec k_status = VStr s_completed ->
     truthy (get rec k_data) = true ->
     exists props,
       renderMain (fst (dispatch (ClickRow rec) st)) = NoteDetailPane props /\
       recording props = rec /\
       NoteDetailView.renderContent rec = NoteDetailView.Notes (get rec k_data) /\
       showsRetryButton rec = false) /\
    (strict_eq_str (get rec k_status) s_completed = false ->
     dispatch (ClickRow rec) st = (st, [])).
Proof.
  intros st rec i Hnd Hin Hid. split.
  - intros Hs Hd. cbn [dispatch]. unfold clickRow. rewrite Hs, Hid.
    change (strict_eq_str (VStr s_completed) s_processing) with false.
    change (strict_eq_str (VStr s_completed) s_completed) with true.
    cbn [fst]. unfold renderMain, selectedRecording.
    cbn [view setView setSelectedId selectedId recordings].
    rewrite (find_by_unique_id i rec (recordings st) Hnd Hin Hid).
    eexists. split; [reflexivity|]. split; [reflexivity|].
    unfold NoteDetailView.renderContent, showsRetryButton. rewrite Hs, Hd.
    split; reflexivity.
  - intros Hs. cbn [dispatch]. unfold clickRow. rewrite Hs.
    destruct (strict_eq_str (get rec k_status) s_processing); reflexivity.
Qed.

(** X13 on the record of [Samples.sampleCapture] after its analysis
    succeeded. *)
Lemma opening_a_completed_row_shows_its_notes_witness :
  NoDup (ids (recordings afterSuccess)) /\
  In completedRecording (recordings afterSuccess) /\
  get completedRecording k_id = VStr (str "k3x9q2m1z") /\
  (get completedRecording k_status = VStr s_completed ->
   truthy (get completedRecording k_data) = true ->
   exists props,
     renderMain (fst (dispatch (ClickRow completedRecording) afterSuccess))
       = NoteDetailPane props /\
     recording props = completedRecording /\
     NoteDetailView.renderContent completedRecording
       = NoteDetailView.Notes (get completedRecording k_data) /\
     showsRetryButton completedRecording = false).
Proof.
  assert (Hnd : NoDup (ids (recordings afterSuccess))).
  { cbn. constructor; [intros [] | constructor]. }
  assert (Hin : In completedRecording (recordings afterSuccess)).
  { left. reflexivity. }
  split; [exact Hnd|]. split; [exact Hin|]. split; [reflexivity|].
  exact (proj1 (opening_a_completed_row_shows_its_notes
                  afterSuccess completedRecording (str "k3x9q2m1z")
                  Hnd Hin eq_refl)).
Defined.

End LifecycleFacts.


(* ================================================================== *)
(** ** [formatTime] and [blobToBase64] *)

Module UtilsFacts.
Import Js Utils.

(** *** Decimal text *)

Lemma digits_value_from_digit (a : ascii) (k : nat) (s : jsstring) (acc : nat) :
  N_of_ascii a = (48 + N.of_nat k)%N -> (k <= 9)%nat ->
  digits_value_from acc (N_of_ascii a :: s)
  = digits_value_from (10 * acc + k) s.
Proof.
  intros -> Hk. cbn [digits_value_from].
  assert (H1 : N.leb 48 (48 + N.of_nat k) = true) by (apply N.leb_le; lia).
  assert (H2 : N.leb (48 + N.of_nat k) 57 = true) by (apply N.leb_le; lia).
  rewrite H1, H2. cbn [andb].
  replace (N.to_nat (48 + N.of_nat k - 48)) with k by lia. reflexivity.
Qed.

Lemma digits_value_from_uint (d : Decimal.uint) : forall acc,
  digits_value_from acc (str (NilEmpty.string_of_uint d))
  = Some (Nat.of_uint_acc d acc).
Proof.
  unfold str.
  induction d; intros acc; cbn [NilEmpty.string_of_uint Nat.of_uint_acc];
    [reflexivity | ..]; cbn [list_ascii_of_string List.map].
  - rewrite (digits_value_from_digit _ 0) by (reflexivity || lia).
    rewrite IHd, Nat.tail_mul_spec. do 2 f_equal. lia.
  - rewrite (digits_value_from_digit _ 1) by (reflexivity || lia).
    rewrite IHd, Nat.tail_mul_spec. do 2 f_equal. lia.
  - rewrite (digits_value_from_digit _ 2) by (reflexivity || lia).
    rewrite IHd, Nat.tail_mul_spec. do 2 f_equal. lia.
  - rewrite (digits_value_from_digit _ 3) by (reflexivity || lia).
    rewrite IHd, Nat.tail_mul_spec. do 2 f_equal. lia.
  - rewrite (digits_value_from_digit _ 4) by (reflexivity || lia).
    rewrite IHd, Nat.tail_mul_spec. do 2 f_equal. lia.
  - rewrite (digits_value_from_digit _ 5) by (reflexivity || lia).
    rewrite IHd, Nat.tail_mul_spec. do 2 f_equal. lia.
  - rewrite (digits_value_from_digit _ 6) by (reflexivity || lia).
    rewrite IHd, Nat.tail_mul_spec. do 2 f_equal. lia.
  - rewrite (digits_value_from_digit _ 7) by (reflexivity || lia).
    rewrite IHd, Nat.tail_mul_spec. do 2 f_equal. lia.
  - rewrite (digits_value_from_digit _ 8) by (reflexivity || lia).
    rewrite IHd, Nat.tail_mul_spec. do 2 f_equal. lia.
  - rewrite (digits_value_from_digit _ 9) by (reflexivity || lia).
    rewrite IHd, Nat.tail_mul_spec. do 2 f_equal. lia.
Qed.

Lemma to_uint_not_nil (n : nat) : Nat.to_uint n <> Decimal.Nil.
Proof.
  intros H. pose proof (Unsigned.of_to n) as Hn. rewrite H in Hn.
  cbn in Hn. subst n. discriminate H.
Qed.

Lemma nat_toString_digits (n : nat) :
  nat_toString n = str (NilEmpty.string_of_uint (Nat.to_uint n)) /\
  nat_toString n <> [].
Proof.
  unfold nat_toString, NilZero.string_of_uint.
  pose proof (to_uint_not_nil n) as Hn.
  destruct (Nat.to_uint n); try contradiction; split; try reflexivity;
    discriminate.
Qed.

(** Reading back what [toString] prints. *)
Lemma digits_value_nat_toString (n : nat) : digits_value (nat_toString n) = Some n.
Proof.
  destruct (nat_toString_digits n) as [Hs Hne].
  unfold digits_value. destruct (nat_toString n) eqn:E; [contradiction|].
  rewrite Hs, digits_value_from_uint.
  f_equal. apply Unsigned.of_to.
Qed.

Lemma digits_value_from_digits (s : jsstring) : forall acc v,
  digits_value_from acc s = Some v ->
  forallb (fun c => N.leb 48 c && N.leb c 57) s = true.
Proof.
  induction s as [|c s IH]; intros acc v H; [reflexivity|].
  cbn [digits_value_from forallb] in *.
  destruct (N.leb 48 c && N.leb c 57); [|discriminate].
  cbn. now apply IH with (acc := (10 * acc + N.to_nat (c - 48))%nat) (v := v).
Qed.

(** The digits of a number, and nothing else. *)
Lemma nat_toString_all_digits (n : nat) :
  forallb (fun c => N.leb 48 c && N.leb c 57) (nat_toString n) = true.
Proof.
  pose proof (digits_value_nat_toString n) as H. unfold digits_value in H.
  destruct (nat_toString n) eqn:E; [discriminate|].
  now apply digits_value_from_digits with (acc := 0%nat) (v := n).
Qed.

Lemma int_toString_nonneg (z : Z) :
  (0 <= z)%Z -> int_toString z = nat_toString (Z.to_nat z).
Proof.
  destruct z; intros H; [reflexivity | reflexivity | lia].
Qed.

Lemma padStart2_length (s : jsstring) :
  (2 <= List.length (padStart2 s))%nat /\
  (List.length s <= 2 -> List.length (padStart2 s) = 2)%nat.
Proof.
  unfold padStart2. rewrite length_app, repeat_length. lia.
Qed.

Lemma padStart2_value (s : jsstring) :
  s <> [] -> digits_value (padStart2 s) = digits_value s.
Proof.
  intros Hne. unfold padStart2.
  destruct s as [|a [|b s]]; [contradiction | reflexivity | reflexivity].
Qed.

(** Numbers below one hundred print in at most two digits. *)
Lemma short_numbers (n : nat) :
  (n < 100)%nat -> (List.length (nat_toString n) <= 2)%nat.
Proof.
  intros H.
  assert (Hall : forallb (fun k => Nat.leb (List.length (nat_toString k)) 2)
                         (seq 0 100) = true) by (vm_compute; reflexivity).
  rewrite forallb_forall in Hall.
  apply Nat.leb_le. apply Hall. apply in_seq. lia.
Qed.

(** The two fields of a time. *)
Lemma formatTime_fields (seconds : Z) :
  (0 <= seconds <= MAX_SAFE_INTEGER)%Z ->
  let mm := padStart2 (nat_toString (Z.to_nat (seconds / 60))) in
  let ss := padStart2 (nat_toString (Z.to_nat (seconds mod 60))) in
  formatTime seconds = Some (mm ++ [58%N] ++ ss) /\
  List.length ss = 2%nat /\
  (2 <= List.length mm)%nat /\
  digits_value mm = Some (Z.to_nat (seconds / 60)) /\
  digits_value ss = Some (Z.to_nat (seconds mod 60)).
Proof.
  intros H mm ss. subst mm ss.
  assert (Hq : (0 <= seconds / 60)%Z) by (apply Z.div_pos; lia).
  assert (Hr : (0 <= seconds mod 60 < 60)%Z) by (apply Z.mod_pos_bound; lia).
  split; [|split; [|split; [|split]]].
  - unfold formatTime, safeInteger.
    assert (Hlo : Z.leb (- MAX_SAFE_INTEGER) seconds = true).
    { apply Z.leb_le. unfold MAX_SAFE_INTEGER in *. lia. }
    assert (Hhi : Z.leb seconds MAX_SAFE_INTEGER = true)
      by (apply Z.leb_le; lia).
    rewrite Hlo, Hhi. cbn [andb]. cbn zeta.
    rewrite Z.rem_mod_nonneg by lia.
    now rewrite !int_toString_nonneg by lia.
  - apply padStart2_length. apply short_numbers. lia.
  - apply padStart2_length.
  - rewrite padStart2_value by apply nat_toString_digits.
    apply digits_value_nat_toString.
  - rewrite padStart2_value by apply nat_toString_digits.
    apply digits_value_nat_toString.
Qed.

Lemma app_same_tail_length {A} (l1 l2 r1 r2 : list A) :
  List.length r1 = List.length r2 ->
  l1 ++ r1 = l2 ++ r2 -> l1 = l2 /\ r1 = r2.
Proof.
  intros Hlen Heq.
  assert (Hl : List.length l1 = List.length l2).
  { apply (f_equal (@List.length A)) in Heq. rewrite !length_app in Heq. lia. }
  revert l2 Hl Heq. induction l1 as [|x l1 IH]; intros [|y l2] Hl Heq;
    try discriminate.
  - split; [reflexivity | exact Heq].
  - cbn in Heq. injection Heq as -> Heq. injection Hl as Hl.
    destruct (IH l2 Hl Heq) as [-> ->]. split; reflexivity.
Qed.

(** X14. For a duration of zero or more whole seconds, up to the
    largest whole number that a double holds exactly, formatTime prints
    the minutes in at least two digits, a colon, and the seconds in
    exactly two digits; read back as numbers, the two fields are the
    quotient and the remainder of the duration by 60, so the seconds
    field is below 60 and two different durations of that range never
    print the same.  Below 100 minutes the text has exactly five
    characters. *)
Theorem formatTime_prints_minutes_and_seconds :
  forall (seconds : Z),
    (0 <= seconds <= MAX_SAFE_INTEGER)%Z ->
    (exists mm ss minutes secs,
        formatTime seconds = Some (mm ++ [58%N] ++ ss) /\
        (2 <= List.length mm)%nat /\ List.length ss = 2%nat /\
        digits_value mm = Some minutes /\ digits_value ss = Some secs /\
        (secs < 60)%nat /\
        (Z.of_nat minutes * 60 + Z.of_nat secs = seconds)%Z) /\
    (forall other, (0 <= other <= MAX_SAFE_INTEGER)%Z ->
                   formatTime other = formatTime seconds -> other = seconds) /\
    ((seconds < 6000)%Z ->
     exists text, formatTime seconds = Some text /\
                  List.length text = 5%nat).
Proof.
  intros seconds H.
  destruct (formatTime_fields seconds H) as (Hf & Hss & Hmm & Hvm & Hvs).
  assert (Hr : (0 <= seconds mod 60 < 60)%Z) by (apply Z.mod_pos_bound; lia).
  assert (Hq : (0 <= seconds / 60)%Z) by (apply Z.div_pos; lia).
  split; [|split].
  - do 4 eexists. split; [exact Hf|]. split; [exact Hmm|]. split; [exact Hss|].
    split; [exact Hvm|]. split; [exact Hvs|]. split; [lia|].
    rewrite !Z2Nat.id by lia. pose proof (Z.div_mod seconds 60). lia.
  - intros other Ho Heq.
    destruct (formatTime_fields other Ho) as (Hf' & Hss' & _ & Hvm' & Hvs').
    rewrite Hf, Hf' in Heq. injection Heq as Heq.
    assert (Htail : List.length
                      ([58%N] ++ padStart2 (nat_toString (Z.to_nat (other mod 60))))
                    = List.length
                      ([58%N] ++ padStart2 (nat_toString (Z.to_nat (seconds mod 60))))).
    { cbn [app List.length]. now rewrite Hss, Hss'. }
    destruct (app_same_tail_length _ _ _ _ Htail Heq) as [Em Es].
    injection Es as Es.
    rewrite Em in Hvm'. rewrite Es in Hvs'.
    rewrite Hvm in Hvm'. rewrite Hvs in Hvs'.
    injection Hvm' as Hm. injection Hvs' as Hs.
    assert (Hr' : (0 <= other mod 60 < 60)%Z) by (apply Z.mod_pos_bound; lia).
    assert (Hq' : (0 <= other / 60)%Z) by (apply Z.div_pos; lia).
    apply Z2Nat.inj in Hm; [|lia|lia]. apply Z2Nat.inj in Hs; [|lia|lia].
    pose proof (Z.div_mod seconds 60). pose proof (Z.div_mod other 60). lia.
  - intros Hlt. eexists. split; [exact Hf|].
    rewrite length_app. cbn [app List.length]. rewrite Hss.
    assert (Hm2 : List.length (padStart2 (nat_toString (Z.to_nat (seconds / 60))))
                  = 2%nat).
    { apply padStart2_length. apply short_numbers.
      assert ((seconds / 60 < 100)%Z) by (apply Z.div_lt_upper_bound; lia). lia. }
    rewrite Hm2. reflexivity.
Qed.

(** X14 at 125 seconds: '02:05'. *)
Lemma formatTime_prints_minutes_and_seconds_witness :
  (0 <= 125 <= MAX_SAFE_INTEGER)%Z /\
  formatTime 125 = Some (str "02:05") /\
  (forall other, (0 <= other <= MAX_SAFE_INTEGER)%Z ->
                 formatTime other = formatTime 125 -> other = 125%Z).
Proof.
  assert (H : (0 <= 125 <= MAX_SAFE_INTEGER)%Z)
    by (unfold MAX_SAFE_INTEGER; lia).
  split; [exact H|]. split; [reflexivity|].
  exact (proj1 (proj2 (formatTime_prints_minutes_and_seconds 125 H))).
Defined.

(** *** [blobToBase64] *)

Lemma split_no_separator (sep : N -> bool) (s : jsstring) :
  forallb (fun c => negb (sep c)) s = true -> split sep s = [s].
Proof.
  induction s as [|c s IH]; intros H; [reflexivity|].
  cbn [forallb] in H. apply andb_true_iff in H as [Hc Hs].
  cbn [split]. apply negb_true_iff in Hc. rewrite Hc, (IH Hs). reflexivity.
Qed.

Lemma split_at_first (sep : N -> bool) (before after : jsstring) (c : N) :
  forallb (fun x => negb (sep x)) before = true -> sep c = true ->
  split sep (before ++ c :: after) = before :: split sep after.
Proof.
  intros Hb Hc. induction before as [|x before IH]; cbn [app split].
  - now rewrite Hc.
  - cbn [forallb] in Hb. apply andb_true_iff in Hb as [Hx Hb].
    apply negb_true_iff in Hx. rewrite Hx, (IH Hb). reflexivity.
Qed.

Lemma base64_has_no_comma (payload : jsstring) :
  forallb base64_char payload = true ->
  forallb (fun c => negb (N.eqb 44 c)) payload = true.
Proof.
  intros H. apply forallb_forall. intros c Hc.
  rewrite forallb_forall in H. specialize (H c Hc).
  apply negb_true_iff. destruct (N.eqb_spec 44 c) as [<- | _]; [|reflexivity].
  vm_compute in H. discriminate H.
Qed.

(** X15. When the reader yields a data URL whose header has no comma and
    whose payload is base64 text, blobToBase64 resolves with exactly the
    payload.  A string result without any comma resolves with undefined
    rather than rejecting, and a result that is not a string rejects. *)
Theorem blobToBase64_returns_the_payload :
  forall (header payload : jsstring),
    forallb (fun c => negb (N.eqb 44 c)) header = true ->
    forallb base64_char payload = true ->
    blobToBase64_onloadend (VStr (header ++ [44%N] ++ payload))
      = Resolved (VStr payload) /\
    blobToBase64_onloadend (VStr header) = Resolved VUndef /\
    blobToBase64_onloadend VNull = Rejected.
Proof.
  intros header payload Hh Hp. split; [|split; [|reflexivity]].
  - unfold blobToBase64_onloadend. cbn [app].
    rewrite (split_at_first (N.eqb 44) header payload 44%N Hh eq_refl).
    rewrite (split_no_separator (N.eqb 44) payload (base64_has_no_comma payload Hp)).
    reflexivity.
  - unfold blobToBase64_onloadend.
    rewrite (split_no_separator (N.eqb 44) header Hh). reflexivity.
Qed.

(** X15 on 'data:audio/webm;base64,GkXfow=='. *)
Lemma blobToBase64_returns_the_payload_witness :
  forallb (fun c => negb (N.eqb 44 c)) (str "data:audio/webm;base64") = true /\
  forallb base64_char (str "GkXfow==") = true /\
  blobToBase64_onloadend (VStr (str "data:audio/webm;base64,GkXfow=="))
    = Resolved (VStr (str "GkXfow==")).
Proof.
  split; [reflexivity|]. split; [reflexivity|].
  exact (proj1 (blobToBase64_returns_the_payload
                  (str "data:audio/webm;base64") (str "GkXfow==")
                  eq_refl eq_refl)).
Defined.

End UtilsFacts.


(* ================================================================== *)
(** ** What [NoteDetail] shows and exports *)

Module NoteDetailFacts.
Import Js JsFacts App AppFacts NoteDetailView.

(** *** File names *)

Lemma underscore_runs_no_space (s : jsstring) : forall inRun,
  forallb (fun c => negb (is_space c)) (underscore_runs inRun s) = true.
Proof.
  induction s as [|c s IH]; intros inRun; [reflexivity|].
  cbn [underscore_runs]. destruct (is_space c) eqn:E.
  - destruct inRun; [apply IH|]. cbn [forallb].
    change (is_space 95) with false. cbn. apply IH.
  - cbn [forallb]. rewrite E. cbn. apply IH.
Qed.

Lemma underscore_runs_plain (s : jsstring) : forall inRun,
  forallb (fun c => negb (is_space c)) s = true ->
  underscore_runs inRun s = s.
Proof.
  induction s as [|c s IH]; intros inRun H; [reflexivity|].
  cbn [forallb] in H. apply andb_true_iff in H as [Hc Hs].
  apply negb_true_iff in Hc. cbn [underscore_runs]. rewrite Hc.
  now rewrite (IH false Hs).
Qed.

Lemma underscore_runs_length (s : jsstring) : forall inRun,
  (List.length (underscore_runs inRun s) <= List.length s)%nat.
Proof.
  induction s as [|c s IH]; intros inRun; [reflexivity|].
  cbn [underscore_runs]. destruct (is_space c).
  - destruct inRun; cbn [List.length].
    + specialize (IH true). lia.
    + specialize (IH true). lia.
  - cbn [List.length]. specialize (IH false). lia.
Qed.

Lemma endsWithSpace_cons (c : N) (s : jsstring) :
  s <> [] -> endsWithSpace (c :: s) = endsWithSpace s.
Proof.
  intros Hne. unfold endsWithSpace. cbn [rev].
  destruct (rev s) as [|d r] eqn:E; [|reflexivity].
  apply (f_equal (@rev N)) in E. rewrite rev_involutive in E. contradiction.
Qed.

(** After a piece that does not end with white space, a run starts
    afresh. *)
Lemma underscore_runs_app (before rest : jsstring) : forall inRun,
  before <> [] -> endsWithSpace before = false ->
  underscore_runs inRun (before ++ rest) =
  underscore_runs inRun before ++ underscore_runs false rest.
Proof.
  induction before as [|c before IH]; intros inRun Hne Hend; [contradiction|].
  destruct before as [|d before].
  - unfold endsWithSpace in Hend. cbn in Hend.
    cbn [app underscore_runs]. rewrite Hend. reflexivity.
  - rewrite endsWithSpace_cons in Hend by discriminate.
    change ((c :: d :: before) ++ rest) with (c :: ((d :: before) ++ rest)).
    cbn [underscore_runs]. destruct (is_space c).
    + destruct inRun; rewrite IH by (discriminate || exact Hend);
        reflexivity.
    + rewrite IH by (discriminate || exact Hend). reflexivity.
Qed.

(** Inside a run, white space adds nothing. *)
Lemma underscore_runs_skip (run rest : jsstring) :
  forallb is_space run = true ->
  underscore_runs true (run ++ rest) = underscore_runs true rest.
Proof.
  induction run as [|c run IH]; intros H; [reflexivity|].
  cbn [forallb] in H. apply andb_true_iff in H as [Hc Hrun].
  cbn [app underscore_runs]. rewrite Hc. now apply IH.
Qed.

Lemma underscore_runs_restart (rest : jsstring) :
  startsWithSpace rest = false ->
  underscore_runs true rest = underscore_runs false rest.
Proof.
  destruct rest as [|c rest]; [reflexivity|].
  cbn [startsWithSpace underscore_runs]. now intros ->.
Qed.

Lemma replace_spaces_run (before run after : jsstring) :
  run <> [] -> forallb is_space run = true ->
  endsWithSpace before = false -> startsWithSpace after = false ->
  replace_spaces (before ++ run ++ after) =
  replace_spaces before ++ [95%N] ++ replace_spaces after.
Proof.
  intros Hne Hrun Hend Hstart. unfold replace_spaces.
  assert (Hrest : underscore_runs false (run ++ after) =
                  95%N :: underscore_runs false after).
  { destruct run as [|c run]; [contradiction|].
    cbn [forallb] in Hrun. apply andb_true_iff in Hrun as [Hc Hrun].
    cbn [app underscore_runs]. rewrite Hc.
    now rewrite underscore_runs_skip, underscore_runs_restart. }
  destruct before as [|c before].
  - exact Hrest.
  - rewrite underscore_runs_app by (discriminate || exact Hend).
    now rewrite Hrest.
Qed.

(** X16. In the names under which a note and its audio are downloaded,
    every maximal run of white space of the title has become one
    underscore and everything else is kept: a title without white space
    is kept as it is, and a title made of a piece, a run of white space
    and a rest (the piece not ending and the rest not starting with
    white space) gives the name of the piece, an underscore, and the name
    of the rest.  So the names contain no white space at all and are
    never longer than the title plus the extension. *)
Theorem download_names_replace_white_space :
  forall (title : jsstring),
    forallb (fun c => negb (is_space c)) (noteFileName title) = true /\
    forallb (fun c => negb (is_space c)) (audioFileName title) = true /\
    (List.length (noteFileName title) <= List.length title + 9)%nat /\
    (List.length (audioFileName title) <= List.length title + 5)%nat /\
    (forallb (fun c => negb (is_space c)) title = true ->
     noteFileName title = title ++ str "_notes.md" /\
     audioFileName title = title ++ str ".webm") /\
    (forall before run after,
        title = before ++ run ++ after ->
        run <> [] -> forallb is_space run = true ->
        endsWithSpace before = false -> startsWithSpace after = false ->
        noteFileName title =
          replace_spaces before ++ [95%N] ++ noteFileName after /\
        audioFileName title =
          replace_spaces before ++ [95%N] ++ audioFileName after).
Proof.
  intros title. unfold noteFileName, audioFileName.
  rewrite !forallb_app, !length_app.
  unfold replace_spaces at 1 2. rewrite underscore_runs_no_space.
  pose proof (underscore_runs_length title false) as Hlen.
  fold (replace_spaces title) in Hlen.
  split; [reflexivity|]. split; [reflexivity|].
  split; [cbn; lia|]. split; [cbn; lia|]. split.
  - intros H. unfold replace_spaces.
    now rewrite (underscore_runs_plain title false H).
  - intros before run after -> Hne Hrun Hend Hstart.
    rewrite (replace_spaces_run before run after Hne Hrun Hend Hstart).
    rewrite <- !app_assoc. split; reflexivity.
Qed.

(** *** Key term cards *)

(** X17. A key term without a colon is shown whole, as the heading and
    as the text of its card.  A term 'name:text' is shown as the heading
    'name' over 'text'; when nothing follows the colon the text falls
    back to the whole term; and when the text has a colon of its own,
    only what stands before that second colon is shown. *)
Theorem key_term_card_splits_at_colon :
  forall (name text rest : jsstring),
    forallb (fun c => negb (N.eqb 58 c)) name = true ->
    forallb (fun c => negb (N.eqb 58 c)) text = true ->
    (termLabel name = VStr name /\ termBody name = VStr name) /\
    termLabel (name ++ [58%N] ++ text) = VStr name /\
    (text <> [] -> termBody (name ++ [58%N] ++ text) = VStr text) /\
    termBody (name ++ [58%N]) = VStr (name ++ [58%N]) /\
    (text <> [] ->
     termBody (name ++ [58%N] ++ text ++ [58%N] ++ rest) = VStr text).
Proof.
  intros name text rest Hn Ht.
  unfold termLabel, termBody. cbn [app].
  rewrite (UtilsFacts.split_no_separator (N.eqb 58) name Hn).
  rewrite !(UtilsFacts.split_at_first (N.eqb 58) name _ 58%N Hn eq_refl).
  rewrite (UtilsFacts.split_no_separator (N.eqb 58) text Ht).
  rewrite (UtilsFacts.split_at_first (N.eqb 58) text rest 58%N Ht eq_refl).
  split; [split; reflexivity|]. split; [reflexivity|].
  split; [|split].
  - intros Hne. destruct text; [contradiction | reflexivity].
  - reflexivity.
  - intros Hne. destruct text; [contradiction | reflexivity].
Qed.

(** X17 on 'Eigenvalue:a scalar' and on a definition with a colon. *)
Lemma key_term_card_splits_at_colon_witness :
  forallb (fun c => negb (N.eqb 58 c)) (str "Eigenvalue") = true /\
  forallb (fun c => negb (N.eqb 58 c)) (str "a scalar") = true /\
  termLabel (str "Eigenvalue:a scalar") = VStr (str "Eigenvalue") /\
  (str "a scalar" <> [] ->
   termBody (str "Eigenvalue:a scalar") = VStr (str "a scalar")).
Proof.
  split; [reflexivity|]. split; [reflexivity|].
  destruct (key_term_card_splits_at_colon
              (str "Eigenvalue") (str "a scalar") (str "see: ch. 5")
              eq_refl eq_refl) as (_ & Hl & Hb & _).
  split; [exact Hl | exact Hb].
Defined.

(** *** The audio of a record after a reload *)

(** X18. Rehydration keeps the audioBlob and the id of a stored record,
    so after a reload the audio of a record is asked from the blob store
    exactly when the stored record has no truthy audioBlob.  A Blob is
    serialized as the empty object, which is truthy: a stored record
    whose audioBlob is that empty object is loaded with the in-memory
    branch of loadAudio, on a value that is not a Blob, and the blob
    store is not asked. *)
Theorem reloaded_audio_source :
  forall (fs : list (jsstring * JsVal)) (rec : JsVal),
    rehydrate_item (VObj fs) = Some rec ->
    loadAudio rec =
      (if truthy (get (VObj fs) k_audioBlob)
       then InMemory (get (VObj fs) k_audioBlob)
       else FromStore (get (VObj fs) k_id)) /\
    (forall blob, JSON_stringify (VBlob blob) = Some (JObj [])) /\
    (get (VObj fs) k_audioBlob = VObj [] -> loadAudio rec = InMemory (VObj [])).
Proof.
  intros fs rec H.
  destruct (AppFacts.rehydrate_item_fields fs rec H)
    as (_ & _ & _ & _ & _ & _ & Hk).
  assert (Hload : loadAudio rec =
            if truthy (get (VObj fs) k_audioBlob)
            then InMemory (get (VObj fs) k_audioBlob)
            else FromStore (get (VObj fs) k_id)).
  { unfold loadAudio. rewrite (Hk k_audioBlob), (Hk k_id); try discriminate.
    reflexivity. }
  split; [exact Hload|]. split; [reflexivity|].
  intros Hb. rewrite Hload, Hb. reflexivity.
Qed.

(** X18 on the interrupted record of the samples, stored with the empty
    object that its Blob was serialized to. *)
Lemma reloaded_audio_source_witness :
  rehydrate_item Samples.interruptedRecord
    = Some (spread_with Samples.interruptedRecord
              [ (k_subject, VStr (str "Algebra"));
                (k_date, VDate (VStr (str "2024-03-05T09:00:00.000Z")));
                (k_status, VStr s_error);
                (k_errorMessage, VStr s_interrupted) ]) /\
  loadAudio (spread_with Samples.interruptedRecord
               [ (k_subject, VStr (str "Algebra"));
                 (k_date, VDate (VStr (str "2024-03-05T09:00:00.000Z")));
                 (k_status, VStr s_error);
                 (k_errorMessage, VStr s_interrupted) ])
    = InMemory (VObj []).
Proof.
  split; [reflexivity|].
  exact (proj2 (proj2 (reloaded_audio_source
                         (own_enumerable Samples.interruptedRecord) _ eq_refl))
               eq_refl).
Defined.

(** *** The exported note *)

Lemma split_join_lines (lines : list jsstring) :
  lines <> [] ->
  Forall (fun line => forallb (fun c => negb (N.eqb 10 c)) line = true) lines ->
  split (N.eqb 10) (join [10%N] lines) = lines.
Proof.
  intros Hne Hall. induction Hall as [|line lines Hline Hall IH];
    [contradiction|].
  destruct lines as [|next lines].
  - cbn [join]. now apply UtilsFacts.split_no_separator.
  - change (join [10%N] (line :: next :: lines))
      with (line ++ 10%N :: join [10%N] (next :: lines)).
    rewrite (UtilsFacts.split_at_first (N.eqb 10) line _ 10%N Hline eq_refl).
    rewrite IH by discriminate. reflexivity.
Qed.

Lemma questionLines_from_nth (qs : list jsstring) : forall i n q,
  nth_error qs n = Some q ->
  nth_error (questionLines_from i qs) n
  = Some (nat_toString (i + n + 1) ++ str ". " ++ q).
Proof.
  induction qs as [|q0 qs IH]; intros i n q H; [destruct n; discriminate|].
  destruct n as [|n]; cbn [nth_error questionLines_from] in *.
  - injection H as ->. now rewrite Nat.add_0_r.
  - rewrite (IH (S i) n q H). do 3 f_equal. lia.
Qed.

Lemma questionLines_from_one_line (qs : list jsstring) : forall i,
  Forall (fun q => forallb (fun c => negb (N.eqb 10 c)) q = true) qs ->
  Forall (fun line => forallb (fun c => negb (N.eqb 10 c)) line = true)
         (questionLines_from i qs).
Proof.
  induction qs as [|q qs IH]; intros i H; [constructor|].
  inversion H as [|? ? Hq Hqs]; subst. cbn [questionLines_from].
  constructor; [|now apply IH].
  rewrite !forallb_app, Hq. cbn [andb]. rewrite andb_true_r.
  apply forallb_forall. intros c Hc.
  pose proof (UtilsFacts.nat_toString_all_digits (i + 1)) as Hd.
  rewrite forallb_forall in Hd. specialize (Hd c Hc).
  apply negb_true_iff. destruct (N.eqb_spec 10 c) as [<- | _]; [|reflexivity].
  vm_compute in Hd. discriminate Hd.
Qed.

(** X19. In the exported note, when no key term and no exam question
    contains a line break, the key term block has exactly one line per
    key term, '- ' followed by the term, and the question block exactly
    one line per question, numbered from 1 in order: line n is the
    decimal of n, '. ' and the n-th question. *)
Theorem exported_lists_have_one_line_per_item :
  forall (keyTerms examQuestions : list jsstring),
    keyTerms <> [] -> examQuestions <> [] ->
    Forall (fun t => forallb (fun c => negb (N.eqb 10 c)) t = true) keyTerms ->
    Forall (fun q => forallb (fun c => negb (N.eqb 10 c)) q = true)
           examQuestions ->
    split (N.eqb 10) (keyTermBlock keyTerms)
      = List.map (fun term => str "- " ++ term) keyTerms /\
    List.length (split (N.eqb 10) (questionBlock examQuestions))
      = List.length examQuestions /\
    (forall n q,
        nth_error examQuestions n = Some q ->
        nth_error (split (N.eqb 10) (questionBlock examQuestions)) n
        = Some (nat_toString (n + 1) ++ str ". " ++ q)).
Proof.
  intros keyTerms examQuestions Hk Hq Hkt Hqs.
  assert (Hqsplit : split (N.eqb 10) (questionBlock examQuestions)
                    = questionLines_from 0 examQuestions).
  { unfold questionBlock. apply split_join_lines.
    - destruct examQuestions; [contradiction | discriminate].
    - now apply questionLines_from_one_line. }
  split; [|split].
  - unfold keyTermBlock, keyTermLines. apply split_join_lines.
    + destruct keyTerms; [contradiction | discriminate].
    + apply Forall_forall. intros line Hin.
      apply in_map_iff in Hin as (term & <- & Hterm).
      rewrite Forall_forall in Hkt. rewrite forallb_app, (Hkt term Hterm).
      reflexivity.
  - rewrite Hqsplit. clear. generalize 0%nat.
    induction examQuestions as [|q qs IH]; intros i; [reflexivity|].
    cbn [questionLines_from List.length]. now rewrite IH.
  - intros n q Hn. rewrite Hqsplit.
    now rewrite (questionLines_from_nth examQuestions 0 n q Hn).
Qed.

(** X19 on two terms and two questions. *)
Lemma exported_lists_have_one_line_per_item_witness :
  [str "Vector"; str "Basis"] <> [] /\
  [str "What is a basis?"; str "Define rank."] <> [] /\
  split (N.eqb 10) (keyTermBlock [str "Vector"; str "Basis"])
    = [str "- Vector"; str "- Basis"] /\
  List.length (split (N.eqb 10)
                 (questionBlock [str "What is a basis?"; str "Define rank."]))
    = 2%nat.
Proof.
  assert (H1 : [str "Vector"; str "Basis"] <> []) by discriminate.
  assert (H2 : [str "What is a basis?"; str "Define rank."] <> [])
    by discriminate.
  split; [exact H1|]. split; [exact H2|].
  destruct (exported_lists_have_one_line_per_item
              [str "Vector"; str "Basis"]
              [str "What is a basis?"; str "Define rank."] H1 H2
              ltac:(repeat constructor) ltac:(repeat constructor))
    as (Hk & Hn & _).
  split; [exact Hk | exact Hn].
Defined.

End NoteDetailFacts.


(* ================================================================== *)
(** ** Folders *)

Module FolderFacts.
Import Js JsFacts App AppFacts Folders.

(** *** The order of the keys *)

Lemma jsstring_leb_total (a : jsstring) : forall b,
  jsstring_leb a b = true \/ jsstring_leb b a = true.
Proof.
  induction a as [|x a IH]; intros [|y b]; cbn [jsstring_leb]; auto.
  destruct (N.ltb_spec x y) as [Hxy | Hxy]; [now left|].
  destruct (N.ltb_spec y x) as [Hyx | Hyx]; [now right|].
  assert (x = y) by lia. subst y. rewrite N.eqb_refl. apply IH.
Qed.

Lemma insert_sorted_In (k x : jsstring) (l : list jsstring) :
  In k (insert_sorted x l) <-> k = x \/ In k l.
Proof.
  induction l as [|y l IH]; cbn [insert_sorted].
  - cbn. intuition congruence.
  - destruct (jsstring_leb x y); cbn [In]; [intuition congruence|].
    rewrite IH. intuition congruence.
Qed.

Lemma insert_sorted_NoDup (x : jsstring) (l : list jsstring) :
  ~ In x l -> NoDup l -> NoDup (insert_sorted x l).
Proof.
  induction l as [|y l IH]; intros Hx Hnd; cbn [insert_sorted].
  - constructor; [intros [] | constructor].
  - destruct (jsstring_leb x y); [now constructor|].
    apply NoDup_cons_iff in Hnd as [Hy Hnd].
    constructor.
    + rewrite insert_sorted_In. intros [-> | H]; [|contradiction].
      apply Hx. now left.
    + apply IH; [|exact Hnd]. intros H. apply Hx. now right.
Qed.

Lemma insert_sorted_Sorted (x : jsstring) (l : list jsstring) :
  Sorted (fun a b => jsstring_leb a b = true) l ->
  Sorted (fun a b => jsstring_leb a b = true) (insert_sorted x l).
Proof.
  induction l as [|y l IH]; intros Hs; cbn [insert_sorted].
  - repeat constructor.
  - destruct (jsstring_leb x y) eqn:E.
    + constructor; [exact Hs | now constructor].
    + inversion Hs as [|? ? Hl Hhd]; subst.
      constructor; [now apply IH|].
      destruct l as [|z l]; cbn [insert_sorted].
      * constructor. destruct (jsstring_leb_total x y); congruence.
      * destruct (jsstring_leb x z).
        -- constructor. destruct (jsstring_leb_total x y); congruence.
        -- inversion Hhd; subst. now constructor.
Qed.

Lemma sort_spec (keys : list jsstring) :
  Sorted (fun a b => jsstring_leb a b = true) (sort keys) /\
  (forall k, In k (sort keys) <-> In k keys) /\
  (NoDup keys -> NoDup (sort keys)) /\
  List.length (sort keys) = List.length keys.
Proof.
  induction keys as [|x keys (Hs & Hin & Hnd & Hlen)]; cbn [sort fold_right].
  - repeat split; auto; constructor.
  - fold (sort keys). split; [now apply insert_sorted_Sorted|].
    split; [|split].
    + intros k. rewrite insert_sorted_In, Hin. cbn. intuition congruence.
    + intros H. apply NoDup_cons_iff in H as [Hx H].
      apply insert_sorted_NoDup; [now rewrite Hin | now apply Hnd].
    + cbn [List.length]. rewrite <- Hlen. clear.
      induction (sort keys) as [|y l IH]; cbn [insert_sorted]; [reflexivity|].
      destruct (jsstring_leb x y); cbn [List.length]; [reflexivity|].
      now rewrite IH.
Qed.

(** *** Grouping *)

Lemma lookup_keys (k : jsstring) (g : Groups) :
  In k (List.map fst g) <-> exists recs, lookup k g = Some recs.
Proof.
  induction g as [|[k' recs] g IH]; cbn [List.map lookup fst In].
  - split; [intros [] | intros [? H]; discriminate].
  - destruct (jsstring_eqb k' k) eqn:E.
    + apply jsstring_eqb_eq in E. split; eauto.
    + apply jsstring_eqb_neq in E. rewrite IH. intuition congruence.
Qed.

Lemma size_cons (k : jsstring) (recs : list JsVal) (g : Groups) :
  size ((k, recs) :: g) = (List.length recs + size g)%nat.
Proof. reflexivity. Qed.

Lemma push_spec (k : jsstring) (rec : JsVal) (g : Groups) :
  (forall k', members k' (push k rec g) =
              members k' g ++ (if jsstring_eqb k k' then [rec] else [])) /\
  (forall k', In k' (List.map fst (push k rec g)) <->
              k' = k \/ In k' (List.map fst g)) /\
  (NoDup (List.map fst g) -> NoDup (List.map fst (push k rec g))) /\
  size (push k rec g) = S (size g) /\
  (Forall (fun entry => snd entry <> []) g ->
   Forall (fun entry => snd entry <> []) (push k rec g)).
Proof.
  unfold members.
  induction g as [|[k0 recs] g (IHm & IHk & IHn & IHs & IHf)].
  - cbn [push lookup List.map fst snd In].
    split; [|split; [|split; [|split]]].
    + intros k'. destruct (jsstring_eqb k k'); reflexivity.
    + intros k'. intuition congruence.
    + intros _. constructor; [intros [] | constructor].
    + reflexivity.
    + intros _. constructor; [discriminate | constructor].
  - cbn [push]. destruct (jsstring_eqb k0 k) eqn:E;
      cbn [lookup List.map fst snd In].
    + apply jsstring_eqb_eq in E. subst k0.
      split; [|split; [|split; [|split]]].
      * intros k'. destruct (jsstring_eqb k k');
          [reflexivity | now rewrite app_nil_r].
      * intros k'. intuition congruence.
      * intros H. exact H.
      * rewrite !size_cons, length_app. cbn. lia.
      * intros H. inversion H; subst. constructor; [|assumption].
        cbn. destruct recs; discriminate.
    + split; [|split; [|split; [|split]]].
      * intros k'. destruct (jsstring_eqb k0 k') eqn:E'.
        -- apply jsstring_eqb_eq in E'. subst k'.
           assert (Hk : jsstring_eqb k k0 = false).
           { apply jsstring_eqb_neq. apply jsstring_eqb_neq in E. congruence. }
           now rewrite Hk, app_nil_r.
        -- apply IHm.
      * intros k'. rewrite IHk. intuition congruence.
      * intros H. apply NoDup_cons_iff in H as [H0 H].
        constructor; [|now apply IHn].
        rewrite IHk. intros [-> | H1]; [|contradiction].
        now rewrite jsstring_eqb_refl in E.
      * rewrite !size_cons, IHs. lia.
      * intros H. inversion H; subst. constructor; [assumption|now apply IHf].
Qed.

Section WithDates.
Variable Date_toString : JsVal -> jsstring.

(** The conversion to a key throws exactly on the values that cannot be
    converted to a primitive. *)
Lemma ToString_throws (v : JsVal) :
  ToString Date_toString v = None <-> unprintable v = true.
Proof.
  induction v using JsVal_nested_ind; try (cbn; split; discriminate).
  - destruct b; cbn; split; discriminate.
  - induction H as [|x xs Hx _ IH]; [cbn; split; discriminate|].
    change (ToString Date_toString (VArr (x :: xs)))
      with (match match x with
                  | VUndef | VNull => Some []
                  | _ => ToString Date_toString x
                  end, ToString Date_toString (VArr xs) with
            | Some text, Some rest =>
                Some (text ++ match xs with
                              | [] => []
                              | _ => 44%N :: rest
                              end)
            | _, _ => None
            end).
    change (unprintable (VArr (x :: xs)))
      with (unprintable x || unprintable (VArr xs)).
    rewrite orb_true_iff, <- Hx, <- IH.
    destruct (ToString Date_toString (VArr xs)) as [rest|];
      destruct x as [| |b|n|t|items|fields|arg|blob];
      try destruct b;
      try (cbn; intuition (discriminate || congruence));
      match goal with
      | |- context [ToString Date_toString ?y] =>
          destruct (ToString Date_toString y);
          intuition (discriminate || congruence)
      end.
  - change (ToString Date_toString (VObj fs))
      with (match assoc (str "toString") fs with
            | Some _ => None
            | None => Some (str "[object Object]")
            end).
    change (unprintable (VObj fs))
      with (match assoc (str "toString") fs with
            | Some _ => true
            | None => false
            end).
    destruct (assoc (str "toString") fs); split;
      (discriminate || reflexivity).
Qed.

Lemma filedUnder_spec (k : jsstring) (rec : JsVal) :
  filedUnder Date_toString k rec = true <->
  folderOf Date_toString rec = Some k.
Proof.
  unfold filedUnder. destruct (folderOf Date_toString rec) as [k'|].
  - rewrite jsstring_eqb_eq. split; congruence.
  - split; discriminate.
Qed.

Lemma groupInto_spec (recs : list JsVal) : forall g g',
  groupInto Date_toString g recs = Some g' ->
  (forall k, members k g' =
             members k g ++ List.filter (filedUnder Date_toString k) recs) /\
  (forall k, In k (List.map fst g') <->
             In k (List.map fst g) \/
             exists rec, In rec recs /\ folderOf Date_toString rec = Some k) /\
  (NoDup (List.map fst g) -> NoDup (List.map fst g')) /\
  size g' = (size g + List.length recs)%nat /\
  (Forall (fun entry => snd entry <> []) g ->
   Forall (fun entry => snd entry <> []) g') /\
  (forall rec, In rec recs ->
               exists k, folderOf Date_toString rec = Some k /\
                         inherited k = false).
Proof.
  induction recs as [|rec recs IH]; intros g g' H; cbn [groupInto] in H.
  - injection H as <-. repeat split; auto.
    + intros k. cbn. now rewrite app_nil_r.
    + intros [H | (rec & [] & _)]. exact H.
    + intros rec [].
  - destruct (folderOf Date_toString rec) as [subj|] eqn:Esubj;
      [|discriminate].
    destruct (inherited subj) eqn:Einh; [discriminate|].
    destruct (IH _ _ H) as (Hm & Hk & Hn & Hs & Hf & Hi).
    destruct (push_spec subj rec g) as (Pm & Pk & Pn & Ps & Pf).
    split; [|split; [|split; [|split; [|split]]]].
    + intros k. rewrite Hm, Pm. cbn [List.filter].
      unfold filedUnder at 2. rewrite Esubj.
      destruct (jsstring_eqb subj k);
        rewrite <- app_assoc; reflexivity.
    + intros k. rewrite Hk, Pk. cbn [In]. split.
      * intros [[-> | H1] | (r & Hr & Hr')].
        -- right. exists rec. auto.
        -- now left.
        -- right. exists r. auto.
      * intros [H1 | (r & [<- | Hr] & Hr')].
        -- left. now right.
        -- left. left. congruence.
        -- right. exists r. auto.
    + intros Hnd. apply Hn. now apply Pn.
    + rewrite Hs, Ps. cbn [List.length]. lia.
    + intros Hne. apply Hf. now apply Pf.
    + intros r [<- | Hr]; [exists subj; auto | now apply Hi].
Qed.

Lemma groupInto_fails (recs : list JsVal) : forall g,
  groupInto Date_toString g recs = None <->
  exists rec, In rec recs /\
              match folderOf Date_toString rec with
              | Some k => inherited k = true
              | None => True
              end.
Proof.
  induction recs as [|rec recs IH]; intros g; cbn [groupInto].
  - split; [discriminate | intros (rec & [] & _)].
  - destruct (folderOf Date_toString rec) as [subj|] eqn:Esubj.
    + destruct (inherited subj) eqn:E.
      * split; [|reflexivity]. intros _. exists rec.
        split; [now left | now rewrite Esubj].
      * rewrite IH. split.
        -- intros (r & Hr & Hi). exists r. split; [now right | exact Hi].
        -- intros (r & [<- | Hr] & Hi).
           ++ rewrite Esubj in Hi. congruence.
           ++ exists r. auto.
    + split; [|reflexivity]. intros _. exists rec.
      split; [now left | now rewrite Esubj].
Qed.

End WithDates.

Lemma folders_grouping (Date_toString : JsVal -> jsstring)
      (recordings : list JsVal) (groups : Groups) :
  groupedRecordings Date_toString recordings = Some groups ->
  NoDup (List.map fst groups) /\
  (forall k, In k (List.map fst groups) <->
             exists rec, In rec recordings /\
                         folderOf Date_toString rec = Some k) /\
  (forall k recs,
      lookup k groups = Some recs ->
      recs = List.filter (filedUnder Date_toString k) recordings /\
      recs <> []).
Proof.
  intros H.
  destruct (groupInto_spec Date_toString recordings [] groups H)
    as (Hm & Hk & Hn & _ & Hf & _).
  split; [apply Hn; constructor|]. split.
  - intros k. rewrite Hk. cbn. intuition.
  - intros k recs Hl. specialize (Hm k). unfold members in Hm.
    rewrite Hl in Hm. cbn in Hm. split; [exact Hm|].
    specialize (Hf (Forall_nil _)). rewrite Forall_forall in Hf.
    assert (Hin : In (k, recs) groups).
    { clear - Hl. induction groups as [|[k' l] g IH]; [discriminate|].
      cbn [lookup] in Hl. destruct (jsstring_eqb k' k) eqn:E.
      - apply JsFacts.jsstring_eqb_eq in E. subst. injection Hl as ->. now left.
      - right. now apply IH. }
    exact (Hf _ Hin).
Qed.

(** X20. When grouping succeeds, the folders partition the registry:
    the keys are pairwise distinct and are exactly the folder names of
    the records, the group under a key holds exactly the records of that
    folder in registry order and is never empty, and the sizes of the
    groups add up to the size of the registry. *)
Theorem folders_partition_the_registry :
  forall (Date_toString : JsVal -> jsstring)
         (recordings : list JsVal) (groups : Groups),
    groupedRecordings Date_toString recordings = Some groups ->
    NoDup (List.map fst groups) /\
    (forall k, In k (List.map fst groups) <->
               exists rec, In rec recordings /\
                           folderOf Date_toString rec = Some k) /\
    (forall k recs,
        lookup k groups = Some recs ->
        recs = List.filter (filedUnder Date_toString k) recordings /\
        recs <> []) /\
    list_sum (List.map (fun entry => List.length (snd entry)) groups)
      = List.length recordings.
Proof.
  intros D recordings groups H.
  destruct (folders_grouping D recordings groups H) as (Hn & Hk & Hl).
  destruct (groupInto_spec D recordings [] groups H)
    as (_ & _ & _ & Hs & _).
  repeat split; try assumption; try (now apply Hk); try (now apply (Hl k recs)).
Qed.

(** X20 on the registry left by [Shapes.afterSuccess]. *)
Lemma folders_partition_the_registry_witness :
  groupedRecordings (fun _ => []) (recordings Shapes.afterSuccess)
    = Some [(s_etc, recordings Shapes.afterSuccess)] /\
  list_sum (List.map (fun entry => List.length (snd entry))
                     [(s_etc, recordings Shapes.afterSuccess)])
    = List.length (recordings Shapes.afterSuccess).
Proof.
  split; [reflexivity|].
  exact (proj2 (proj2 (proj2 (folders_partition_the_registry
                                (fun _ => []) (recordings Shapes.afterSuccess)
                                [(s_etc, recordings Shapes.afterSuccess)]
                                eq_refl)))).
Defined.

(** X21. The list of folder headers is in increasing code unit order
    without repetition, and a name is a header exactly when some record
    is filed under it: every record is listed under one header, and no
    header is empty. *)
Theorem sortedSubjects_lists_each_folder_once :
  forall (Date_toString : JsVal -> jsstring)
         (recordings : list JsVal) (groups : Groups),
    groupedRecordings Date_toString recordings = Some groups ->
    Sorted (fun a b => jsstring_leb a b = true) (sortedSubjects groups) /\
    NoDup (sortedSubjects groups) /\
    (forall k, In k (sortedSubjects groups) <->
               exists rec, In rec recordings /\
                           folderOf Date_toString rec = Some k) /\
    (forall k, In k (sortedSubjects groups) ->
               exists recs, lookup k groups = Some recs /\ recs <> []).
Proof.
  intros D recordings groups H.
  destruct (folders_grouping D recordings groups H) as (Hn & Hk & Hl).
  destruct (sort_spec (List.map fst groups)) as (Hs & Hin & Hnd & _).
  unfold sortedSubjects.
  split; [exact Hs|]. split; [now apply Hnd|]. split.
  - intros k. now rewrite Hin, Hk.
  - intros k Hk'. apply Hin in Hk'. apply lookup_keys in Hk' as [recs Hr].
    exists recs. split; [exact Hr|]. now apply (Hl k recs).
Qed.

(** X21 on [twoFolders]: the headers are 'Math', then '기타'. *)
Lemma sortedSubjects_lists_each_folder_once_witness :
  groupedRecordings (fun _ => []) twoFolders = Some twoFoldersGroups /\
  sortedSubjects twoFoldersGroups = [str "Math"; s_etc] /\
  NoDup (sortedSubjects twoFoldersGroups).
Proof.
  split; [reflexivity|]. split; [reflexivity|].
  exact (proj1 (proj2 (sortedSubjects_lists_each_folder_once
                         (fun _ => []) twoFolders twoFoldersGroups eq_refl))).
Defined.

Lemma Forall2_In_l {A B : Type} (R : A -> B -> Prop)
      (l : list A) (l' : list B) (x : A) :
  Forall2 R l l' -> In x l -> exists y, In y l' /\ R x y.
Proof.
  induction 1 as [|a b l l' HR _ IH]; intros Hin; [destruct Hin|].
  destruct Hin as [<- | Hin].
  - exists b. split; [now left | exact HR].
  - destruct (IH Hin) as (y & Hy & Hxy). exists y. split; [now right | exact Hxy].
Qed.

(** X22. Grouping throws exactly when the registry holds a record whose
    subject cannot be converted to a key or names a property that every
    object inherits. *)
Theorem grouping_throws_exactly_on_inherited_keys :
  forall (Date_toString : JsVal -> jsstring) (recordings : list JsVal),
    groupedRecordings Date_toString recordings = None <->
    exists rec,
      In rec recordings /\
      (folderOf Date_toString rec = None \/
       exists k, folderOf Date_toString rec = Some k /\ inherited k = true).
Proof.
  intros D recordings. unfold groupedRecordings. rewrite groupInto_fails.
  split; intros (rec & Hin & H); exists rec; (split; [exact Hin|]).
  - destruct (folderOf D rec) as [k|]; [right; eauto | now left].
  - destruct H as [-> | (k & -> & Hk)]; [exact I | exact Hk].
Qed.

(** X23. Saving an edit whose folder name, once trimmed, is one of the
    inherited property names (such as 'constructor') on a record of
    the registry leaves a registry whose grouping throws. *)
Theorem saving_an_inherited_folder_name_breaks_grouping :
  forall (Date_toString : JsVal -> jsstring) (st : AppState) (i : jsstring),
    editingId st = Some i ->
    i <> [] ->
    inherited (trim (editSubject st)) = true ->
    (exists rec, In rec (recordings st) /\
                 strict_eq_str (get rec k_id) i = true) ->
    groupedRecordings Date_toString (recordings (fst (dispatch SaveEdit st)))
      = None.
Proof.
  intros D st i Hi Hne Hinh (rec & Hin & Hid).
  unfold groupedRecordings. apply groupInto_fails.
  cbn [dispatch]. unfold saveEdit. rewrite Hi.
  destruct i as [|c i]; [contradiction|].
  cbn [fst recordings setEditing setRecordings].
  pose proof (EditFacts.renameRecording_pointwise
                (c :: i) (editTitle st) (editSubject st) (recordings st)) as HF.
  destruct (Forall2_In_l _ _ _ _ HF Hin) as (rec' & Hin' & _ & _ & Hmatch).
  exists rec'. split; [exact Hin'|].
  destruct (Hmatch Hid) as [_ Hs].
  unfold folderOf. rewrite Hs.
  destruct (trim (editSubject st)) as [|d rest] eqn:T; [discriminate|].
  exact Hinh.
Qed.

(** X23 on [editingToConstructor]. *)
Lemma saving_an_inherited_folder_name_breaks_grouping_witness :
  editingId editingToConstructor = Some (c_newId Samples.sampleCapture) /\
  trim (editSubject editingToConstructor) = str "constructor" /\
  groupedRecordings (fun _ => [])
    (recordings (fst (dispatch SaveEdit editingToConstructor))) = None.
Proof.
  split; [reflexivity|]. split; [reflexivity|].
  apply (saving_an_inherited_folder_name_breaks_grouping
           (fun _ => []) editingToConstructor (c_newId Samples.sampleCapture)).
  - reflexivity.
  - discriminate.
  - reflexivity.
  - exists Samples.sampleRecording. split; [now left | reflexivity].
Defined.

End FolderFacts.

(** ** Open folders *)

Module ExpansionFacts.
Import Js JsFacts App AppFacts Folders Expansion.

Lemma Set_has_app (k : jsstring) (e e' : Expanded) :
  Set_has k (e ++ e') = Set_has k e || Set_has k e'.
Proof. unfold Set_has. apply existsb_app. Qed.

Lemma Set_has_add (k subject : jsstring) (e : Expanded) :
  Set_has k (Set_add subject e) = Set_has k e || jsstring_eqb k subject.
Proof.
  unfold Set_add. destruct (Set_has subject e) eqn:E.
  - destruct (jsstring_eqb k subject) eqn:K; [|now rewrite orb_false_r].
    apply jsstring_eqb_eq in K. subst k. now rewrite E.
  - rewrite Set_has_app. cbn. now rewrite orb_false_r.
Qed.

Lemma Set_has_delete (k subject : jsstring) (e : Expanded) :
  Set_has k (Set_delete subject e) =
  Set_has k e && negb (jsstring_eqb k subject).
Proof.
  unfold Set_has, Set_delete.
  induction e as [|x e IH]; cbn [List.filter existsb]; [reflexivity|].
  destruct (jsstring_eqb x subject) eqn:X; cbn [negb existsb]; rewrite IH.
  - apply jsstring_eqb_eq in X. subst x.
    destruct (jsstring_eqb k subject); cbn [negb orb];
      [now rewrite !andb_false_r | reflexivity].
  - destruct (jsstring_eqb k x) eqn:K; cbn [orb]; [|reflexivity].
    apply jsstring_eqb_eq in K. subst x. now rewrite X.
Qed.

Lemma Set_has_subjects (k : jsstring) (recs : list JsVal) : forall e,
  Set_has k (fold_left (fun e r => match get r k_subject with
                                   | VStr subject => Set_add subject e
                                   | _ => e
                                   end) recs e) = true <->
  Set_has k e = true \/
  exists rec, In rec recs /\ get rec k_subject = VStr k.
Proof.
  induction recs as [|r recs IH]; intros e; cbn [fold_left].
  - split; [now left | intros [H | (rec & [] & _)]; exact H].
  - rewrite IH. split.
    + intros [H | (rec & Hin & Hs)].
      * destruct (get r k_subject) eqn:G; try (now left).
        rewrite Set_has_add in H. apply orb_true_iff in H as [H | H];
          [now left|].
        apply jsstring_eqb_eq in H. subst k.
        right. exists r. split; [now left | exact G].
      * right. exists rec. split; [now right | exact Hs].
    + intros [H | (rec & [<- | Hin] & Hs)].
      * left. destruct (get r k_subject); try exact H.
        rewrite Set_has_add, H. reflexivity.
      * left. rewrite Hs, Set_has_add, jsstring_eqb_refl.
        apply orb_true_r.
      * right. exists rec. split; [exact Hin | exact Hs].
Qed.

Lemma Forall2_In_r {A B : Type} (R : A -> B -> Prop)
      (l : list A) (l' : list B) (y : B) :
  Forall2 R l l' -> In y l' -> exists x, In x l /\ R x y.
Proof.
  induction 1 as [|a b l l' HR _ IH]; intros Hin; [destruct Hin|].
  destruct Hin as [<- | Hin].
  - exists a. split; [now left | exact HR].
  - destruct (IH Hin) as (x & Hx & Hxy). exists x. split; [now right | exact Hxy].
Qed.

Lemma destination_not_empty (st : AppState) : destination st <> [].
Proof.
  unfold destination. destruct (trim (editSubject st)); discriminate.
Qed.

(** X24. Once the first render has run its effects, the open folders
    are exactly the string subjects of the loaded records: the initial
    '기타' is replaced.  So when nothing was loaded no folder is open,
    and the record of the first capture, filed under '기타', sits in a
    closed folder. *)
Theorem first_render_opens_the_loaded_subjects :
  forall (hasWindow : bool) (savedData : option StoredText),
    let s := mountScreen hasWindow savedData in
    (forall k,
        Set_has k (expandedFolders s) = true <->
        exists rec, In rec (recordings (app s)) /\
                    get rec k_subject = VStr k) /\
    (recordings (app s) = [] ->
     forall c : Capture,
       let s' := screenStep (AppAction (captureComplete c)) s in
       recordings (app s') = [capturedRecording c] /\
       get (capturedRecording c) k_subject = VStr s_etc /\
       Set_has s_etc (expandedFolders s') = false).
Proof.
  intros hasWindow savedData s.
  assert (Hopen : forall k,
             Set_has k (expandedFolders s) = true <->
             exists rec, In rec (recordings (app s)) /\
                         get rec k_subject = VStr k).
  { intros k. subst s. unfold mountScreen, subjectsOf.
    cbn [app expandedFolders]. rewrite Set_has_subjects. cbn [Set_has existsb].
    split; [intros [H | H]; [discriminate | exact H] | now right]. }
  split; [exact Hopen|]. clearbody s.
  intros Hempty c s'. subst s'.
  cbn [screenStep captureComplete app expandedFolders dispatch].
  split; [|split; [reflexivity|]].
  - unfold handleRecordingCompleteCallback. cbn. rewrite Hempty. reflexivity.
  - destruct (Set_has s_etc (expandedFolders s)) eqn:E; [|reflexivity].
    apply Hopen in E as (rec & Hin & _). rewrite Hempty in Hin. destruct Hin.
Qed.

(** X25. Saving an edit opens the folder named by the subject exactly as
    typed, when it is not empty, and no other; the record is filed under
    the trimmed subject ('기타' when nothing is left).  So after saving,
    the folder of the renamed record is open only if it was open before
    or the subject was typed without white space around it. *)
Theorem saveEdit_opens_the_typed_name :
  forall (s : Screen) (i : jsstring),
    editingId (app s) = Some i ->
    i <> [] ->
    let s' := screenStep (AppAction SaveEdit) s in
    (forall k,
        Set_has k (expandedFolders s') =
        Set_has k (expandedFolders s)
        || (jsstring_eqb k (editSubject (app s))
            && truthy (VStr (editSubject (app s))))) /\
    Forall (fun rec' =>
              strict_eq_str (get rec' k_id) i = true ->
              get rec' k_subject = VStr (destination (app s)))
           (recordings (app s')) /\
    Set_has (destination (app s)) (expandedFolders s') =
      Set_has (destination (app s)) (expandedFolders s)
      || jsstring_eqb (destination (app s)) (editSubject (app s)).
Proof.
  intros s i Hi Hne s'.
  assert (Hopen : forall k,
             Set_has k (expandedFolders s') =
             Set_has k (expandedFolders s)
             || (jsstring_eqb k (editSubject (app s))
                 && truthy (VStr (editSubject (app s))))).
  { intros k. subst s'. cbn [screenStep expandedFolders].
    unfold saveEdit_expanded. rewrite Hi.
    destruct i as [|c i]; [contradiction|].
    destruct (truthy (VStr (editSubject (app s)))) eqn:T; cbn [andb].
    - destruct (Set_has (editSubject (app s)) (expandedFolders s)) eqn:E;
        cbn [negb].
      + rewrite andb_true_r.
        destruct (jsstring_eqb k (editSubject (app s))) eqn:K;
          [|now rewrite orb_false_r].
        apply jsstring_eqb_eq in K. subst k. now rewrite E.
      + now rewrite Set_has_add, andb_true_r.
    - now rewrite andb_false_r, orb_false_r. }
  split; [exact Hopen|]. split.
  - subst s'. cbn [screenStep app dispatch]. unfold saveEdit. rewrite Hi.
    destruct i as [|c i]; [contradiction|].
    cbn [fst recordings setEditing setRecordings].
    pose proof (EditFacts.renameRecording_pointwise
                  (c :: i) (editTitle (app s)) (editSubject (app s))
                  (recordings (app s))) as HF.
    apply Forall_forall. intros rec' Hin' Hid.
    destruct (Forall2_In_r _ _ _ _ HF Hin') as (rec & _ & Hk & _ & Hmatch).
    rewrite (Hk k_id) in Hid by discriminate.
    destruct (Hmatch Hid) as [_ Hs]. rewrite Hs.
    unfold destination, js_or. cbn [truthy].
    destruct (trim (editSubject (app s))); reflexivity.
  - rewrite Hopen.
    destruct (editSubject (app s)) as [|c rest] eqn:E; cbn [truthy].
    + rewrite andb_false_r.
      destruct (jsstring_eqb (destination (app s)) []) eqn:K; [|reflexivity].
      apply jsstring_eqb_eq in K. now apply destination_not_empty in K.
    + now rewrite andb_true_r.
Qed.

(** X25 on [editingToMath]: the record goes to 'Math', and the folder
    that is opened is ' Math '. *)
Lemma saveEdit_opens_the_typed_name_witness :
  editingId (app editingToMath) = Some (c_newId Samples.sampleCapture) /\
  destination (app editingToMath) = str "Math" /\
  Set_has (str "Math")
          (expandedFolders (screenStep (AppAction SaveEdit) editingToMath))
    = false /\
  Set_has (str " Math ")
          (expandedFolders (screenStep (AppAction SaveEdit) editingToMath))
    = true.
Proof.
  split; [reflexivity|]. split; [reflexivity|]. split; [reflexivity|].
  rewrite (proj1 (saveEdit_opens_the_typed_name
                    editingToMath (c_newId Samples.sampleCapture)
                    eq_refl ltac:(discriminate))).
  reflexivity.
Defined.

(** X26. A click on a folder header flips that folder between open and
    closed and leaves every other folder as it was; a second click on
    the same header restores which folders are open. *)
Theorem toggleFolder_flips_one_folder :
  forall (subject : jsstring) (e : Expanded),
    (forall k,
        Set_has k (toggleFolder subject e) =
        if jsstring_eqb k subject then negb (Set_has k e) else Set_has k e) /\
    (forall k,
        Set_has k (toggleFolder subject (toggleFolder subject e)) =
        Set_has k e).
Proof.
  intros subject e.
  assert (Hflip : forall e' k,
             Set_has k (toggleFolder subject e') =
             if jsstring_eqb k subject then negb (Set_has k e')
             else Set_has k e').
  { intros e' k. unfold toggleFolder.
    destruct (Set_has subject e') eqn:E.
    - rewrite Set_has_delete.
      destruct (jsstring_eqb k subject) eqn:K; cbn [negb].
      + apply jsstring_eqb_eq in K. subst k. now rewrite E.
      + apply andb_true_r.
    - rewrite Set_has_add.
      destruct (jsstring_eqb k subject) eqn:K.
      + apply jsstring_eqb_eq in K. subst k. now rewrite E.
      + apply orb_false_r. }
  split; [apply Hflip|].
  intros k. rewrite !Hflip.
  destruct (jsstring_eqb k subject); [apply negb_involutive | reflexivity].
Qed.

End ExpansionFacts.
